(** * notion-ical: a shallow embedding of the normalisation layer

    The development follows the Go sources of the repository:
    - the date-range parser ([parseNotionDateRange] and its helpers),
    - the snapshot source ([source_export.go]): [NewSourceExport],
      [ReadAll], [eventFromCSVRow], [findFirstColumn],
    - the live source ([source_api.go]): [NewSourceAPI], [eventFromPage],
      [getPageContentPlain], [getBlockChildrenContentPlain],
      [convertBlockContentPlain],
    - the [Event] model ([event.go]).

    Go strings are byte strings; they are modelled by [string] (a list of
    8-bit [ascii] characters), so the arrow U+2192 is the three bytes
    E2 86 92 of its UTF-8 encoding.  Go [int]s are modelled by [Z]. *)

From Stdlib Require Import ZArith Lia Ascii.
From Stdlib Require String.
From stdpp Require Import base list strings gmap sorting.

Local Open Scope Z_scope.

(** ** Outcomes of Go functions

    A Go function of this program returns a value, returns an [error], or
    panics (nil dereference, index out of range).  [Diverge] is the answer of
    a fuel-bounded model whose fuel ran out. *)

Inductive outcome (E A : Type) : Type :=
| Ok (a : A)
| Err (e : E)
| Panic (msg : string)
| Diverge.
Arguments Ok {E A} a.
Arguments Err {E A} e.
Arguments Panic {E A} msg.
Arguments Diverge {E A}.

#[global] Instance outcome_ret {E} : MRet (outcome E) := λ A a, Ok a.
#[global] Instance outcome_fmap {E} : FMap (outcome E) := λ A B f m,
  match m with
  | Ok a => Ok (f a)
  | Err e => Err e
  | Panic msg => Panic msg
  | Diverge => Diverge
  end.
#[global] Instance outcome_bind {E} : MBind (outcome E) := λ A B k m,
  match m with
  | Ok a => k a
  | Err e => Err e
  | Panic msg => Panic msg
  | Diverge => Diverge
  end.

(** ** The parts of Go's [strings] package the program calls *)

Module strings.

Definition byte (n : nat) : ascii := ascii_of_nat n.
Definition code (c : ascii) : Z := Z.of_nat (nat_of_ascii c).

(** [strings.ToLower].  Upper-case ASCII letters are mapped to lower case;
    bytes outside ASCII are left as they are (Go also folds non-ASCII
    letters; the header names and synonyms of this program are ASCII). *)
Definition lower_byte (c : ascii) : ascii :=
  if (65 <=? code c) && (code c <=? 90) then byte (nat_of_ascii c + 32) else c.

Fixpoint ToLower (s : string) : string :=
  match s with
  | EmptyString => EmptyString
  | String c s' => String (lower_byte c) (ToLower s')
  end.

(** [strings.HasPrefix s prefix]. *)
Definition HasPrefix (s prefix : string) : bool := String.prefix prefix s.

(** [strings.HasSuffix s suffix]:
    [len(s) >= len(suffix) && s[len(s)-len(suffix):] == suffix]. *)
Definition HasSuffix (s suffix : string) : bool :=
  (String.length suffix <=? String.length s)%nat
  && String.eqb
       (String.substring (String.length s - String.length suffix)
                         (String.length suffix) s)
       suffix.

(** [strings.Contains s substr]. *)
Fixpoint Contains (s substr : string) : bool :=
  HasPrefix s substr
  || match s with
     | EmptyString => false
     | String _ s' => Contains s' substr
     end.

(** [strings.Cut]-like helper: the text before and after the first
    occurrence of [sep]. *)
Fixpoint cut (s sep : string) : option (string * string) :=
  if HasPrefix s sep
  then Some (EmptyString, String.substring (String.length sep)
                            (String.length s - String.length sep) s)
  else match s with
       | EmptyString => None
       | String c s' =>
           match cut s' sep with
           | Some (before, after) => Some (String c before, after)
           | None => None
           end
       end.

(** [strings.SplitN(s, sep, 2)] for a non-empty [sep]: one part when [sep]
    does not occur, otherwise the text before and after its first
    occurrence. *)
Definition SplitN2 (s sep : string) : list string :=
  match cut s sep with
  | Some (before, after) => [before; after]
  | None => [s]
  end.

(** [strings.Join]. *)
Fixpoint Join (elems : list string) (sep : string) : string :=
  match elems with
  | [] => EmptyString
  | [e] => e
  | e :: rest => e +:+ sep +:+ Join rest sep
  end.

(** [strings.TrimSpace]: leading and trailing white space is removed.  The
    white-space characters are Unicode's: the ASCII ones (tab, line feed,
    vertical tab, form feed, carriage return, space) and, in UTF-8, U+0085,
    U+00A0, U+1680, U+2000..U+200A, U+2028, U+2029, U+202F, U+205F,
    U+3000. *)
Definition ascii_space (c : ascii) : bool :=
  let n := code c in ((9 <=? n) && (n <=? 13)) || (n =? 32).

(** Number of bytes of the white-space character [s] starts with
    (0 when it starts with none). *)
Definition leading_space (s : string) : nat :=
  match s with
  | EmptyString => 0%nat
  | String c1 s1 =>
      if ascii_space c1 then 1%nat
      else match s1 with
      | EmptyString => 0%nat
      | String c2 s2 =>
          let a := code c1 in
          let b := code c2 in
          if (a =? 194) && ((b =? 133) || (b =? 160)) then 2%nat
          else match s2 with
          | EmptyString => 0%nat
          | String c3 _ =>
              let c := code c3 in
              if ((a =? 225) && (b =? 154) && (c =? 128))
                 || ((a =? 226) && (b =? 128)
                     && (((128 <=? c) && (c <=? 138))
                         || (c =? 168) || (c =? 169) || (c =? 175)))
                 || ((a =? 226) && (b =? 129) && (c =? 159))
                 || ((a =? 227) && (b =? 128) && (c =? 128))
              then 3%nat else 0%nat
          end
      end
  end.

(** The same, read from the end of the string ([r] is the string
    reversed). *)
Definition trailing_space (r : string) : nat :=
  match r with
  | EmptyString => 0%nat
  | String c1 r1 =>
      if ascii_space c1 then 1%nat
      else match r1 with
      | EmptyString => 0%nat
      | String c2 r2 =>
          if (leading_space (String c2 (String c1 EmptyString)) =? 2)%nat
          then 2%nat
          else match r2 with
          | EmptyString => 0%nat
          | String c3 _ =>
              if (leading_space
                    (String c3 (String c2 (String c1 EmptyString))) =? 3)%nat
              then 3%nat else 0%nat
          end
      end
  end.

(** [s[n:]]. *)
Fixpoint slice_from (n : nat) (s : string) : string :=
  match n, s with
  | O, _ => s
  | S n', String _ s' => slice_from n' s'
  | S _, EmptyString => EmptyString
  end.

Fixpoint trim_left (fuel : nat) (s : string) : string :=
  match fuel with
  | O => s
  | S fuel' =>
      match leading_space s with
      | O => s
      | n => trim_left fuel' (slice_from n s)
      end
  end.

Fixpoint trim_right_rev (fuel : nat) (r : string) : string :=
  match fuel with
  | O => r
  | S fuel' =>
      match trailing_space r with
      | O => r
      | n => trim_right_rev fuel' (slice_from n r)
      end
  end.

Definition TrimSpace (s : string) : string :=
  let l := trim_left (String.length s) s in
  String.rev (trim_right_rev (String.length l) (String.rev l)).

(** [strings.Compare a b < 0]: byte-wise lexicographic order. *)
Definition Less (a b : string) : bool :=
  match String.compare a b with
  | Lt => true
  | _ => false
  end.

End strings.

(** ** The parts of Go's [time] package the program calls *)

Module time.
Import strings.

(** The wall-clock reading of a time in a zone, with the offset of the zone
    then (seconds east of UTC). *)
Record reading := {
  r_year : Z; r_month : Z; r_day : Z;
  r_hour : Z; r_min : Z; r_sec : Z;
  r_offset : Z
}.

(** A [*time.Location]: UTC, one fixed offset, or a zone of the time-zone
    database, whose offset changes at its transitions.  The program asks one
    thing of a zone, through [time.Date]: the time with a given wall-clock
    reading.  [locDate] is the answer for fields in range: the reading of the
    time that is built and the offset in effect at it.  That is the reading
    asked for, unless the zone skips it (the gap of a transition, as when
    clocks go forward); Go then returns a time of one of the two offsets
    around the gap, whose reading differs from the one asked for. *)
Record Location := {
  locName : string;
  locDate : Z → Z → Z → Z → Z → Z → reading
}.

(** [time.FixedZone]: every reading exists. *)
Definition FixedZone (name : string) (offset : Z) : Location :=
  {| locName := name;
     locDate := λ year month day hour min sec,
       {| r_year := year; r_month := month; r_day := day;
          r_hour := hour; r_min := min; r_sec := sec; r_offset := offset |} |}.

Definition UTC : Location := FixedZone "UTC" 0.

(** A [time.Time], by its wall-clock reading and offset in its own
    location. *)
Record Time := {
  Year : Z; Month : Z; Day : Z;
  Hour : Z; Minute : Z; Second : Z; Nanosecond : Z;
  Offset : Z;
  Loc : Location
}.

Definition isLeap (year : Z) : bool :=
  (year mod 4 =? 0) && (negb (year mod 100 =? 0) || (year mod 400 =? 0)).

Definition daysIn (m year : Z) : Z :=
  if (m =? 2) && isLeap year then 29
  else if m =? 2 then 28
  else if (m =? 4) || (m =? 6) || (m =? 9) || (m =? 11) then 30
  else 31.

(** The fields a [time.Time] can hold. *)
Definition valid (t : Time) : Prop :=
  1 <= Month t <= 12 ∧ 1 <= Day t <= daysIn (Month t) (Year t) ∧
  0 <= Hour t < 24 ∧ 0 <= Minute t < 60 ∧ 0 <= Second t < 60 ∧
  0 <= Nanosecond t < 1000000000.

(** [time.Date].  Go normalises fields that overflow (October 32 becomes
    November 1); every call of this program passes fields in range (the
    range checks of [parse]), so the overflow arithmetic is not modelled.
    On fields in range the time is the one the zone answers: with exactly
    these fields where the zone has that reading, moved where it skips
    it. *)
Definition Date (year month day hour min sec nsec : Z) (loc : Location) : Time :=
  let r := locDate loc year month day hour min sec in
  {| Year := r_year r; Month := r_month r; Day := r_day r;
     Hour := r_hour r; Minute := r_min r; Second := r_sec r;
     Nanosecond := nsec; Offset := r_offset r;
     Loc := loc |}.

(** Days from 1970-01-01 to the civil date, and [t.Unix()]. *)
Definition days_from_civil (y m d : Z) : Z :=
  let y' := if m <=? 2 then y - 1 else y in
  let era := y' / 400 in
  let yoe := y' - era * 400 in
  let doy := (153 * (if 2 <? m then m - 3 else m + 9) + 2) / 5 + d - 1 in
  let doe := yoe * 365 + yoe / 4 - yoe / 100 + doy in
  era * 146097 + doe - 719468.

Definition Unix (t : Time) : Z :=
  days_from_civil (Year t) (Month t) (Day t) * 86400
  + Hour t * 3600 + Minute t * 60 + Second t - Offset t.

(** [t.Before(u)]. *)
Definition Before (t u : Time) : bool :=
  (Unix t <? Unix u)
  || ((Unix t =? Unix u) && (Nanosecond t <? Nanosecond u)).

(** *** Layout elements ([nextStdChunk]) *)

Inductive std :=
| stdLongMonth | stdMonth | stdNumMonth | stdZeroMonth
| stdLongWeekDay | stdWeekDay
| stdDay | stdUnderDay | stdZeroDay | stdUnderYearDay | stdZeroYearDay
| stdHour | stdHour12 | stdZeroHour12
| stdMinute | stdZeroMinute | stdSecond | stdZeroSecond
| stdLongYear | stdYear
| stdPM | stdpm
| stdTZ
| stdISO8601TZ | stdISO8601SecondsTZ | stdISO8601ShortTZ
| stdISO8601ColonTZ | stdISO8601ColonSecondsTZ
| stdNumTZ | stdNumSecondsTz | stdNumShortTZ
| stdNumColonTZ | stdNumColonSecondsTZ
| stdFracSecond0 (digits : nat) | stdFracSecond9 (digits : nat).

Definition isDigitByte (c : ascii) : bool := (48 <=? code c) && (code c <=? 57).

(** [isDigit(s, i)]. *)
Definition isDigit (s : string) (i : nat) : bool :=
  match String.get i s with
  | Some c => isDigitByte c
  | None => false
  end.

Definition startsWithLowerCase (s : string) : bool :=
  match s with
  | EmptyString => false
  | String c _ => (97 <=? code c) && (code c <=? 122)
  end.

(** The rest of [l] after [pat], when [l] starts with [pat]. *)
Definition after (pat l : string) : option string :=
  if HasPrefix l pat then Some (slice_from (String.length pat) l) else None.

(** The first pattern of the table [l] starts with. *)
Fixpoint first_pattern (table : list (string * std)) (l : string)
  : option (string * std * string) :=
  match table with
  | [] => None
  | (pat, s) :: table' =>
      match after pat l with
      | Some rest => Some (EmptyString, s, rest)
      | None => first_pattern table' l
      end
  end.

(** The run of [ch] at the start of [s]: its length and what follows. *)
Fixpoint run_of (ch : ascii) (s : string) : nat * string :=
  match s with
  | String c s' =>
      if Ascii.eqb c ch then let '(n, r) := run_of ch s' in (S n, r)
      else (O, s)
  | EmptyString => (O, s)
  end.

(** The layout element [l] starts with, if any: the cases of the [switch]
    in [nextStdChunk], in its order.  The first component is the part of the
    element that stays in the literal prefix (the underscore of [_2006]). *)
Definition std_at (l : string) : option (string * std * string) :=
  match l with
  | EmptyString => None
  | String c l1 =>
      if Ascii.eqb c "J" then
        match after "Jan" l with
        | Some r3 =>
            match after "January" l with
            | Some r => Some (EmptyString, stdLongMonth, r)
            | None =>
                if startsWithLowerCase r3 then None
                else Some (EmptyString, stdMonth, r3)
            end
        | None => None
        end
      else if Ascii.eqb c "M" then
        match after "Mon" l with
        | Some r3 =>
            match after "Monday" l with
            | Some r => Some (EmptyString, stdLongWeekDay, r)
            | None =>
                if startsWithLowerCase r3 then None
                else Some (EmptyString, stdWeekDay, r3)
            end
        | None => first_pattern [("MST", stdTZ)] l
        end
      else if Ascii.eqb c "0" then
        first_pattern
          [("01", stdZeroMonth); ("02", stdZeroDay); ("03", stdZeroHour12);
           ("04", stdZeroMinute); ("05", stdZeroSecond); ("06", stdYear);
           ("002", stdZeroYearDay)] l
      else if Ascii.eqb c "1" then
        first_pattern [("15", stdHour); ("1", stdNumMonth)] l
      else if Ascii.eqb c "2" then
        first_pattern [("2006", stdLongYear); ("2", stdDay)] l
      else if Ascii.eqb c "_" then
        match after "_2006" l with
        | Some r => Some ("_", stdLongYear, r)
        | None => first_pattern [("_2", stdUnderDay); ("__2", stdUnderYearDay)] l
        end
      else if Ascii.eqb c "3" then Some (EmptyString, stdHour12, l1)
      else if Ascii.eqb c "4" then Some (EmptyString, stdMinute, l1)
      else if Ascii.eqb c "5" then Some (EmptyString, stdSecond, l1)
      else if Ascii.eqb c "P" then first_pattern [("PM", stdPM)] l
      else if Ascii.eqb c "p" then first_pattern [("pm", stdpm)] l
      else if Ascii.eqb c "-" then
        first_pattern
          [("-070000", stdNumSecondsTz); ("-07:00:00", stdNumColonSecondsTZ);
           ("-0700", stdNumTZ); ("-07:00", stdNumColonTZ);
           ("-07", stdNumShortTZ)] l
      else if Ascii.eqb c "Z" then
        first_pattern
          [("Z070000", stdISO8601SecondsTZ);
           ("Z07:00:00", stdISO8601ColonSecondsTZ);
           ("Z0700", stdISO8601TZ); ("Z07:00", stdISO8601ColonTZ);
           ("Z07", stdISO8601ShortTZ)] l
      else if Ascii.eqb c "." || Ascii.eqb c "," then
        match l1 with
        | String ch _ =>
            if Ascii.eqb ch "0" || Ascii.eqb ch "9" then
              let '(n, r) := run_of ch l1 in
              if isDigit r 0 then None
              else Some (EmptyString,
                         if Ascii.eqb ch "9" then stdFracSecond9 n
                         else stdFracSecond0 n, r)
            else None
        | EmptyString => None
        end
      else None
  end.

(** [nextStdChunk]: the literal prefix, the first layout element ([None] for
    Go's 0, no element left) and the rest of the layout. *)
Fixpoint nextStdChunk (layout : string) : string * option std * string :=
  match std_at layout with
  | Some (keep, s, suffix) => (keep, Some s, suffix)
  | None =>
      match layout with
      | EmptyString => (EmptyString, None, EmptyString)
      | String c rest =>
          let '(prefix, s, suffix) := nextStdChunk rest in
          (String c prefix, s, suffix)
      end
  end.

(** *** Parsing ([time.ParseInLocation]) *)

Definition digit (c : ascii) : Z := code c - 48.

(** [getnum(s, fixed)]: a one- or two-digit number ([fixed]: two digits). *)
Definition getnum (s : string) (fixed : bool) : option (Z * string) :=
  match s with
  | String c1 s1 =>
      if isDigitByte c1 then
        match s1 with
        | String c2 s2 =>
            if isDigitByte c2 then Some (digit c1 * 10 + digit c2, s2)
            else if fixed then None else Some (digit c1, s1)
        | EmptyString => if fixed then None else Some (digit c1, s1)
        end
      else None
  | EmptyString => None
  end.

(** [atoi] on the four bytes of a long year: all of them are digits (the
    caller has checked that the first one is, so there is no sign). *)
Definition atoi4 (value : string) : option (Z * string) :=
  match value with
  | String a (String b (String c (String d rest))) =>
      if isDigitByte a && isDigitByte b && isDigitByte c && isDigitByte d
      then Some (((digit a * 10 + digit b) * 10 + digit c) * 10 + digit d, rest)
      else None
  | _ => None
  end.

Fixpoint cutspace (s : string) : string :=
  match s with
  | String c s' => if Ascii.eqb c " " then cutspace s' else s
  | EmptyString => s
  end.

(** [skip(value, prefix)]: removes the literal [prefix] from [value]; a run
    of spaces in the prefix matches a run of spaces, or the end, of the
    value. *)
Fixpoint skip_loop (fuel : nat) (value prefix : string) : option string :=
  match prefix with
  | EmptyString => Some value
  | String p prefix' =>
      match fuel with
      | O => None
      | S fuel' =>
          if Ascii.eqb p " " then
            match value with
            | String v _ =>
                if Ascii.eqb v " "
                then skip_loop fuel' (cutspace value) (cutspace prefix)
                else None
            | EmptyString => skip_loop fuel' (cutspace value) (cutspace prefix)
            end
          else
            match value with
            | String v value' =>
                if Ascii.eqb v p then skip_loop fuel' value' prefix' else None
            | EmptyString => None
            end
      end
  end.

Definition skip (value prefix : string) : option string :=
  skip_loop (String.length prefix) value prefix.

(** [match(s1, s2)]: equal up to the case of ASCII letters; the strings have
    the same length. *)
Definition matchByte (c1 c2 : ascii) : bool :=
  Ascii.eqb c1 c2
  || ((Z.lor (code c1) 32 =? Z.lor (code c2) 32)
      && (97 <=? Z.lor (code c1) 32) && (Z.lor (code c1) 32 <=? 122)).

Fixpoint match_fold (s1 s2 : string) : bool :=
  match s1, s2 with
  | String c1 r1, String c2 r2 => matchByte c1 c2 && match_fold r1 r2
  | _, _ => true
  end.

(** [lookup(tab, val)]: the index of the first name of [tab] that [val]
    starts with, and the rest of [val]. *)
Fixpoint lookup_from (i : Z) (tab : list string) (val : string)
  : option (Z * string) :=
  match tab with
  | [] => None
  | v :: tab' =>
      if (String.length v <=? String.length val)%nat
         && match_fold (String.substring 0 (String.length v) val) v
      then Some (i, slice_from (String.length v) val)
      else lookup_from (i + 1) tab' val
  end.

Definition lookup (tab : list string) (val : string) : option (Z * string) :=
  lookup_from 0 tab val.

Definition longMonthNames : list string :=
  ["January"; "February"; "March"; "April"; "May"; "June"; "July";
   "August"; "September"; "October"; "November"; "December"].

Definition shortMonthNames : list string :=
  ["Jan"; "Feb"; "Mar"; "Apr"; "May"; "Jun"; "Jul"; "Aug"; "Sep"; "Oct";
   "Nov"; "Dec"].

(** The time being constructed by [parse]. *)
Record fields := {
  f_year : Z; f_month : Z; f_day : Z; f_hour : Z; f_min : Z;
  f_pmSet : bool; f_amSet : bool
}.

Definition fields0 : fields :=
  {| f_year := 0; f_month := -1; f_day := -1; f_hour := 0; f_min := 0;
     f_pmSet := false; f_amSet := false |}.

(** One layout element read off the value: the cases of the [switch] in
    [parse], with its range checks.  The elements none of this program's
    layouts contain (week days, seconds, two-digit years, day of the year,
    zones) are recognised by [nextStdChunk] but not read: the model answers
    [None] for a layout with one of them. *)
Definition parse_std (s : std) (value : string) (f : fields)
  : option (string * fields) :=
  match s with
  | stdLongYear =>
      if (String.length value <? 4)%nat || negb (isDigit value 0) then None
      else '(year, value) ← atoi4 value;
           Some (value, {| f_year := year; f_month := f_month f; f_day := f_day f;
                           f_hour := f_hour f; f_min := f_min f;
                           f_pmSet := f_pmSet f; f_amSet := f_amSet f |})
  | stdMonth | stdLongMonth =>
      '(i, value) ← lookup (match s with stdMonth => shortMonthNames
                                       | _ => longMonthNames end) value;
      Some (value, {| f_year := f_year f; f_month := i + 1; f_day := f_day f;
                      f_hour := f_hour f; f_min := f_min f;
                      f_pmSet := f_pmSet f; f_amSet := f_amSet f |})
  | stdNumMonth | stdZeroMonth =>
      '(month, value) ← getnum value (match s with stdZeroMonth => true
                                                  | _ => false end);
      if (month <=? 0) || (12 <? month) then None
      else Some (value, {| f_year := f_year f; f_month := month; f_day := f_day f;
                           f_hour := f_hour f; f_min := f_min f;
                           f_pmSet := f_pmSet f; f_amSet := f_amSet f |})
  | stdDay | stdUnderDay | stdZeroDay =>
      let value :=
        match s, value with
        | stdUnderDay, String c value' =>
            if Ascii.eqb c " " then value' else value
        | _, _ => value
        end in
      '(day, value) ← getnum value (match s with stdZeroDay => true
                                                | _ => false end);
      Some (value, {| f_year := f_year f; f_month := f_month f; f_day := day;
                      f_hour := f_hour f; f_min := f_min f;
                      f_pmSet := f_pmSet f; f_amSet := f_amSet f |})
  | stdHour =>
      '(hour, value) ← getnum value false;
      if (hour <? 0) || (24 <=? hour) then None
      else Some (value, {| f_year := f_year f; f_month := f_month f; f_day := f_day f;
                           f_hour := hour; f_min := f_min f;
                           f_pmSet := f_pmSet f; f_amSet := f_amSet f |})
  | stdHour12 | stdZeroHour12 =>
      '(hour, value) ← getnum value (match s with stdZeroHour12 => true
                                                 | _ => false end);
      if (hour <? 0) || (12 <? hour) then None
      else Some (value, {| f_year := f_year f; f_month := f_month f; f_day := f_day f;
                           f_hour := hour; f_min := f_min f;
                           f_pmSet := f_pmSet f; f_amSet := f_amSet f |})
  | stdMinute | stdZeroMinute =>
      '(min, value) ← getnum value (match s with stdZeroMinute => true
                                                | _ => false end);
      if (min <? 0) || (60 <=? min) then None
      else Some (value, {| f_year := f_year f; f_month := f_month f; f_day := f_day f;
                           f_hour := f_hour f; f_min := min;
                           f_pmSet := f_pmSet f; f_amSet := f_amSet f |})
  | stdPM | stdpm =>
      if (String.length value <? 2)%nat then None
      else
        let p := String.substring 0 2 value in
        let value := slice_from 2 value in
        let '(pm, am) := match s with stdPM => ("PM", "AM") | _ => ("pm", "am") end in
        if String.eqb p pm
        then Some (value, {| f_year := f_year f; f_month := f_month f; f_day := f_day f;
                             f_hour := f_hour f; f_min := f_min f;
                             f_pmSet := true; f_amSet := f_amSet f |})
        else if String.eqb p am
        then Some (value, {| f_year := f_year f; f_month := f_month f; f_day := f_day f;
                             f_hour := f_hour f; f_min := f_min f;
                             f_pmSet := f_pmSet f; f_amSet := true |})
        else None
  | _ => None
  end.

(** The loop of [parse]: one layout element per iteration.  Every iteration
    shortens the layout, so its length bounds the number of iterations. *)
Fixpoint parse_loop (fuel : nat) (layout value : string) (f : fields)
  : option fields :=
  match fuel with
  | O => None
  | S fuel' =>
      let '(prefix, s, suffix) := nextStdChunk layout in
      value ← skip value prefix;
      match s with
      | None => if (String.length value =? 0)%nat then Some f else None
      | Some s =>
          '(value, f) ← parse_std s value f;
          parse_loop fuel' suffix value f
      end
  end.

(** The loop of [parse] on a layout whose elements are known: [stage] is
    one iteration, [finish] the last one, where no element is left, and
    [run] the iterations for a list of literal prefixes and elements. *)
Definition stage (prefix : string) (s : std)
    (k : string → fields → option fields) (value : string) (f : fields)
  : option fields :=
  value ← skip value prefix;
  '(value, f) ← parse_std s value f;
  k value f.

Definition finish (prefix : string) (value : string) (f : fields)
  : option fields :=
  value ← skip value prefix;
  if (String.length value =? 0)%nat then Some f else None.

Fixpoint run (chunks : list (string * std))
    (k : string → fields → option fields) (value : string) (f : fields)
  : option fields :=
  match chunks with
  | [] => k value f
  | (prefix, s) :: chunks' => stage prefix s (run chunks' k) value f
  end.

(** [time.ParseInLocation(layout, value, loc)]; [None] stands for an
    error. *)
Definition ParseInLocation (layout value : string) (loc : Location)
  : option Time :=
  f ← parse_loop (S (String.length layout)) layout value fields0;
  let hour :=
    if f_pmSet f && (f_hour f <? 12) then f_hour f + 12
    else if f_amSet f && (f_hour f =? 12) then 0
    else f_hour f in
  let month := if f_month f <? 0 then 1 else f_month f in
  let day := if f_day f <? 0 then 1 else f_day f in
  if (day <? 1) || (daysIn month (f_year f) <? day) then None
  else Some (Date (f_year f) month day hour (f_min f) 0 0 loc).

End time.

(** *** Serialisation ([Time.MarshalText], RFC 3339) *)

Module rfc3339.
Import strings time.

Definition digit_char (d : Z) : ascii := byte (Z.to_nat (48 + d mod 10)).

(** [n] written with [width] decimal digits (the low ones). *)
Fixpoint pad (width : nat) (n : Z) : string :=
  match width with
  | O => EmptyString
  | S w => pad w (n / 10) +:+ String (digit_char n) EmptyString
  end.

(** The fraction of a second: nothing for zero nanoseconds, otherwise a
    period and the nine digits without their trailing zeros. *)
Fixpoint fraction (digits : nat) (nsec : Z) : string :=
  match digits with
  | O => EmptyString
  | S d =>
      if nsec mod 10 =? 0 then fraction d (nsec / 10)
      else "." +:+ pad digits nsec
  end.

(** [t.MarshalText()]: the time in the layout
    [2006-01-02T15:04:05.999999999Z07:00]; an error for a year outside
    0..9999 or a zone offset of 24 hours or more. *)
Definition MarshalText (t : Time) : option string :=
  let zone := Z.quot (Offset t) 60 in
  if (Year t <? 0) || (9999 <? Year t) then None
  else if 24 <=? Z.abs zone / 60 then None
  else Some
    (pad 4 (Year t) +:+ "-" +:+ pad 2 (Month t) +:+ "-" +:+ pad 2 (Day t)
     +:+ "T" +:+ pad 2 (Hour t) +:+ ":" +:+ pad 2 (Minute t)
     +:+ ":" +:+ pad 2 (Second t) +:+ fraction 9 (Nanosecond t)
     +:+ (if Offset t =? 0 then "Z"
          else (if zone <? 0 then "-" else "+")
               +:+ pad 2 (Z.abs zone / 60) +:+ ":" +:+ pad 2 (Z.abs zone mod 60))).

End rfc3339.

(** ** [crypto/sha256] and [encoding/hex] *)

Module sha256.
Import strings.

Definition w32 (x : Z) : Z := x mod 4294967296.
Definition add32 (x y : Z) : Z := w32 (x + y).
Definition rotr (n x : Z) : Z :=
  Z.lor (Z.shiftr x n) (w32 (Z.shiftl x (32 - n))).
Definition Ch (x y z : Z) : Z :=
  Z.lxor (Z.land x y) (Z.land (Z.lxor x 4294967295) z).
Definition Maj (x y z : Z) : Z :=
  Z.lxor (Z.lxor (Z.land x y) (Z.land x z)) (Z.land y z).
Definition bsig0 (x : Z) : Z := Z.lxor (Z.lxor (rotr 2 x) (rotr 13 x)) (rotr 22 x).
Definition bsig1 (x : Z) : Z := Z.lxor (Z.lxor (rotr 6 x) (rotr 11 x)) (rotr 25 x).
Definition ssig0 (x : Z) : Z := Z.lxor (Z.lxor (rotr 7 x) (rotr 18 x)) (Z.shiftr x 3).
Definition ssig1 (x : Z) : Z := Z.lxor (Z.lxor (rotr 17 x) (rotr 19 x)) (Z.shiftr x 10).

(** The first 32 bits of the fractional parts of the cube roots (for [K])
    and of the square roots (for [H0]) of the first primes. *)
Definition K : list Z :=
  [
   1116352408; 1899447441; 3049323471; 3921009573;
   961987163; 1508970993; 2453635748; 2870763221;
   3624381080; 310598401; 607225278; 1426881987;
   1925078388; 2162078206; 2614888103; 3248222580;
   3835390401; 4022224774; 264347078; 604807628;
   770255983; 1249150122; 1555081692; 1996064986;
   2554220882; 2821834349; 2952996808; 3210313671;
   3336571891; 3584528711; 113926993; 338241895;
   666307205; 773529912; 1294757372; 1396182291;
   1695183700; 1986661051; 2177026350; 2456956037;
   2730485921; 2820302411; 3259730800; 3345764771;
   3516065817; 3600352804; 4094571909; 275423344;
   430227734; 506948616; 659060556; 883997877;
   958139571; 1322822218; 1537002063; 1747873779;
   1955562222; 2024104815; 2227730452; 2361852424;
   2428436474; 2756734187; 3204031479; 3329325298 ].

Definition H0 : list Z :=
  [
   1779033703; 3144134277; 1013904242; 2773480762;
   1359893119; 2600822924; 528734635; 1541459225 ].

Definition bytes_of (s : string) : list Z :=
  code <$> String.list_ascii_of_string s.

(** [n] as [width] big-endian bytes. *)
Fixpoint be_bytes (width : nat) (n : Z) : list Z :=
  match width with
  | O => []
  | S w => be_bytes w (n / 256) ++ [n mod 256]
  end.

Definition padding (len : nat) : list Z :=
  128 :: replicate ((55 + 64 - len mod 64) mod 64) 0
      ++ be_bytes 8 (Z.of_nat len * 8).

Fixpoint words (bs : list Z) : list Z :=
  match bs with
  | a :: b :: c :: d :: rest =>
      (((a * 256 + b) * 256 + c) * 256 + d) :: words rest
  | _ => []
  end.

(** The message schedule, latest word first. *)
Fixpoint schedule (n : nat) (rev_w : list Z) : list Z :=
  match n with
  | O => rev_w
  | S n' =>
      let w := add32 (add32 (ssig1 (nth 1 rev_w 0)) (nth 6 rev_w 0))
                     (add32 (ssig0 (nth 14 rev_w 0)) (nth 15 rev_w 0)) in
      schedule n' (w :: rev_w)
  end.

Definition round (st : list Z) (kw : Z * Z) : list Z :=
  match st with
  | [a; b; c; d; e; f; g; h] =>
      let t1 := add32 (add32 (add32 h (bsig1 e)) (Ch e f g))
                      (add32 (fst kw) (snd kw)) in
      let t2 := add32 (bsig0 a) (Maj a b c) in
      [add32 t1 t2; a; b; c; add32 d t1; e; f; g]
  | _ => st
  end.

Definition compress (h : list Z) (block : list Z) : list Z :=
  let w := rev (schedule 48 (rev (words block))) in
  zip_with add32 h (fold_left round (zip K w) h).

Fixpoint blocks (n : nat) (h : list Z) (bs : list Z) : list Z :=
  match n with
  | O => h
  | S n' => blocks n' (compress h (take 64 bs)) (drop 64 bs)
  end.

(** [sha256.Sum256]: the 32 bytes of the digest. *)
Definition Sum256 (data : string) : list Z :=
  let bs := bytes_of data ++ padding (String.length data) in
  mjoin (be_bytes 4 <$> blocks (length bs / 64) H0 bs).

End sha256.

Module hex.
Import strings.

Definition hexdigit (n : Z) : ascii :=
  byte (Z.to_nat (if n <? 10 then 48 + n else 87 + n)).

(** [hex.EncodeToString]. *)
Fixpoint EncodeToString (src : list Z) : string :=
  match src with
  | [] => EmptyString
  | b :: rest =>
      String (hexdigit (b / 16)) (String (hexdigit (b mod 16)) (EncodeToString rest))
  end.

End hex.

(** ** Package [notion_ical]: errors *)

(** The errors the package returns: its sentinel errors, alone or wrapped by
    [fmt.Errorf] with the data of the message, and the failures of its
    collaborators (an opaque text). *)
Inductive error :=
| ErrParseDate (d : string)
    (* "%w: %s is not a valid date", ErrParseDate, d *)
| ErrNoDateProperty
| ErrNoDatePropertyIn (property : string) (propertyNames : list string)
    (* "%w: %s not in %v", ErrNoDateProperty, ... *)
| ErrNoHidePropertyIn (property : string) (propertyNames : list string)
| ErrNoTitleProperty
| ErrCSVReadOpen (cause : string)       (* "%w: failed open: %w" *)
| ErrCSVReadHeaders (cause : string)    (* "%w: headers: %v" *)
| ErrCSVReadRecord (cause : string)     (* "%w: %v" *)
| ErrCSVReadLength                      (* unmatching header and record length *)
| ErrFileSize (cause : string)          (* unable to obtain file size *)
| ErrOpenZIP (cause : string)           (* unable to open ZIP file *)
| ErrNoCSVFile                          (* cannot find CSV file in ZIP file *)
| ErrMarshalText
| ErrClient (cause : string)
| ErrFetchBlock (id : string) (cause : string)
| ErrFetchChildren (id : string) (cursor : string) (cause : string).

Abbreviation result := (outcome error).

(** A collaborator's answer: a value or an error text. *)
Abbreviation reply A := (string + A)%type.

(** ** The date-range parser *)

Import strings time.

(** The separator of a range, U+2192. *)
Definition arrow : string :=
  String (byte 226) (String (byte 134) (String (byte 146) EmptyString)).

Definition notionTimeFormats : list string := ["15:04"; "3:00 PM"].
Definition notionDateFormats : list string := ["January 2, 2006"; "2006/01/02"].

(** The first layout of the list that parses [d]. *)
Fixpoint firstParse (layouts : list string) (d : string) (zone : Location)
  : option Time :=
  match layouts with
  | [] => None
  | f :: layouts' =>
      match ParseInLocation f d zone with
      | Some t => Some t
      | None => firstParse layouts' d zone
      end
  end.

(** The layouts of the two nested loops of [parseNotionDate], in the order
    the loops try them. *)
Definition notionDateLayouts : list string :=
  fd ← notionDateFormats; ft ← notionTimeFormats; [fd +:+ " " +:+ ft].

Definition parseNotionDate (d : string) (zone : Location) : result Time :=
  let d := TrimSpace d in
  match firstParse notionDateLayouts d zone with
  | Some t => Ok t
  | None => Err (ErrParseDate d)
  end.

Definition parseNotionTime (d : string) (zone : Location) : result Time :=
  let d := TrimSpace d in
  match firstParse notionTimeFormats d zone with
  | Some t => Ok t
  | None => Err (ErrParseDate d)
  end.

Definition mergeNotionDateTime (date t : Time) : Time :=
  Date (Year date) (Month date) (Day date) (Hour t) (Minute t) (Second t) 0
       (Loc t).

Definition parseNotionDateRange (r : string) (zone : Location)
  : result (Time * Time) :=
  match SplitN2 r arrow with
  | [] => Panic "index out of range"
  | part0 :: rest =>
      t1 ← parseNotionDate part0 zone;
      match rest with
      | [part1] =>
          match parseNotionDate part1 zone with
          | Ok t2 => Ok (t1, t2)
          | _ =>
              t2 ← parseNotionTime part1 zone;
              Ok (t1, mergeNotionDateTime t1 t2)
          end
      | _ => Ok (t1, t1)
      end
  end.

(** ** The Notion client library ([github.com/dstotijn/go-notion])

    Only the data the package reads.  A Go pointer that may be nil is an
    [option]. *)

Module notion.

Record RichText := { PlainText : string }.

(** [DatabasePropertyType] is a string type; [DBPropTypeOther] stands for
    every value that is none of the library's constants. *)
Inductive DatabasePropertyType :=
| DBPropTypeTitle | DBPropTypeRichText | DBPropTypeNumber | DBPropTypeSelect
| DBPropTypeMultiSelect | DBPropTypeDate | DBPropTypeFormula
| DBPropTypeRelation | DBPropTypeRollup | DBPropTypePeople | DBPropTypeFiles
| DBPropTypeCheckbox | DBPropTypeURL | DBPropTypeEmail
| DBPropTypePhoneNumber | DBPropTypeStatus | DBPropTypeCreatedTime
| DBPropTypeCreatedBy | DBPropTypeLastEditedTime | DBPropTypeLastEditedBy
| DBPropTypeOther (name : string).

(** [DateTime] embeds a [time.Time]. *)
Record DateTime := { dt_Time : Time; dt_hasTime : bool }.

(** [Date]: [Start], and [End], a pointer. *)
Record Date := { date_Start : DateTime; date_End : option DateTime }.

(** A field of the database schema. *)
Record DatabaseProperty := {
  schema_ID : string; schema_Type : DatabasePropertyType; schema_Name : string
}.

(** A field of a page: its type tag, and the members the package reads for
    the title and the date ([Date] is a pointer). *)
Record DatabasePageProperty := {
  prop_ID : string; prop_Type : DatabasePropertyType; prop_Name : string;
  prop_Title : list RichText; prop_Date : option Date
}.

Record Icon := { icon_Emoji : option string }.

(** [Page.Properties] is an [interface{}]: the properties of a page of a
    database, or something else. *)
Inductive PageProps :=
| DatabasePageProperties (m : gmap string DatabasePageProperty)
| OtherPageProperties.

Record Page := {
  page_ID : string; page_URL : string; page_Icon : option Icon;
  page_Properties : PageProps
}.

Record Database := {
  db_ID : string; db_Title : list RichText;
  db_Properties : gmap string DatabaseProperty
}.

(** *** Blocks *)

Inductive FileType := FileTypeFile | FileTypeExternal | FileTypeOther.

(** The three members of a file reference: its type and the two pointers
    (to a [FileFile] and a [FileExternal], each holding a URL). *)
Record FileRef := {
  file_Type : FileType; file_File : option string; file_External : option string
}.

Inductive LinkToPageType :=
| LinkToPageTypePageID | LinkToPageTypeDatabaseID | LinkToPageTypeOther.

(** The dynamic type of a [Block] value with the members the package reads.
    All are pointer types ([*notion.ParagraphBlock], ...) but
    [ChildPageValue], the struct type [notion.ChildPageBlock] itself;
    [OtherBlock] stands for the remaining pointer types of the library. *)
Inductive BlockKind (B : Type) :=
| ParagraphBlock (rt : list RichText)
| Heading1Block (rt : list RichText)
| Heading2Block (rt : list RichText)
| Heading3Block (rt : list RichText)
| BulletedListItemBlock (rt : list RichText)
| NumberedListItemBlock (rt : list RichText)
| ToDoBlock (rt : list RichText) (checked : option bool)
| ToggleBlock (rt : list RichText)
| CalloutBlock (rt : list RichText)
| QuoteBlock (rt : list RichText)
| CodeBlock (rt : list RichText)
| EmbedBlock (url : string)
| ImageBlock (f : FileRef)
| AudioBlock (f : FileRef)
| VideoBlock (f : FileRef)
| FileBlock (f : FileRef)
| PDFBlock (f : FileRef)
| BookmarkBlock (url : string)
| EquationBlock (expression : string)
| DividerBlock
| TableOfContentsBlock
| BreadcrumbBlock
| ColumnListBlock
| ColumnBlock
| TableBlock (children : list B)
| TableRowBlock (cells : list (list RichText))
| LinkPreviewBlock (url : string)
| LinkToPageBlock (t : LinkToPageType) (pageID databaseID : string)
| SyncedBlock (children : list B)
| TemplateBlock (rt : list RichText)
| ChildPageBlock (title : string)
| ChildPageValue (title : string)
| OtherBlock.
Arguments ParagraphBlock {B}. Arguments Heading1Block {B}.
Arguments Heading2Block {B}. Arguments Heading3Block {B}.
Arguments BulletedListItemBlock {B}. Arguments NumberedListItemBlock {B}.
Arguments ToDoBlock {B}. Arguments ToggleBlock {B}. Arguments CalloutBlock {B}.
Arguments QuoteBlock {B}. Arguments CodeBlock {B}. Arguments EmbedBlock {B}.
Arguments ImageBlock {B}. Arguments AudioBlock {B}. Arguments VideoBlock {B}.
Arguments FileBlock {B}. Arguments PDFBlock {B}. Arguments BookmarkBlock {B}.
Arguments EquationBlock {B}. Arguments DividerBlock {B}.
Arguments TableOfContentsBlock {B}. Arguments BreadcrumbBlock {B}.
Arguments ColumnListBlock {B}. Arguments ColumnBlock {B}.
Arguments TableBlock {B}. Arguments TableRowBlock {B}.
Arguments LinkPreviewBlock {B}. Arguments LinkToPageBlock {B}.
Arguments SyncedBlock {B}. Arguments TemplateBlock {B}.
Arguments ChildPageBlock {B}. Arguments ChildPageValue {B}.
Arguments OtherBlock {B}.

(** A [Block]: what [ID()] and [HasChildren()] answer, and its dynamic
    type. *)
#[warnings="-register-all"]
Inductive Block :=
| mkBlock (id : string) (hasChildren : bool) (kind : BlockKind Block).

Definition BlockID (b : Block) : string := let 'mkBlock id _ _ := b in id.
Definition HasChildren (b : Block) : bool := let 'mkBlock _ h _ := b in h.
Definition kind (b : Block) : BlockKind Block := let 'mkBlock _ _ k := b in k.

(** *** Requests and responses *)

Record PaginationQuery := { StartCursor : string; PageSize : Z }.

Record BlockChildrenResponse := {
  Results : list Block; HasMore : bool; NextCursor : option string
}.

(** A checkbox filter [Property does_not_equal b]. *)
Record DatabaseQueryFilter := {
  filter_Property : string; filter_CheckboxDoesNotEqual : option bool
}.

Record DatabaseQuery := {
  query_Filter : option DatabaseQueryFilter;
  query_StartCursor : string; query_PageSize : Z
}.

Record DatabaseQueryResponse := {
  query_Results : list Page; query_HasMore : bool;
  query_NextCursor : option string
}.

(** The four calls of [*notion.Client] the package makes, as the answers of
    the remote service. *)
Record Client := {
  FindDatabaseByID : string → reply Database;
  QueryDatabase : string → DatabaseQuery → reply DatabaseQueryResponse;
  FindBlockByID : string → reply Block;
  FindBlockChildrenByID : string → PaginationQuery → reply BlockChildrenResponse
}.

End notion.

(** ** Ranging over a Go map

    Go leaves the order in which [range] visits a map unspecified, and it may
    differ from one [range] statement to the next.  A [range_order] gives the
    order of one statement; it is [fair] when it visits every entry of the
    map exactly once. *)

Definition range_order (V : Type) : Type := gmap string V → list (string * V).

Definition fair {V} (o : range_order V) : Prop := ∀ m, o m ≡ₚ map_to_list m.

(** ** [event.go] *)

Inductive EventProperty :=
| exportProperty (name value : string)
| apiProperty (p : notion.DatabasePageProperty).

Definition NameString (p : EventProperty) : string :=
  match p with
  | exportProperty name _ => name
  | apiProperty p => notion.prop_Name p
  end.

Record Event := {
  ID : string; Title : string; Emoji : string; URL : string;
  Start : Time; End : Time;
  Content : list string; Properties : list EventProperty
}.

(** ** The snapshot source ([source_export.go]) *)

Module export.

(** The archive's table as [encoding/csv] reads it: the records that
    successive calls of [Read] return, followed by [io.EOF] ([None]) or by
    an error. *)
Record csvFile := { records : list (list string); failure : option string }.

(** The archive once opened ([zip.Reader], used as an [fs.FS]): the names of
    its entries in the order of the directory, and what [Open] answers. *)
Record zipReader := {
  File : list string;
  Open : string → reply csvFile
}.

(** The archive handle: what [Seek(0, io.SeekEnd)] and [zip.NewReader]
    answer. *)
Record ReaderAtSeeker := {
  Seek : reply Z;
  NewReader : Z → reply zipReader
}.

Record ConfigSourceExport := {
  Archive : ReaderAtSeeker;
  Zone : Location;
  DateProperty : string;
  HideProperty : string
}.

Record SourceExport := {
  config : ConfigSourceExport;
  archive : zipReader;
  name : string
}.

(** The loop over [archive.File]: every entry whose name ends in [.csv]
    overwrites [name]. *)
Definition findCSV (files : list string) : string :=
  fold_left (λ name file, if HasSuffix file ".csv" then file else name)
            files EmptyString.

Definition NewSourceExport (config : ConfigSourceExport) : result SourceExport :=
  match Seek (Archive config) with
  | inl err => Err (ErrFileSize err)
  | inr length =>
      match NewReader (Archive config) length with
      | inl err => Err (ErrOpenZIP err)
      | inr archive =>
          let name := findCSV (File archive) in
          if String.eqb name EmptyString then Err ErrNoCSVFile
          else Ok {| config := config; archive := archive; name := name |}
      end
  end.

Definition Name (s : SourceExport) : string := name s.

(** [for i, value := range record { key := headers[i]; m[key] = value }]. *)
Fixpoint fillMap (headers : list string) (i : nat) (record : list string)
    (m : gmap string string) : result (gmap string string) :=
  match record with
  | [] => Ok m
  | value :: record' =>
      match headers !! i with
      | Some key => fillMap headers (S i) record' (<[key := value]> m)
      | None => Panic "index out of range"
      end
  end.

Definition headersAndRecordToMap (headers record : list string)
  : result (gmap string string) :=
  if negb (length headers =? length record)%nat then Err ErrCSVReadLength
  else fillMap headers 0 record ∅.

(** The inner loop of [findFirstColumn]: some name of [names], in lower
    case, stands in relation [test] with the key in lower case. *)
Fixpoint anyName (test : string → string → bool) (keyLower : string)
    (names : list string) : bool :=
  match names with
  | [] => false
  | q :: names' => test keyLower (ToLower q) || anyName test keyLower names'
  end.

(** One of the two loops of [findFirstColumn] over the entries in the order
    [range] visits them. *)
Fixpoint firstEntry (test : string → string → bool) (names : list string)
    (entries : list (string * string)) : option (string * string) :=
  match entries with
  | [] => None
  | (key, value) :: entries' =>
      if anyName test (ToLower key) names then Some (key, value)
      else firstEntry test names entries'
  end.

(** [findFirstColumn(names, m)]; [exact] and [partial] are the orders in
    which its two [range] statements visit [m]. *)
Definition findFirstColumn (names : list string)
    (exact partial : list (string * string)) : string * string :=
  match firstEntry String.eqb names exact with
  | Some kv => kv
  | None =>
      match firstEntry Contains names partial with
      | Some kv => kv
      | None => (EmptyString, EmptyString)
      end
  end.

(** The four [range] statements over the map of one row. *)
Inductive site := DateExact | DatePartial | TitleExact | TitlePartial.

(** The date column of a row (the [if] on [s.config.DateProperty]). *)
Definition dateColumn (o : site → range_order string) (s : SourceExport)
    (m : gmap string string) : result (string * string) :=
  if String.eqb (DateProperty (config s)) EmptyString then
    let '(dateKey, date) :=
      findFirstColumn ["date"; "when"; "period"]
                      (o DateExact m) (o DatePartial m) in
    if String.eqb dateKey EmptyString then Err ErrNoDateProperty
    else Ok (dateKey, date)
  else
    let dateKey := DateProperty (config s) in
    match m !! dateKey with
    | Some date => Ok (dateKey, date)
    | None => Err ErrNoDateProperty
    end.

(** The loop that generates the properties list. *)
Fixpoint propertiesLoop (dateKey titleKey : string) (i : nat)
    (headers record : list string) (properties : list EventProperty)
  : result (list EventProperty) :=
  match headers with
  | [] => Ok properties
  | key :: headers' =>
      if String.eqb key dateKey || String.eqb key titleKey
      then propertiesLoop dateKey titleKey (S i) headers' record properties
      else
        match record !! i with
        | Some value =>
            propertiesLoop dateKey titleKey (S i) headers' record
                           (properties ++ [exportProperty key value])
        | None => Panic "index out of range"
        end
  end.

(** The ID of an event: the hash of the title and the serialised start, in
    hexadecimal, and the tag of the source. *)
Definition exportID (title : string) (start : Time) : result string :=
  match rfc3339.MarshalText start with
  | None => Err ErrMarshalText
  | Some dateBytes =>
      let idBytes := title +:+ dateBytes in
      let titleHash := sha256.Sum256 idBytes in
      let titleHashHex := hex.EncodeToString titleHash in
      Ok (titleHashHex +:+ "@notion-ical-export")
  end.

Definition eventFromCSVRow (o : site → range_order string) (s : SourceExport)
    (headers record : list string) : result Event :=
  m ← headersAndRecordToMap headers record;
  '(dateKey, date) ← dateColumn o s m;
  '(start, end_) ← parseNotionDateRange date (Zone (config s));
  let '(titleKey, title) :=
    findFirstColumn ["name"; "title"] (o TitleExact m) (o TitlePartial m) in
  if String.eqb titleKey EmptyString then Err ErrNoTitleProperty
  else
    properties ← propertiesLoop dateKey titleKey 0 headers record [];
    id ← exportID title start;
    Ok {| ID := id; Title := title; Emoji := EmptyString; URL := EmptyString;
          Start := start; End := end_;
          Content := []; Properties := properties |}.

(** The loop of [ReadAll] over the records after the headers; [i] counts the
    rows, and [o i] gives the orders of the [range] statements of row [i]. *)
Fixpoint readRows (o : nat → site → range_order string) (s : SourceExport)
    (headers : list string) (i : nat) (rows : list (list string))
    (failure : option string) (events : list Event) : result (list Event) :=
  match rows with
  | [] =>
      match failure with
      | None => Ok events
      | Some err => Err (ErrCSVReadRecord err)
      end
  | record :: rows' =>
      event ← eventFromCSVRow (o i) s headers record;
      readRows o s headers (S i) rows' failure (events ++ [event])
  end.

Definition ReadAll (o : nat → site → range_order string) (s : SourceExport)
  : result (list Event) :=
  match Open (archive s) (name s) with
  | inl err => Err (ErrCSVReadOpen err)
  | inr f =>
      match records f with
      | [] =>
          Err (ErrCSVReadHeaders
                 (match failure f with None => "EOF" | Some err => err end))
      | headers :: rows => readRows o s headers 0 rows (failure f) []
      end
  end.

End export.

(** ** The live source ([source_api.go]) *)

Module api.
Import notion.

Record ConfigSourceAPI := {
  APIKey : string;
  DatabaseID : string;
  DateProperty : string;
  HideProperty : string
}.

Record SourceAPI := {
  config : ConfigSourceAPI;
  client : Client;
  database : Database
}.

Definition newline : string := String (byte 10) EmptyString.

Definition richTextToString (rt : list RichText) : string :=
  Join (PlainText <$> rt) EmptyString.

(** [fileToString(t, f, e)]: [f] and [e] are pointers, dereferenced when
    [t] names them. *)
Definition fileToString (f : FileRef) : result string :=
  match file_Type f with
  | FileTypeFile =>
      match file_File f with
      | Some url => Ok url
      | None => Panic "nil pointer dereference"
      end
  | FileTypeExternal =>
      match file_External f with
      | Some url => Ok url
      | None => Panic "nil pointer dereference"
      end
  | FileTypeOther => Ok EmptyString
  end.

Fixpoint convertBlockContentPlain (block : Block) : result string :=
  let 'mkBlock _ _ k := block in
  match k with
  | ParagraphBlock rt => Ok (richTextToString rt)
  | Heading1Block rt => Ok ("# " +:+ richTextToString rt)
  | Heading2Block rt => Ok ("## " +:+ richTextToString rt)
  | Heading3Block rt => Ok ("### " +:+ richTextToString rt)
  | BulletedListItemBlock rt => Ok ("- " +:+ richTextToString rt)
  | NumberedListItemBlock rt => Ok ("* " +:+ richTextToString rt)
  | ToDoBlock rt checked =>
      let prefix := match checked with Some true => "[x] " | _ => "[ ] " end in
      Ok (prefix +:+ richTextToString rt)
  | ToggleBlock rt => Ok ("^ " +:+ richTextToString rt)
  | CalloutBlock rt => Ok ("! " +:+ richTextToString rt)
  | QuoteBlock rt => Ok ("> " +:+ richTextToString rt)
  | CodeBlock rt =>
      Ok ("```" +:+ newline +:+ richTextToString rt +:+ newline +:+ "```")
  | EmbedBlock url => Ok ("Embed: " +:+ url)
  | ImageBlock f => u ← fileToString f; Ok ("Image: " +:+ u)
  | AudioBlock f => u ← fileToString f; Ok ("Audio: " +:+ u)
  | VideoBlock f => u ← fileToString f; Ok ("Video: " +:+ u)
  | FileBlock f => u ← fileToString f; Ok ("File: " +:+ u)
  | PDFBlock f => u ← fileToString f; Ok ("PDF: " +:+ u)
  | BookmarkBlock url => Ok ("Bookmark: " +:+ url)
  | EquationBlock expression => Ok ("Expression: " +:+ expression)
  | DividerBlock => Ok "--------------------------"
  | TableOfContentsBlock => Ok EmptyString
  | BreadcrumbBlock => Ok EmptyString
  | ColumnListBlock => Ok EmptyString
  | ColumnBlock => Ok EmptyString
  | TableBlock children =>
      st ← (fix each (bs : list Block) : result (list string) :=
              match bs with
              | [] => Ok []
              | b :: bs' =>
                  x ← convertBlockContentPlain b; xs ← each bs'; Ok (x :: xs)
              end) children;
      Ok (Join st newline)
  | TableRowBlock cells => Ok (Join (richTextToString <$> cells) ", ")
  | LinkPreviewBlock url => Ok ("Preview: " +:+ url)
  | LinkToPageBlock t pageID databaseID =>
      match t with
      | LinkToPageTypePageID => Ok ("Link: " +:+ pageID)
      | LinkToPageTypeDatabaseID => Ok ("Link: " +:+ databaseID)
      | LinkToPageTypeOther => Ok EmptyString
      end
  | SyncedBlock children =>
      sy ← (fix each (bs : list Block) : result (list string) :=
              match bs with
              | [] => Ok []
              | b :: bs' =>
                  x ← convertBlockContentPlain b; xs ← each bs'; Ok (x :: xs)
              end) children;
      Ok (Join sy (newline +:+ newline))
  | TemplateBlock rt => Ok ("Template: " +:+ richTextToString rt)
  | ChildPageBlock _ | ChildPageValue _ | OtherBlock => Ok EmptyString
  end.

(** The loop over the blocks of one response: the line of each block, then,
    when it has children, the lines [children] gives for its ID. *)
Fixpoint blocksLoop (children : string → result (list string))
    (blocks : list Block) (content : list string) : result (list string) :=
  match blocks with
  | [] => Ok content
  | block :: blocks' =>
      line ← convertBlockContentPlain block;
      let content := content ++ [line] in
      if HasChildren block then
        childrenContent ← children (BlockID block);
        blocksLoop children blocks' (content ++ childrenContent)
      else blocksLoop children blocks' content
  end.

(** The [for] loop of [getBlockChildrenContentPlain] from the state
    ([query], [content]) on.  [fuel] bounds the calls of the client: each
    iteration of the loop and each recursive call takes one. *)
Fixpoint childrenLoop (fuel : nat) (s : SourceAPI) (id : string)
    (query : PaginationQuery) (content : list string) : result (list string) :=
  match fuel with
  | O => Diverge
  | S fuel' =>
      match FindBlockChildrenByID (client s) id query with
      | inl err => Err (ErrFetchChildren id (StartCursor query) err)
      | inr response =>
          content ← blocksLoop
            (λ id', childrenLoop fuel' s id'
                      {| StartCursor := EmptyString; PageSize := 100 |} [])
            (Results response) content;
          if HasMore response then
            match NextCursor response with
            | Some cursor =>
                childrenLoop fuel' s id
                  {| StartCursor := cursor; PageSize := PageSize query |}
                  content
            | None => Panic "nil pointer dereference"
            end
          else Ok content
      end
  end.

Definition getBlockChildrenContentPlain (fuel : nat) (s : SourceAPI)
    (id : string) : result (list string) :=
  childrenLoop fuel s id {| StartCursor := EmptyString; PageSize := 100 |} [].

Definition getPageContentPlain (fuel : nat) (s : SourceAPI) (id : string)
  : result (list string) :=
  match FindBlockByID (client s) id with
  | inl err => Err (ErrFetchBlock id err)
  | inr block =>
      content ← match kind block with
                 | ChildPageValue _ => Ok []
                 | _ => line ← convertBlockContentPlain block; Ok [line]
                 end;
      if HasChildren block then
        childrenContent ← getBlockChildrenContentPlain fuel s id;
        Ok (content ++ childrenContent)
      else Ok content
  end.

(** The loop of [NewSourceAPI] over the schema: the number of date fields
    and of hide fields that match, and the names seen. *)
Definition countProperty (config : ConfigSourceAPI)
    (acc : Z * Z * list string) (entry : string * DatabaseProperty)
  : Z * Z * list string :=
  let '(datePropertyMatches, hidePropertyMatches, propertyNames) := acc in
  let '(name, property) := entry in
  let propertyNames := propertyNames ++ [name] in
  match schema_Type property with
  | DBPropTypeDate =>
      if String.eqb (DateProperty config) EmptyString
      then (datePropertyMatches + 1, hidePropertyMatches, propertyNames)
      else if String.eqb name (DateProperty config)
      then (datePropertyMatches + 1, hidePropertyMatches, propertyNames)
      else (datePropertyMatches, hidePropertyMatches, propertyNames)
  | DBPropTypeCheckbox =>
      if String.eqb (HideProperty config) EmptyString
      then (datePropertyMatches, hidePropertyMatches, propertyNames)
      else if String.eqb name (HideProperty config)
      then (datePropertyMatches, hidePropertyMatches + 1, propertyNames)
      else (datePropertyMatches, hidePropertyMatches, propertyNames)
  | _ => (datePropertyMatches, hidePropertyMatches, propertyNames)
  end.

(** [NewSourceAPI]; [client] is the client of [config.APIKey], and [o] the
    order in which the schema is visited. *)
Definition NewSourceAPI (client : Client) (o : range_order DatabaseProperty)
    (config : ConfigSourceAPI) : result SourceAPI :=
  match FindDatabaseByID client (DatabaseID config) with
  | inl err => Err (ErrClient err)
  | inr database =>
      let '(datePropertyMatches, hidePropertyMatches, propertyNames) :=
        fold_left (countProperty config) (o (db_Properties database))
                  (0, 0, []) in
      if negb (datePropertyMatches =? 1)
      then Err (ErrNoDatePropertyIn (DateProperty config) propertyNames)
      else if negb (String.eqb (HideProperty config) EmptyString)
              && negb (hidePropertyMatches =? 1)
      then Err (ErrNoHidePropertyIn (DateProperty config) propertyNames)
      else Ok {| config := config; client := client; database := database |}
  end.

Definition Name (s : SourceAPI) : string := richTextToString (db_Title (database s)).

(** [sort.Slice] by insertion, as the standard library sorts a short slice
    (for a longer one it may order elements that compare equal
    differently). *)
Fixpoint insertSorted {A} (less : A → A → bool) (x : A) (l : list A) : list A :=
  match l with
  | [] => [x]
  | y :: l' => if less x y then x :: l else y :: insertSorted less x l'
  end.

Definition sortSlice {A} (less : A → A → bool) (l : list A) : list A :=
  fold_left (λ sorted x, insertSorted less x sorted) l [].

Definition lessByName (p q : EventProperty) : bool :=
  Less (NameString p) (NameString q).

(** The zero [time.Time]. *)
Definition zeroTime : Time := time.Date 1 1 1 0 0 0 0 UTC.

(** What the loop of [eventFromPage] carries from one field to the next. *)
Record pageState := {
  st_title : string; st_start : Time; st_end : Time;
  st_propertiesList : list EventProperty
}.

(** One iteration of the loop of [eventFromPage]. *)
Definition pageProperty (s : SourceAPI) (st : pageState)
    (entry : string * DatabasePageProperty) : result pageState :=
  let '(name, property) := entry in
  let append :=
    let property :=
      if String.eqb (prop_Name property) EmptyString
      then {| prop_ID := prop_ID property; prop_Type := prop_Type property;
              prop_Name := name; prop_Title := prop_Title property;
              prop_Date := prop_Date property |}
      else property in
    Ok {| st_title := st_title st; st_start := st_start st;
          st_end := st_end st;
          st_propertiesList := st_propertiesList st ++ [apiProperty property] |} in
  let setDate :=
    match prop_Date property with
    | None => Panic "nil pointer dereference"
    | Some date =>
        match date_End date with
        | None => Panic "nil pointer dereference"
        | Some end_ =>
            Ok {| st_title := st_title st;
                  st_start := dt_Time (date_Start date);
                  st_end := dt_Time end_;
                  st_propertiesList := st_propertiesList st |}
        end
    end in
  match prop_Type property with
  | DBPropTypeTitle =>
      Ok {| st_title := richTextToString (prop_Title property);
            st_start := st_start st; st_end := st_end st;
            st_propertiesList := st_propertiesList st |}
  | DBPropTypeDate =>
      if String.eqb (DateProperty (config s)) EmptyString then setDate
      else if String.eqb name (DateProperty (config s)) then setDate
      else append
  | DBPropTypeRelation => Ok st
  | _ => append
  end.

Fixpoint pagePropertiesLoop (s : SourceAPI) (st : pageState)
    (entries : list (string * DatabasePageProperty)) : result pageState :=
  match entries with
  | [] => Ok st
  | entry :: entries' =>
      st ← pageProperty s st entry; pagePropertiesLoop s st entries'
  end.

(** [eventFromPage]; [o] is the order in which the fields of the page are
    visited, [fuel] bounds the calls that fetch the content. *)
Definition eventFromPage (fuel : nat) (o : range_order DatabasePageProperty)
    (s : SourceAPI) (page : Page) : result Event :=
  let emoji :=
    match page_Icon page with
    | Some {| icon_Emoji := Some emoji |} => emoji
    | _ => EmptyString
    end in
  match page_Properties page with
  | OtherPageProperties => Panic "interface conversion"
  | DatabasePageProperties properties =>
      st ← pagePropertiesLoop s
             {| st_title := EmptyString; st_start := zeroTime;
                st_end := zeroTime; st_propertiesList := [] |}
             (o properties);
      let propertiesList := sortSlice lessByName (st_propertiesList st) in
      content ← getPageContentPlain fuel s (page_ID page);
      Ok {| ID := page_ID page +:+ "@notion-ical";
            Title := st_title st; Emoji := emoji; URL := page_URL page;
            Start := st_start st; End := st_end st;
            Properties := propertiesList; Content := content |}
  end.

Definition filter (s : SourceAPI) : option DatabaseQueryFilter :=
  if String.eqb (HideProperty (config s)) EmptyString then None
  else Some {| filter_Property := HideProperty (config s);
               filter_CheckboxDoesNotEqual := Some true |}.

Definition initialQuery (s : SourceAPI) : DatabaseQuery :=
  {| query_Filter := filter s; query_StartCursor := EmptyString;
     query_PageSize := 100 |}.

(** The loop of [ReadAll] over the pages of one response. *)
Fixpoint pagesLoop (fuel : nat) (o : nat → range_order DatabasePageProperty)
    (s : SourceAPI) (pages : list Page) (events : list Event)
  : result (list Event) :=
  match pages with
  | [] => Ok events
  | page :: pages' =>
      event ← eventFromPage fuel (o (length events)) s page;
      pagesLoop fuel o s pages' (events ++ [event])
  end.

(** The [for] loop of [ReadAll]; [fuel] bounds its iterations and the calls
    that fetch the content of one page. *)
Fixpoint queryLoop (fuel : nat) (o : nat → range_order DatabasePageProperty)
    (s : SourceAPI) (query : DatabaseQuery) (events : list Event)
  : result (list Event) :=
  match fuel with
  | O => Diverge
  | S fuel' =>
      match QueryDatabase (client s) (db_ID (database s)) query with
      | inl err => Err (ErrClient err)
      | inr response =>
          events ← pagesLoop fuel' o s (query_Results response) events;
          if query_HasMore response then
            match query_NextCursor response with
            | Some cursor =>
                queryLoop fuel' o s
                  {| query_Filter := query_Filter query;
                     query_StartCursor := cursor;
                     query_PageSize := query_PageSize query |} events
            | None => Panic "nil pointer dereference"
            end
          else Ok events
      end
  end.

Definition ReadAll (fuel : nat) (o : nat → range_order DatabasePageProperty)
    (s : SourceAPI) : result (list Event) :=
  queryLoop fuel o s (initialQuery s) [].

End api.

(** ** Specifications

    The notions the statements below use: what a run of the remote service
    looks like for a given tree of blocks, and the readings of the
    specification that are compared with the code. *)

Module spec.
Import notion.

(** *** Column resolution as the specification words it

    Modelled from the spec: the synonyms are tried in their order of
    preference, first for a header equal to one of them, then for a header
    that contains one of them, both up to case; [headers] are the columns in
    their order. *)
Definition firstHeader (test : string → string → bool) (q : string)
    (headers : list string) : option string :=
  head (base.filter (λ h, Is_true (test (ToLower h) (ToLower q))) headers).

Fixpoint firstSynonym (test : string → string → bool) (names : list string)
    (headers : list string) : option string :=
  match names with
  | [] => None
  | q :: names' =>
      match firstHeader test q headers with
      | Some h => Some h
      | None => firstSynonym test names' headers
      end
  end.

Definition preferredColumn (names headers : list string) : option string :=
  match firstSynonym String.eqb names headers with
  | Some h => Some h
  | None => firstSynonym Contains names headers
  end.

(** A header matches a list of synonyms in one of the two passes of
    [findFirstColumn]. *)
Definition matchesExact (names : list string) (key : string) : bool :=
  export.anyName String.eqb (ToLower key) names.

Definition matchesPartial (names : list string) (key : string) : bool :=
  export.anyName Contains (ToLower key) names.

(** *** Archives and configurations *)

Definition isCSV (file : string) : bool := HasSuffix file ".csv".

(** A configuration whose archive has the directory [files]. *)
Definition archiveOf (files : list string)
    (open : string → reply export.csvFile) : export.ConfigSourceExport :=
  {| export.Archive :=
       {| export.Seek := inr 0;
          export.NewReader :=
            λ _, inr {| export.File := files; export.Open := open |} |};
     export.Zone := UTC; export.DateProperty := EmptyString;
     export.HideProperty := EmptyString |}.

(** The configuration [c] with another hide field. *)
Definition withHideProperty (hide : string) (c : export.ConfigSourceExport)
  : export.ConfigSourceExport :=
  {| export.Archive := export.Archive c; export.Zone := export.Zone c;
     export.DateProperty := export.DateProperty c;
     export.HideProperty := hide |}.

(** *** The date fields of a schema that [NewSourceAPI] counts *)

Definition isDate (t : DatabasePropertyType) : bool :=
  match t with DBPropTypeDate => true | _ => false end.


Definition isDateField (config : api.ConfigSourceAPI)
    (entry : string * DatabaseProperty) : bool :=
  match schema_Type entry.2 with
  | DBPropTypeDate =>
      String.eqb (api.DateProperty config) EmptyString
      || String.eqb entry.1 (api.DateProperty config)
  | _ => false
  end.

(** The date-field resolution count. *)
Definition dateFieldCount (config : api.ConfigSourceAPI)
    (schema : gmap string DatabaseProperty) : nat :=
  length (base.filter (λ e, Is_true (isDateField config e)) (map_to_list schema)).

(** *** The fields of a page that [eventFromPage] lists *)

Definition isListedField (config : api.ConfigSourceAPI)
    (entry : string * DatabasePageProperty) : bool :=
  match prop_Type entry.2 with
  | DBPropTypeTitle => false
  | DBPropTypeDate =>
      negb (String.eqb (api.DateProperty config) EmptyString
            || String.eqb entry.1 (api.DateProperty config))
  | DBPropTypeRelation => false
  | _ => true
  end.

(** The field under its display name: its own name, or the key of the map
    when it has none. *)
Definition named (entry : string * DatabasePageProperty) : EventProperty :=
  apiProperty
    (if String.eqb (prop_Name entry.2) EmptyString
     then {| prop_ID := prop_ID entry.2; prop_Type := prop_Type entry.2;
             prop_Name := entry.1; prop_Title := prop_Title entry.2;
             prop_Date := prop_Date entry.2 |}
     else entry.2).

(** Display names in the order of [strings.Compare]. *)
Definition nameLe (p q : EventProperty) : Prop :=
  Less (NameString q) (NameString p) = false.

(** *** Block trees

    A block with the blocks below it, as the service hands them out: in
    pages, each page a list of children in their order. *)
#[warnings="-register-all"]
Inductive BlockTree :=
| Node (block : Block) (pages : list (list BlockTree)).

Definition treeBlock (t : BlockTree) : Block := let 'Node b _ := t in b.
Definition treePages (t : BlockTree) : list (list BlockTree) :=
  let 'Node _ pages := t in pages.

(** Depth first: the line of a block, then the lines of its children, page
    after page and child after child. *)
Fixpoint blockLines (t : BlockTree) : result (list string) :=
  let 'Node b pages := t in
  line ← api.convertBlockContentPlain b;
  below ←
    (fix eachPage (pages : list (list BlockTree)) : result (list string) :=
       match pages with
       | [] => Ok []
       | page :: pages' =>
           here ←
             (fix eachBlock (ts : list BlockTree) : result (list string) :=
                match ts with
                | [] => Ok []
                | t' :: ts' =>
                    x ← blockLines t'; y ← eachBlock ts'; Ok (x ++ y)
                end) page;
           after ← eachPage pages';
           Ok (here ++ after)
       end) pages;
  Ok (line :: below).

Fixpoint listLines (ts : list BlockTree) : result (list string) :=
  match ts with
  | [] => Ok []
  | t :: ts' => x ← blockLines t; y ← listLines ts'; Ok (x ++ y)
  end.

Fixpoint pagesLines (pages : list (list BlockTree)) : result (list string) :=
  match pages with
  | [] => Ok []
  | page :: pages' =>
      here ← listLines page; after ← pagesLines pages'; Ok (here ++ after)
  end.

(** The content of a page whose root block is [t]: the line of the root,
    left out when the root is a [notion.ChildPageBlock] value, then the
    lines of everything below it. *)
Definition pageLines (t : BlockTree) : result (list string) :=
  own ← match kind (treeBlock t) with
         | ChildPageValue _ => Ok []
         | _ => line ← api.convertBlockContentPlain (treeBlock t); Ok [line]
         end;
  below ← pagesLines (treePages t);
  Ok (own ++ below).

(** Modelled from the spec: a block of type child page is skipped, it is
    not inlined; every other block gives its line and then the lines of its
    children. *)
Definition isChildPage (b : Block) : bool :=
  match kind b with
  | ChildPageBlock _ | ChildPageValue _ => true
  | _ => false
  end.

Fixpoint skippingLines (t : BlockTree) : result (list string) :=
  let 'Node b pages := t in
  if isChildPage b then Ok []
  else
    line ← api.convertBlockContentPlain b;
    below ←
      (fix eachPage (pages : list (list BlockTree)) : result (list string) :=
         match pages with
         | [] => Ok []
         | page :: pages' =>
             here ←
               (fix eachBlock (ts : list BlockTree) : result (list string) :=
                  match ts with
                  | [] => Ok []
                  | t' :: ts' =>
                      x ← skippingLines t'; y ← eachBlock ts'; Ok (x ++ y)
                  end) page;
             after ← eachPage pages';
             Ok (here ++ after)
         end) pages;
    Ok (line :: below).

(** The client serves the tree: asked for the children of a block, page
    after page, it answers with the blocks of the tree in their order and
    announces a next page exactly when there is one. *)
Inductive servesChildren (c : Client)
  : string → string → list (list BlockTree) → Prop :=
| serves_last id cursor ts next :
    FindBlockChildrenByID c id {| StartCursor := cursor; PageSize := 100 |}
    = inr {| Results := treeBlock <$> ts; HasMore := false; NextCursor := next |} →
    servesBlocks c ts →
    servesChildren c id cursor [ts]
| serves_more id cursor ts next pages :
    FindBlockChildrenByID c id {| StartCursor := cursor; PageSize := 100 |}
    = inr {| Results := treeBlock <$> ts; HasMore := true;
             NextCursor := Some next |} →
    servesBlocks c ts →
    servesChildren c id next pages →
    servesChildren c id cursor (ts :: pages)
with servesBlocks (c : Client) : list BlockTree → Prop :=
| serves_nil : servesBlocks c []
| serves_cons t ts :
    servesTree c t → servesBlocks c ts → servesBlocks c (t :: ts)
with servesTree (c : Client) : BlockTree → Prop :=
| serves_leaf b : HasChildren b = false → servesTree c (Node b [])
| serves_node b pages :
    HasChildren b = true →
    servesChildren c (BlockID b) EmptyString pages →
    servesTree c (Node b pages).

Scheme servesChildren_ind' := Minimality for servesChildren Sort Prop
  with servesBlocks_ind' := Minimality for servesBlocks Sort Prop
  with servesTree_ind' := Minimality for servesTree Sort Prop.
Combined Scheme serves_mutind
  from servesChildren_ind', servesBlocks_ind', servesTree_ind'.

(** The client serves [t] as the block [id] and what is below it. *)
Definition servesPage (c : Client) (id : string) (t : BlockTree) : Prop :=
  FindBlockByID c id = inr (treeBlock t) ∧
  if HasChildren (treeBlock t)
  then servesChildren c id EmptyString (treePages t)
  else treePages t = [].

End spec.


(** ** Concrete data

    The inputs at which the statements below are evaluated. *)

Module example.

(** Two orders [range] may take: that of [map_to_list], and its reverse. *)
Definition ascending {V} : range_order V := map_to_list.
Definition descending {V} : range_order V := λ m, reverse (map_to_list m).

(** A snapshot source in UTC, without a configured date column, over an
    archive that holds the one table [rows]. *)
Definition snapshot (rows : list (list string)) : export.SourceExport :=
  let f := {| export.records := rows; export.failure := None |} in
  let zip := {| export.File := ["events.csv"];
                export.Open := λ _, inr f |} in
  {| export.config :=
       {| export.Archive :=
            {| export.Seek := inr 0; export.NewReader := λ _, inr zip |};
          export.Zone := UTC; export.DateProperty := EmptyString;
          export.HideProperty := EmptyString |};
     export.archive := zip;
     export.name := "events.csv" |}.

(** A row whose range ends before it starts. *)
Definition backwardsHeaders : list string := ["Name"; "Date"].
Definition backwardsRecord : list string :=
  ["Trip"; "2023/01/05 10:00 → 2023/01/02 10:00"].

(** The row of the specification's example. *)
Definition partyHeaders : list string := ["Event Name"; "When"; "Notes"].
Definition partyRecord : list string :=
  ["Party"; "2023/01/02 10:00"; "bring cake"].

(** A row with two date columns and a row with two title columns. *)
Definition twoDatesHeaders : list string := ["Name"; "Date"; "When"].
Definition twoDatesRecord : list string :=
  ["Standup"; "2023/01/02 10:00"; "2024/05/05 12:00"].

(** The event of the example again, in a table with other columns. *)
Definition movedHeaders : list string := ["When"; "Room"; "Event Name"].
Definition movedRecord : list string := ["2023/01/02 10:00"; "Hall"; "Party"].

Definition twoTitlesHeaders : list string := ["Name"; "Title"; "Date"].
Definition twoTitlesRecord : list string :=
  ["Standup"; "Daily sync"; "2023/01/02 10:00"].

(** *** A zone with a transition

    America/New_York in 2023: clocks go from 02:00 to 03:00 on March 12 and
    back on November 5.  The readings from 02:00 to 02:59 of March 12 do
    not exist; asked for one, [time.Date] looks the zone up an hour too
    late and builds the time one hour earlier, in standard time.  Other
    years are left in standard time. *)
Definition newYork : Location :=
  {| locName := "America/New_York";
     locDate := λ year month day hour min sec,
       let skipped :=
         (year =? 2023) && (month =? 3) && (day =? 12) && (hour =? 2) in
       let summer :=
         (year =? 2023)
         && (((month =? 3) && ((12 <? day) || ((day =? 12) && (3 <=? hour))))
             || ((3 <? month) && (month <? 11))
             || ((month =? 11) && ((day <? 5) || ((day =? 5) && (hour <? 1))))) in
       {| r_year := year; r_month := month; r_day := day;
          r_hour := if skipped then 1 else hour; r_min := min; r_sec := sec;
          r_offset := if summer then -14400 else -18000 |} |}.

(** *** A service that holds one tree of blocks *)

Import notion.

Definition text (s : string) : list RichText := [{| PlainText := s |}].

(** The children of a block in pages: the cursor of page [i] is [i] plus
    signs. *)
Definition paged (pages : list (list Block)) (query : PaginationQuery)
  : reply BlockChildrenResponse :=
  let i := String.length (StartCursor query) in
  match pages !! i with
  | Some blocks =>
      let more := bool_decide (S i < length pages)%nat in
      inr {| Results := blocks; HasMore := more;
             NextCursor := if more then Some (StartCursor query +:+ "+")
                           else None |}
  | None => inl "no such page"
  end.

(** A live source whose service knows the block [root] and, for the IDs of
    [below], their children. *)
Definition serving (root : Block) (below : list (string * list (list Block)))
  : api.SourceAPI :=
  {| api.config :=
       {| api.APIKey := "secret"; api.DatabaseID := "db";
          api.DateProperty := EmptyString; api.HideProperty := EmptyString |};
     api.client :=
       {| FindDatabaseByID := λ _, inl "not found";
          QueryDatabase := λ _ _, inl "not found";
          FindBlockByID :=
            λ id, if String.eqb id (BlockID root) then inr root
                  else inl "not found";
          FindBlockChildrenByID :=
            λ id query,
              match (list_to_map below : gmap string (list (list Block))) !! id with
              | Some pages => paged pages query
              | None => inl "not found"
              end |};
     api.database :=
       {| db_ID := "db"; db_Title := text "Events"; db_Properties := ∅ |} |}.

(** The tree of the specification's example; the children come in two
    pages. *)
Definition introBlock : Block := mkBlock "intro" true (Heading1Block (text "Intro")).
Definition hiBlock : Block := mkBlock "hi" false (ParagraphBlock (text "hi")).
Definition aBlock : Block := mkBlock "a" false (BulletedListItemBlock (text "a")).
Definition bBlock : Block := mkBlock "b" false (BulletedListItemBlock (text "b")).

Definition introTree : spec.BlockTree :=
  spec.Node introBlock
    [[spec.Node hiBlock []; spec.Node aBlock []]; [spec.Node bBlock []]].

Definition introSource : api.SourceAPI :=
  serving introBlock [("intro", [[hiBlock; aBlock]; [bBlock]])].

(** A page with a page below it. *)
Definition topBlock : Block := mkBlock "top" true (ParagraphBlock (text "top")).
Definition subBlock : Block := mkBlock "sub" true (ChildPageBlock "Sub page").
Definition innerBlock : Block := mkBlock "inner" false (ParagraphBlock (text "inner")).

Definition nestedTree : spec.BlockTree :=
  spec.Node topBlock [[spec.Node subBlock [[spec.Node innerBlock []]]]].

Definition nestedSource : api.SourceAPI :=
  serving topBlock [("top", [[subBlock]]); ("sub", [[innerBlock]])].

(** *** A page of a database *)

Definition field (t : DatabasePropertyType) : DatabasePageProperty :=
  {| prop_ID := EmptyString; prop_Type := t; prop_Name := EmptyString;
     prop_Title := []; prop_Date := None |}.

Definition meetingDate : Date :=
  {| date_Start := {| dt_Time := time.Date 2023 1 2 15 0 0 0 UTC;
                      dt_hasTime := true |};
     date_End := Some {| dt_Time := time.Date 2023 1 2 17 0 0 0 UTC;
                         dt_hasTime := true |} |}.

Definition meetingFields : gmap string DatabasePageProperty :=
  list_to_map
    [("Name", {| prop_ID := EmptyString; prop_Type := DBPropTypeTitle;
                 prop_Name := EmptyString; prop_Title := text "Meeting";
                 prop_Date := None |});
     ("When", {| prop_ID := EmptyString; prop_Type := DBPropTypeDate;
                 prop_Name := EmptyString; prop_Title := [];
                 prop_Date := Some meetingDate |});
     ("Zebra", field DBPropTypeRichText);
     ("Alpha", field DBPropTypeRichText);
     ("Project", field DBPropTypeRelation)].

Definition meetingPage : Page :=
  {| page_ID := "meeting"; page_URL := "https://www.notion.so/meeting";
     page_Icon := None;
     page_Properties := DatabasePageProperties meetingFields |}.

Definition meetingSource : api.SourceAPI :=
  serving (mkBlock "meeting" false (ChildPageBlock "Meeting")) [].

(** A schema with one date field. *)
Definition meetingSchema : gmap string DatabaseProperty :=
  list_to_map
    [("Name", {| schema_ID := "title"; schema_Type := DBPropTypeTitle;
                 schema_Name := "Name" |});
     ("When", {| schema_ID := "w"; schema_Type := DBPropTypeDate;
                 schema_Name := "When" |});
     ("Done", {| schema_ID := "d"; schema_Type := DBPropTypeCheckbox;
                 schema_Name := "Done" |})].

Definition meetingDatabase : Database :=
  {| db_ID := "db"; db_Title := text "Events";
     db_Properties := meetingSchema |}.

Definition meetingClient : Client :=
  {| FindDatabaseByID :=
       λ id, if String.eqb id "db" then inr meetingDatabase
             else inl "not found";
     QueryDatabase := λ _ _, inl "not found";
     FindBlockByID := λ _, inl "not found";
     FindBlockChildrenByID := λ _ _, inl "not found" |}.

Definition meetingConfig : api.ConfigSourceAPI :=
  {| api.APIKey := "secret"; api.DatabaseID := "db";
     api.DateProperty := EmptyString; api.HideProperty := EmptyString |}.

End example.

(** ** Notions of the proofs

    Invariants and abbreviations the statements below are written with. *)

Module notions.
Import notion spec export api.

(** The zone has the reading: [time.Date] builds the time with exactly
    these fields. *)
Definition keeps (zone : Location) (year month day hour min sec : Z) : Prop :=
  let r := locDate zone year month day hour min sec in
  r_year r = year ∧ r_month r = month ∧ r_day r = day ∧
  r_hour r = hour ∧ r_min r = min ∧ r_sec r = sec.

(** The zone skips no reading: UTC, a fixed offset, a zone without
    transitions. *)
Definition noGaps (zone : Location) : Prop :=
  ∀ year month day hour min sec, keeps zone year month day hour min sec.

(** The invariant of the loop of [parse]. *)
Definition fields_ok (f : fields) : Prop :=
  (f_month f = -1 ∨ 1 <= f_month f <= 12) ∧
  0 <= f_hour f < 24 ∧ 0 <= f_min f < 60.

(** The map of a row, entry by entry. *)
Definition insertEntry (m : gmap string string) (kv : string * string)
  : gmap string string := <[kv.1 := kv.2]> m.

(** The columns a row lists as properties. *)
Definition otherColumns (dateKey titleKey : string)
    (columns : list (string * string)) : list EventProperty :=
  (λ kv, exportProperty kv.1 kv.2)
  <$> base.filter (λ kv : string * string, kv.1 ≠ dateKey ∧ kv.1 ≠ titleKey)
                  columns.

(** A header matches in the pass that decides: it equals a synonym, or no
    header of the row does and it contains one. *)
Definition resolves (names : list string) (m : gmap string string)
    (key : string) : Prop :=
  matchesExact names key = true ∨
  ((∀ k v, m !! k = Some v → matchesExact names k = false) ∧
   matchesPartial names key = true).

(** No header of the row matches in either pass. *)
Definition unresolved (names : list string) (m : gmap string string) : Prop :=
  ∀ k v, m !! k = Some v →
         matchesExact names k = false ∧ matchesPartial names k = false.

(** The start and the end the loop of [eventFromPage] holds are the zero
    time, or those of a date field among [entries] that has an end. *)
Definition datedFrom (entries : list (string * DatabasePageProperty))
    (start end_ : Time) : Prop :=
  (start = zeroTime ∧ end_ = zeroTime) ∨
  ∃ name p d e,
    (name, p) ∈ entries ∧ prop_Type p = DBPropTypeDate ∧
    prop_Date p = Some d ∧ date_End d = Some e ∧
    start = dt_Time (date_Start d) ∧ end_ = dt_Time e.

(** The six layouts of the program, element by element. *)
Definition slashDate : list (string * std) :=
  [(EmptyString, stdLongYear); ("/", stdZeroMonth); ("/", stdZeroDay)].

Definition longDate : list (string * std) :=
  [(EmptyString, stdLongMonth); (" ", stdDay); (", ", stdLongYear)].

Definition clock24 : string → fields → option fields :=
  stage " " stdHour (stage ":" stdZeroMinute (finish EmptyString)).

Definition clock12 : string → fields → option fields :=
  stage " " stdHour12 (stage ":00 " stdPM (finish EmptyString)).

(** A name starts with a letter. *)
Definition startsWithLetter (name : string) : Prop :=
  ∃ c rest, name = String c rest ∧ isDigitByte c = false.

(** The synonyms of the two resolutions. *)
Definition dateNames : list string := ["date"; "when"; "period"].

Definition titleNames : list string := ["name"; "title"].

(** The ID of an event is the one [exportID] derives from its title and its
    start. *)
Definition derivedID (e : Event) : Prop :=
  exportID (Title e) (Start e) = Ok (ID e).

(** What the three parts of a served tree give, with enough fuel. *)
Definition childrenGive (s : SourceAPI) (id cursor : string)
    (pages : list (list BlockTree)) : Prop :=
  ∃ n, ∀ fuel content, (n ≤ fuel)%nat →
    childrenLoop fuel s id {| StartCursor := cursor; PageSize := 100 |} content
    = (below ← pagesLines pages; Ok (content ++ below)).

Definition blocksGive (s : SourceAPI) (ts : list BlockTree) : Prop :=
  ∃ n, ∀ fuel content, (n ≤ fuel)%nat →
    blocksLoop (λ id, childrenLoop fuel s id
                 {| StartCursor := EmptyString; PageSize := 100 |} [])
               (treeBlock <$> ts) content
    = (below ← listLines ts; Ok (content ++ below)).

Definition treeGives (s : SourceAPI) (t : BlockTree) : Prop :=
  ∃ n, ∀ fuel, (n ≤ fuel)%nat →
    if HasChildren (treeBlock t)
    then childrenLoop fuel s (BlockID (treeBlock t))
           {| StartCursor := EmptyString; PageSize := 100 |} []
         = pagesLines (treePages t)
    else treePages t = [].

End notions.

(** ** The description of an event ([event.go]) *)

Section description.

(** [apiProperty.ValueString] prints the value of a field of the live
    source, numbers and times with [fmt] and [time.Format]; the description
    is modelled for any such rendering. *)
Variable apiValueString : notion.DatabasePageProperty → string.

Definition ValueString (p : EventProperty) : string :=
  match p with
  | exportProperty _ value => value
  | apiProperty p => apiValueString p
  end.

(** The body of the loop of [Description] over the properties: the line of
    one property. *)
Definition propertyLine (property : EventProperty) : string :=
  let line := NameString property +:+ ":" in
  let value := ValueString property in
  if Contains value api.newline then line +:+ api.newline +:+ value
  else line +:+ " " +:+ value.

Definition Description (e : Event) : string :=
  let s := fold_left (λ s property, s ++ [propertyLine property; api.newline])
                     (Properties e) [] in
  let s := fold_left (λ s content, s ++ [content; api.newline +:+ api.newline])
                     (Content e) s in
  Join s EmptyString.

End description.

(** ** Notions of the further properties *)

Module bounds.
Import notion spec export api notions.

(** The year [parse] holds has at most four digits. *)
Definition year_ok (f : fields) : Prop := 0 <= f_year f <= 9999.

(** Fields [time.Date] takes as they are: none overflows. *)
Definition inRange (year month day hour min sec : Z) : Prop :=
  1 <= month <= 12 ∧ 1 <= day <= daysIn month year ∧
  0 <= hour < 24 ∧ 0 <= min < 60 ∧ 0 <= sec < 60.

(** What [time.Date] guarantees in every zone: for fields in range, the time
    it builds has a reading in range, also where the zone made it move the
    one asked for. *)
Definition sound (zone : Location) : Prop :=
  ∀ year month day hour min sec,
    inRange year month day hour min sec →
    let r := locDate zone year month day hour min sec in
    inRange (r_year r) (r_month r) (r_day r) (r_hour r) (r_min r) (r_sec r).

(** A time of a parsed range in any zone: a reading in range, no fraction of
    a second, the zone of the caller. *)
Definition inZone (zone : Location) (t : Time) : Prop :=
  valid t ∧ Nanosecond t = 0 ∧ Loc t = zone.

(** What every time of a parsed range has in a zone that skips no reading:
    fields in range, a year of four digits, no seconds, and the zone of the
    caller. *)
Definition wellFormed (zone : Location) (t : Time) : Prop :=
  valid t ∧ 0 <= Year t <= 9999 ∧ Second t = 0 ∧ Nanosecond t = 0 ∧
  Loc t = zone.

(** The times of the zone can be serialised: a time asked for in a year of
    four digits is built in such a year, and the offset of the zone is less
    than a day. *)
Definition marshals (zone : Location) : Prop :=
  ∀ year month day hour min sec,
    0 <= year <= 9999 →
    let r := locDate zone year month day hour min sec in
    0 <= r_year r <= 9999 ∧ -86400 < r_offset r < 86400.

(** The transitions of the zone move the clock by whole hours: a time asked
    for on the hour is built on the hour. *)
Definition wholeHours (zone : Location) : Prop :=
  ∀ year month day hour, r_min (locDate zone year month day hour 0 0) = 0.

(** Australia/Lord_Howe on 2023-10-01, when clocks go from 02:00 to 02:30:
    the readings from 02:00 to 02:29 do not exist, and [time.Date] builds
    the time half an hour later, in summer time. *)
Definition lordHowe : Location :=
  {| locName := "Australia/Lord_Howe";
     locDate := λ year month day hour min sec,
       let skipped :=
         (year =? 2023) && (month =? 10) && (day =? 1) && (hour =? 2)
         && (min <? 30) in
       {| r_year := year; r_month := month; r_day := day; r_hour := hour;
          r_min := if skipped then min + 30 else min; r_sec := sec;
          r_offset := if skipped then 39600 else 37800 |} |}.

(** The layout [3:00 PM], element by element. *)
Definition hour12 : list (string * std) :=
  [(EmptyString, stdHour12); (":00 ", stdPM)].

Definition isMinute (s : std) : bool :=
  match s with stdMinute | stdZeroMinute => true | _ => false end.

(** At most one header of the row resolves the synonyms [names]. *)
Definition uniquelyResolved (names : list string) (m : gmap string string)
  : Prop :=
  ∀ k1 k2, is_Some (m !! k1) → is_Some (m !! k2) →
           resolves names m k1 → resolves names m k2 → k1 = k2.

(** A lower-case hexadecimal digit. *)
Definition isLowerHex (c : ascii) : bool :=
  ((48 <=? code c) && (code c <=? 57)) || ((97 <=? code c) && (code c <=? 102)).

(** The text of a SHA-256 digest in hexadecimal. *)
Definition isDigest (s : string) : Prop :=
  String.length s = 64%nat ∧
  Forall (λ c, isLowerHex c = true) (String.list_ascii_of_string s).

Definition isByte (b : Z) : Prop := 0 <= b < 256.

(** The checkbox fields of a schema that [NewSourceAPI] counts for the hide
    field. *)
Definition isHideField (config : ConfigSourceAPI)
    (entry : string * DatabaseProperty) : bool :=
  match schema_Type entry.2 with
  | DBPropTypeCheckbox =>
      negb (String.eqb (api.HideProperty config) EmptyString)
      && String.eqb entry.1 (api.HideProperty config)
  | _ => false
  end.

(** The schema has a checkbox of the configured hide name. *)
Definition hasHideField (config : ConfigSourceAPI)
    (schema : gmap string DatabaseProperty) : Prop :=
  ∃ p, schema !! api.HideProperty config = Some p ∧
       schema_Type p = DBPropTypeCheckbox.

(** The configuration of the example with the hide field [Done]. *)
Definition hidingConfig : ConfigSourceAPI :=
  {| APIKey := "secret"; DatabaseID := "db";
     api.DateProperty := EmptyString; api.HideProperty := "Done" |}.

(** The date fields of a page that [eventFromPage] takes the start and the
    end from. *)
Definition usedAsDate (config : ConfigSourceAPI)
    (entry : string * DatabasePageProperty) : bool :=
  match prop_Type entry.2 with
  | DBPropTypeDate =>
      String.eqb (api.DateProperty config) EmptyString
      || String.eqb entry.1 (api.DateProperty config)
  | _ => false
  end.

(** The loop of [eventFromPage] holds the start and the end of the date of
    the field [p]. *)
Definition datedBy (p : DatabasePageProperty) (st : pageState) : Prop :=
  ∃ d end_, prop_Date p = Some d ∧ date_End d = Some end_ ∧
            st_start st = dt_Time (date_Start d) ∧ st_end st = dt_Time end_.

Definition isTitle (entry : string * DatabasePageProperty) : bool :=
  match prop_Type entry.2 with DBPropTypeTitle => true | _ => false end.

(** The pages the service answers a query with: those of the response and,
    when it announces more, those it answers the same query with from the
    next cursor on. *)
Inductive answers (s : SourceAPI) : DatabaseQuery → list Page → Prop :=
| answers_last query response :
    QueryDatabase (client s) (db_ID (database s)) query = inr response →
    query_HasMore response = false →
    answers s query (query_Results response)
| answers_more query response cursor pages :
    QueryDatabase (client s) (db_ID (database s)) query = inr response →
    query_HasMore response = true →
    query_NextCursor response = Some cursor →
    answers s {| query_Filter := query_Filter query;
                 query_StartCursor := cursor;
                 query_PageSize := query_PageSize query |} pages →
    answers s query (query_Results response ++ pages).

(** The ID of the event of a page. *)
Definition pageEventID (page : Page) : string := page_ID page +:+ "@notion-ical".

(** The number of blocks in a block, those of a table or of a synced block
    included. *)
Fixpoint blockSize (b : Block) : nat :=
  let 'mkBlock _ _ k := b in
  match k with
  | TableBlock children | SyncedBlock children =>
      S (foldr (λ c n, (blockSize c + n)%nat) 0%nat children)
  | _ => 1%nat
  end.

(** The error [e] reports a call the service failed: that for the block
    [id], or one for the children of some block, asked for in pages of 100
    from some cursor on. *)
Definition fetchFailure (s : SourceAPI) (id : string) (e : error) : Prop :=
  (∃ cause, FindBlockByID (client s) id = inl cause ∧
            e = ErrFetchBlock id cause) ∨
  (∃ id' cursor cause,
     FindBlockChildrenByID (client s) id'
       {| StartCursor := cursor; PageSize := 100 |} = inl cause ∧
     e = ErrFetchChildren id' cursor cause).

(** The answers of the functions that fetch content: lines, a failure of
    the service, or a nil pointer ([Diverge]: the bound of the model was
    hit). *)
Definition contentOutcome {A} (s : SourceAPI) (id : string) (r : result A)
  : Prop :=
  match r with
  | Ok _ | Diverge => True
  | Err e => fetchFailure s id e
  | Panic msg => msg = "nil pointer dereference"
  end.

(** The error [e] reports a query of the database the service failed; the
    query has the filter of the source and asks for pages of 100. *)
Definition queryFailure (s : SourceAPI) (e : error) : Prop :=
  ∃ query cause,
    QueryDatabase (client s) (db_ID (database s)) query = inl cause ∧
    query_Filter query = filter s ∧ query_PageSize query = 100 ∧
    e = ErrClient cause.

(** A page whose date has a start and no end, as Notion stores a single day
    or a single time. *)
Definition singleDayFields : gmap string DatabasePageProperty :=
  list_to_map
    [("Name", {| prop_ID := EmptyString; prop_Type := DBPropTypeTitle;
                 prop_Name := EmptyString; prop_Title := example.text "Launch";
                 prop_Date := None |});
     ("When", {| prop_ID := EmptyString; prop_Type := DBPropTypeDate;
                 prop_Name := EmptyString; prop_Title := [];
                 prop_Date :=
                   Some {| date_Start :=
                             {| dt_Time := time.Date 2023 1 2 0 0 0 0 UTC;
                                dt_hasTime := false |};
                           date_End := None |} |})].

Definition singleDayPage : Page :=
  {| page_ID := "launch"; page_URL := "https://www.notion.so/launch";
     page_Icon := None;
     page_Properties := DatabasePageProperties singleDayFields |}.

(** A live source whose service lists two pages in two responses. *)
Definition retroPage : Page :=
  {| page_ID := "retro"; page_URL := "https://www.notion.so/retro";
     page_Icon := Some {| icon_Emoji := Some "R" |};
     page_Properties := DatabasePageProperties example.meetingFields |}.

Definition listingSource : SourceAPI :=
  {| config := example.meetingConfig;
     client :=
       {| FindDatabaseByID := λ _, inr example.meetingDatabase;
          QueryDatabase :=
            λ _ query,
              if String.eqb (query_StartCursor query) EmptyString
              then inr {| query_Results := [example.meetingPage];
                          query_HasMore := true;
                          query_NextCursor := Some "next" |}
              else inr {| query_Results := [retroPage];
                          query_HasMore := false;
                          query_NextCursor := None |};
          FindBlockByID := λ id, inr (mkBlock id false (ChildPageBlock "Page"));
          FindBlockChildrenByID := λ _ _, inl "not found" |};
     database := example.meetingDatabase |}.

(** The strings of a list one after the other. *)
Definition concatAll (l : list string) : string :=
  foldr String.append EmptyString l.

(** A column in the description: its header, a colon, the cell after a space
    or, when it has more than one line, on a line of its own, and a line
    feed. *)
Definition columnText (column : string * string) : string :=
  column.1 +:+ ":"
  +:+ (if Contains column.2 api.newline then api.newline else " ")
  +:+ column.2 +:+ api.newline.

(** The snapshot source of the examples with the date column [when]
    configured. *)
Definition datedSnapshot : SourceExport :=
  {| export.config :=
       {| Archive := Archive (export.config (example.snapshot []));
          Zone := UTC; export.DateProperty := "when";
          export.HideProperty := EmptyString |};
     archive := archive (example.snapshot []);
     name := name (example.snapshot []) |}.

End bounds.
(** * Properties *)

Import spec notions.

(** Boolean tests of a hypothesis, as propositions over [Z]. *)
Ltac bool_to_prop :=
  repeat match goal with
  | H : (_ || _) = false |- _ => apply orb_false_iff in H as [? ?]
  | H : (_ && _) = true |- _ => apply andb_true_iff in H as [? ?]
  | H : (_ <=? _) = true |- _ => apply Z.leb_le in H
  | H : (_ <=? _) = false |- _ => apply Z.leb_gt in H
  | H : (_ <? _) = true |- _ => apply Z.ltb_lt in H
  | H : (_ <? _) = false |- _ => apply Z.ltb_ge in H
  | H : (_ =? _) = true |- _ => apply Z.eqb_eq in H
  | H : (_ =? _) = false |- _ => apply Z.eqb_neq in H
  end.

(** The successful path through an [option] computation [H]. *)
Ltac option_path H :=
  repeat match type of H with
  | (?x ≫= _) = Some _ =>
      destruct x as [[? ?]|] eqn:?; cbn [mbind option_bind] in H;
      [|discriminate H]
  | (if ?b then None else _) = Some _ => destruct b eqn:?; [discriminate H|]
  | (if ?b then _ else None) = Some _ => destruct b eqn:?; [|discriminate H]
  | (if ?b then _ else _) = Some _ => destruct b eqn:?
  end.


(** ** Construction of the snapshot source *)

Section new_source_export.
Import export.

Lemma findCSV_from (files : list string) (name : string) :
  fold_left (λ name file, if HasSuffix file ".csv" then file else name)
            files name
  = default name (last (base.filter (λ f, Is_true (isCSV f)) files)).
Proof.
  revert name. induction files as [|file files IH]; intros name; [done|].
  cbn [fold_left]. rewrite IH, filter_cons.
  destruct (decide (isCSV file)) as [Hcsv|Hcsv]; unfold isCSV in Hcsv;
    destruct (HasSuffix file ".csv"); try done.
  rewrite last_cons. by destruct (last _).
Qed.

(** The table is the last entry of the directory whose name ends in
    [.csv]. *)
Lemma findCSV_last (files : list string) :
  findCSV files
  = default EmptyString (last (base.filter (λ f, Is_true (isCSV f)) files)).
Proof. apply findCSV_from. Qed.

(** C3 (the code against the claim).  With two tables in the archive,
    [a.csv] listed before [b.csv], the source reads [b.csv], the last one,
    and not the first; whatever the directory, it is the last entry ending
    in [.csv] that is chosen, and without such an entry the construction
    fails. *)
Theorem C3_last_csv_is_selected :
  (∀ open, Name <$> NewSourceExport (archiveOf ["a.csv"; "b.csv"] open)
           = Ok "b.csv") ∧
  (∀ files open s,
     NewSourceExport (archiveOf files open) = Ok s →
     last (base.filter (λ f, Is_true (isCSV f)) files) = Some (Name s)) ∧
  (∀ files open,
     base.filter (λ f, Is_true (isCSV f)) files = [] →
     NewSourceExport (archiveOf files open) = Err ErrNoCSVFile).
Proof.
  split; [|split].
  - intros open. reflexivity.
  - intros files open s. unfold NewSourceExport, archiveOf. cbn -[findCSV].
    rewrite findCSV_last.
    destruct (last _) as [file|]; cbn.
    + destruct (String.eqb file EmptyString); [done|].
      intros [= <-]. done.
    + done.
  - intros files open Hnone. unfold NewSourceExport, archiveOf. cbn -[findCSV].
    by rewrite findCSV_last, Hnone.
Qed.

End new_source_export.

(** ** The hide field and the snapshot source *)

Section hide_property.
Import export.

Lemma eventFromCSVRow_config o (s s' : SourceExport) headers record :
  DateProperty (config s) = DateProperty (config s') →
  Zone (config s) = Zone (config s') →
  eventFromCSVRow o s headers record = eventFromCSVRow o s' headers record.
Proof.
  intros Hdate Hzone. unfold eventFromCSVRow, dateColumn.
  by rewrite Hdate, Hzone.
Qed.

Lemma readRows_config o (s s' : SourceExport) headers i rows failure events :
  DateProperty (config s) = DateProperty (config s') →
  Zone (config s) = Zone (config s') →
  readRows o s headers i rows failure events
  = readRows o s' headers i rows failure events.
Proof.
  intros Hdate Hzone. revert i events.
  induction rows as [|record rows IH]; intros i events; [done|].
  cbn [readRows]. rewrite (eventFromCSVRow_config (o i) s s') by done.
  destruct (eventFromCSVRow (o i) s' headers record); cbn; auto.
Qed.

(** C10.  The snapshot source never reads the hide field: two
    configurations that differ in nothing but [HideProperty] give the same
    answer of [ReadAll] over the same archive, the same events or the same
    failure. *)
Theorem C10_hide_property_is_ignored o (c : ConfigSourceExport) (hide : string) :
  (s ← NewSourceExport (withHideProperty hide c); ReadAll o s)
  = (s ← NewSourceExport c; ReadAll o s).
Proof.
  unfold NewSourceExport, withHideProperty; cbn -[findCSV].
  destruct (Seek (Archive c)) as [err|len]; [done|].
  destruct (NewReader (Archive c) len) as [err|zip]; [done|].
  destruct (String.eqb (findCSV (File zip)) EmptyString); [done|].
  cbn -[findCSV]. unfold ReadAll; cbn -[findCSV].
  destruct (Open zip (findCSV (File zip))) as [err|f]; [done|].
  destruct (records f) as [|headers rows]; [done|].
  by apply readRows_config.
Qed.

End hide_property.

(** ** Construction of the live source *)

Section new_source_api.
Import notion api.

Lemma countProperty_step config d h names entry :
  ∃ h', countProperty config (d, h, names) entry
        = (d + (if isDateField config entry then 1 else 0), h',
           names ++ [entry.1]).
Proof.
  destruct entry as [name property]. unfold countProperty, isDateField.
  cbn [fst snd].
  destruct (schema_Type property);
    try (eexists; f_equal; f_equal; lia).
  - destruct (String.eqb (DateProperty config) EmptyString); cbn [orb];
      [|destruct (String.eqb name (DateProperty config))];
      eexists; f_equal; f_equal; lia.
  - destruct (String.eqb (HideProperty config) EmptyString);
      [|destruct (String.eqb name (HideProperty config))];
      eexists; f_equal; f_equal; lia.
Qed.

Lemma countProperty_fold config entries d h names :
  let r := fold_left (countProperty config) entries (d, h, names) in
  r.1.1 = d + Z.of_nat (length (base.filter (λ e, Is_true (isDateField config e)) entries))
  ∧ r.2 = names ++ entries.*1.
Proof.
  revert d h names. induction entries as [|entry entries IH];
    intros d h names; cbn [fold_left].
  - cbn. split; [lia|by rewrite app_nil_r].
  - destruct (countProperty_step config d h names entry) as [h' ->].
    destruct (IH (d + (if isDateField config entry then 1 else 0)) h'
                 (names ++ [entry.1])) as [-> ->].
    rewrite filter_cons, <-app_assoc. cbn [fmap list_fmap app].
    destruct (decide _) as [Hdate|Hdate];
      destruct (isDateField config entry); try done; cbn [length];
      split; [lia|done|lia|done].
Qed.

(** A fair order visits as many date fields as the schema has. *)
Lemma fair_count config (o : range_order DatabaseProperty) schema :
  fair o →
  length (base.filter (λ e, Is_true (isDateField config e)) (o schema))
  = dateFieldCount config schema.
Proof.
  intros Hfair. unfold dateFieldCount. by rewrite (Hfair schema).
Qed.

Lemma at_most_one {A} (l : list A) (x : A) :
  NoDup l → (∀ y, y ∈ l → y = x) → (length l ≤ 1)%nat.
Proof.
  intros Hnd Hall. destruct l as [|a [|b l]]; cbn; [lia|lia|].
  exfalso. apply NoDup_cons in Hnd as [Hnotin _].
  apply Hnotin. rewrite (Hall a), (Hall b).
  - apply elem_of_cons. by left.
  - apply elem_of_cons. right. apply elem_of_cons. by left.
  - apply elem_of_cons. by left.
Qed.

(** With a configured name the count is one exactly when the schema has a
    date field of that name. *)
Lemma named_count config (schema : gmap string DatabaseProperty) :
  DateProperty config ≠ EmptyString →
  dateFieldCount config schema = 1%nat ↔
  ∃ p, schema !! DateProperty config = Some p ∧ schema_Type p = DBPropTypeDate.
Proof.
  intros Hname. unfold dateFieldCount.
  assert (Hin : ∀ e, e ∈ base.filter (λ e, Is_true (isDateField config e)) (map_to_list schema)
                 ↔ schema !! e.1 = Some e.2 ∧ e.1 = DateProperty config
                    ∧ schema_Type e.2 = DBPropTypeDate).
  { intros [k p]. rewrite list_elem_of_filter, elem_of_map_to_list.
    unfold isDateField. cbn [fst snd].
    apply String.eqb_neq in Hname. rewrite Hname. cbn [orb].
    rewrite <-(String.eqb_eq k).
    destruct (schema_Type p), (String.eqb k _); cbn; intuition congruence. }
  split.
  - intros Hlen.
    destruct (base.filter _ (map_to_list schema)) as [|[k p] [|]] eqn:Hf;
      try done.
    destruct (proj1 (Hin (k, p))) as (Hlook & Hk & Hty);
      [by apply list_elem_of_singleton|].
    cbn in *. subst k. eauto.
  - intros (p & Hlook & Hty).
    assert (Hkp : (DateProperty config, p)
                  ∈ base.filter (λ e, Is_true (isDateField config e)) (map_to_list schema))
      by (apply Hin; done).
    assert (length (base.filter (λ e, Is_true (isDateField config e)) (map_to_list schema)) ≤ 1)%nat.
    { apply (at_most_one _ (DateProperty config, p)).
      - apply NoDup_filter, NoDup_map_to_list.
      - intros [k q] (Hq & Hk & _)%Hin. cbn in *. subst k. congruence. }
    apply list_elem_of_split in Hkp as (l1 & l2 & Hsplit).
    rewrite Hsplit in *. rewrite length_app in *. cbn in *. lia.
Qed.

(** C9.  Once the database is found, [NewSourceAPI] succeeds only when the
    date-field resolution count is one; when the count is not one it fails
    with [ErrNoDateProperty], naming the configured field and listing the
    fields of the schema.  With a configured name the count is one exactly
    when a date field of that name exists; without one it is the number of
    date fields of the schema. *)
Theorem C9_date_field_resolution (client : Client)
    (o : range_order DatabaseProperty) (config : ConfigSourceAPI)
    (database : Database) :
  fair o →
  FindDatabaseByID client (DatabaseID config) = inr database →
  (∀ s, NewSourceAPI client o config = Ok s →
        dateFieldCount config (db_Properties database) = 1%nat) ∧
  (dateFieldCount config (db_Properties database) ≠ 1%nat →
   ∃ names,
     NewSourceAPI client o config
     = Err (ErrNoDatePropertyIn (DateProperty config) names)
     ∧ names ≡ₚ (map_to_list (db_Properties database)).*1) ∧
  (DateProperty config ≠ EmptyString →
   dateFieldCount config (db_Properties database) = 1%nat ↔
   ∃ p, db_Properties database !! DateProperty config = Some p
        ∧ schema_Type p = DBPropTypeDate) ∧
  (DateProperty config = EmptyString →
   dateFieldCount config (db_Properties database)
   = length (base.filter (λ e, Is_true (isDate (schema_Type e.2)))
                         (map_to_list (db_Properties database)))).
Proof.
  intros Hfair Hfind.
  pose proof (countProperty_fold config (o (db_Properties database)) 0 0 [])
    as Hfold.
  unfold NewSourceAPI. rewrite Hfind.
  destruct (fold_left _ _ _) as [[d h] names]. cbn in Hfold.
  destruct Hfold as [Hd Hnames]. rewrite (fair_count _ _ _ Hfair) in Hd.
  split; [|split; [|split]].
  - intros s. destruct (d =? 1) eqn:Hone; cbn; [|done].
    intros _. apply Z.eqb_eq in Hone. lia.
  - intros Hcount. exists names. split.
    + destruct (d =? 1) eqn:Hone; cbn; [|done].
      apply Z.eqb_eq in Hone. lia.
    + rewrite Hnames. by rewrite (Hfair (db_Properties database)).
  - apply named_count.
  - intros Hnone. unfold dateFieldCount. f_equal.
    apply list_filter_iff. intros [k p]. unfold isDateField, isDate.
    rewrite Hnone. cbn. by destruct (schema_Type p).
Qed.

End new_source_api.

(** ** The date-range parser *)

Section parser.

(** *** The times the parser builds are in range *)

Lemma digit_range c : isDigitByte c = true → 0 <= digit c <= 9.
Proof.
  unfold isDigitByte, digit. intros [H1 H2]%andb_true_iff.
  apply Z.leb_le in H1, H2. lia.
Qed.

Lemma getnum_range s fixed n rest :
  getnum s fixed = Some (n, rest) → 0 <= n <= 99.
Proof.
  unfold getnum. destruct s as [|c1 [|c2 s]]; [done| |].
  - destruct (isDigitByte c1) eqn:H1; [|done].
    destruct fixed; [done|]. intros [= <- <-].
    pose proof (digit_range _ H1). lia.
  - destruct (isDigitByte c1) eqn:H1; [|done].
    pose proof (digit_range _ H1).
    destruct (isDigitByte c2) eqn:H2.
    + intros [= <- <-]. pose proof (digit_range _ H2). lia.
    + destruct fixed; [done|]. intros [= <- <-]. lia.
Qed.

Lemma lookup_from_range i tab val j rest :
  lookup_from i tab val = Some (j, rest) → i <= j < i + Z.of_nat (length tab).
Proof.
  revert i. induction tab as [|v tab IH]; intros i; cbn [lookup_from]; [done|].
  destruct (_ && _).
  - intros [= <- <-]. cbn [length]. lia.
  - intros H%IH. cbn [length]. lia.
Qed.


Lemma fields0_ok : fields_ok fields0.
Proof. unfold fields_ok, fields0; cbn. lia. Qed.

Lemma parse_std_ok s value f value' f' :
  parse_std s value f = Some (value', f') → fields_ok f → fields_ok f'.
Proof.
  unfold fields_ok. intros Hparse (Hmonth & Hhour & Hmin).
  destruct s; unfold parse_std in Hparse; try discriminate Hparse;
    cbv zeta in Hparse; option_path Hparse;
    try discriminate Hparse;
    injection Hparse as <- <-; cbn;
    repeat match goal with
    | H : lookup _ _ = Some _ |- _ =>
        apply lookup_from_range in H; cbn in H
    | H : getnum _ _ = Some _ |- _ => apply getnum_range in H
    end;
    bool_to_prop; lia.
Qed.

Lemma parse_loop_ok fuel layout value f f' :
  parse_loop fuel layout value f = Some f' → fields_ok f → fields_ok f'.
Proof.
  revert layout value f. induction fuel as [|fuel IH]; intros layout value f;
    cbn [parse_loop]; [done|].
  destruct (nextStdChunk layout) as [[prefix s] suffix].
  destruct (skip value prefix) as [value1|]; [|done]. cbn.
  destruct s as [s|].
  - destruct (parse_std s value1 f) as [[value2 f2]|] eqn:Hstd; [|done]. cbn.
    intros Hloop Hok. eapply IH; [exact Hloop|].
    eapply parse_std_ok; eauto.
  - destruct (_ =? _)%nat; [|done]. by intros [= <-].
Qed.

(** The fields [parse] hands to [time.Date] are in range. *)
Lemma ParseInLocation_Date layout value loc t :
  ParseInLocation layout value loc = Some t →
  ∃ year month day hour min,
    t = Date year month day hour min 0 0 loc ∧
    1 <= month <= 12 ∧ 1 <= day <= daysIn month year ∧
    0 <= hour < 24 ∧ 0 <= min < 60.
Proof.
  unfold ParseInLocation.
  destruct (parse_loop _ layout value fields0) as [f|] eqn:Hloop; [|done].
  apply parse_loop_ok in Hloop as (Hmonth & Hhour & Hmin); [|apply fields0_ok].
  cbn. destruct (_ || _) eqn:Hday; [done|].
  apply orb_false_iff in Hday as [H1 H2].
  apply Z.ltb_ge in H1, H2.
  intros [= <-]. eexists _, _, _, _, _. split; [reflexivity|].
  repeat split; try lia.
  - destruct (f_month f <? 0) eqn:E; [lia|]. apply Z.ltb_ge in E. lia.
  - destruct (f_month f <? 0) eqn:E; [lia|]. apply Z.ltb_ge in E. lia.
  - destruct (f_pmSet f && (f_hour f <? 12)); [lia|].
    destruct (f_amSet f && (f_hour f =? 12)); lia.
  - destruct (f_pmSet f && (f_hour f <? 12)) eqn:E.
    + apply andb_true_iff in E as [_ E]. apply Z.ltb_lt in E. lia.
    + destruct (f_amSet f && (f_hour f =? 12)); lia.
Qed.

(** Where the zone has the reading, [time.Date] builds it. *)
Lemma Date_keeps zone year month day hour min sec nsec :
  keeps zone year month day hour min sec →
  Year (Date year month day hour min sec nsec zone) = year ∧
  Month (Date year month day hour min sec nsec zone) = month ∧
  Day (Date year month day hour min sec nsec zone) = day ∧
  Hour (Date year month day hour min sec nsec zone) = hour ∧
  Minute (Date year month day hour min sec nsec zone) = min ∧
  Second (Date year month day hour min sec nsec zone) = sec.
Proof. intros Hkeeps. exact Hkeeps. Qed.

Lemma ParseInLocation_valid layout value loc t :
  noGaps loc → ParseInLocation layout value loc = Some t → valid t.
Proof.
  intros Hzone (year & month & day & hour & min & -> & Hrange)
    %ParseInLocation_Date.
  destruct (Date_keeps loc year month day hour min 0 0 (Hzone _ _ _ _ _ _))
    as (Hy & Hm & Hd & Hh & Hmi & Hs).
  unfold valid. rewrite Hy, Hm, Hd, Hh, Hmi, Hs. cbn [Nanosecond Date]. lia.
Qed.

Lemma ParseInLocation_Loc layout value loc t :
  ParseInLocation layout value loc = Some t → Loc t = loc.
Proof.
  by intros (year & month & day & hour & min & -> & _)%ParseInLocation_Date.
Qed.

Lemma firstParse_Some layouts d zone t :
  firstParse layouts d zone = Some t →
  ∃ layout, layout ∈ layouts ∧ ParseInLocation layout d zone = Some t.
Proof.
  induction layouts as [|f layouts IH]; cbn [firstParse]; [done|].
  destruct (ParseInLocation f d zone) as [t'|] eqn:Hp.
  - intros [= <-]. exists f. split; [apply elem_of_cons; by left|done].
  - intros (layout & Hin & Hl)%IH. exists layout.
    split; [apply elem_of_cons; by right|done].
Qed.

Lemma firstParse_None layouts d zone :
  firstParse layouts d zone = None ↔
  ∀ layout, layout ∈ layouts → ParseInLocation layout d zone = None.
Proof.
  induction layouts as [|f layouts IH]; cbn [firstParse].
  - split; [intros _ layout Hin; by apply elem_of_nil in Hin|done].
  - destruct (ParseInLocation f d zone) as [t'|] eqn:Hp.
    + split; [done|]. intros Hall.
      rewrite Hall in Hp; [done|apply elem_of_cons; by left].
    + rewrite IH. split.
      * intros Hall layout [->|Hin]%elem_of_cons; auto.
      * intros Hall layout Hin. apply Hall, elem_of_cons. by right.
Qed.

Lemma parseNotionDate_valid d zone t :
  noGaps zone → parseNotionDate d zone = Ok t → valid t.
Proof.
  intros Hzone. unfold parseNotionDate.
  destruct (firstParse _ _ _) as [t'|] eqn:Hf; [|done].
  intros [= <-]. apply firstParse_Some in Hf as (layout & _ & Hp).
  by eapply ParseInLocation_valid.
Qed.

Lemma parseNotionTime_valid d zone t :
  noGaps zone → parseNotionTime d zone = Ok t → valid t.
Proof.
  intros Hzone. unfold parseNotionTime.
  destruct (firstParse _ _ _) as [t'|] eqn:Hf; [|done].
  intros [= <-]. apply firstParse_Some in Hf as (layout & _ & Hp).
  by eapply ParseInLocation_valid.
Qed.

Lemma parseNotionTime_Loc d zone t :
  parseNotionTime d zone = Ok t → Loc t = zone.
Proof.
  unfold parseNotionTime.
  destruct (firstParse _ _ _) as [t'|] eqn:Hf; [|done].
  intros [= <-]. apply firstParse_Some in Hf as (layout & _ & Hp).
  by eapply ParseInLocation_Loc.
Qed.

(** [mergeNotionDateTime] passes [time.Date] fields that are in range. *)
Lemma mergeNotionDateTime_valid date t :
  noGaps (Loc t) → valid date → valid t →
  valid (mergeNotionDateTime date t).
Proof.
  intros Hzone Hdate Ht. unfold mergeNotionDateTime.
  destruct (Date_keeps (Loc t) (Year date) (Month date) (Day date) (Hour t)
              (Minute t) (Second t) 0 (Hzone _ _ _ _ _ _))
    as (Hy & Hm & Hd & Hh & Hmi & Hs).
  unfold valid in *. rewrite Hy, Hm, Hd, Hh, Hmi, Hs. cbn [Nanosecond Date].
  lia.
Qed.

(** *** Ranges *)

Lemma cut_None s sep : Contains s sep = false → cut s sep = None.
Proof.
  induction s as [|c s IH]; cbn [Contains cut];
    intros [Hpre Hrest]%orb_false_iff; rewrite Hpre; [done|].
  by rewrite IH.
Qed.

Lemma SplitN2_no_separator s sep : Contains s sep = false → SplitN2 s sep = [s].
Proof. intros H. unfold SplitN2. by rewrite cut_None. Qed.

(** C7.  When the input has an arrow, the left part parses to [t1], and the
    right part parses as no date with time but parses as a time [t2], the
    range ends at the time [time.Date] builds in the zone from the day of
    [t1] and the time of [t2]: where the zone has that wall-clock time, the
    end has the year, month and day of [t1] and the hour, minute and second
    of [t2].  In particular [January 2, 2023 3:00 PM → 5:00 PM] is the
    range from 15:00 to 17:00 of 2023-01-02 in every zone that has these
    two times and 17:00 on the day [parse] gives a time without a date. *)
Theorem C7_time_only_right_part (zone : Location) :
  (∀ r left right t1 t2,
     SplitN2 r arrow = [left; right] →
     parseNotionDate left zone = Ok t1 →
     (∀ t, parseNotionDate right zone ≠ Ok t) →
     parseNotionTime right zone = Ok t2 →
     ∃ end_,
       parseNotionDateRange r zone = Ok (t1, end_) ∧
       end_ = Date (Year t1) (Month t1) (Day t1)
                   (Hour t2) (Minute t2) (Second t2) 0 zone ∧
       (keeps zone (Year t1) (Month t1) (Day t1)
                   (Hour t2) (Minute t2) (Second t2) →
        Year end_ = Year t1 ∧ Month end_ = Month t1 ∧ Day end_ = Day t1 ∧
        Hour end_ = Hour t2 ∧ Minute end_ = Minute t2 ∧
        Second end_ = Second t2)) ∧
  (keeps zone 2023 1 2 15 0 0 → keeps zone 0 1 1 17 0 0 →
   keeps zone 2023 1 2 17 0 0 →
   ∃ start end_,
     parseNotionDateRange "January 2, 2023 3:00 PM → 5:00 PM" zone
     = Ok (start, end_) ∧
     Year start = 2023 ∧ Month start = 1 ∧ Day start = 2 ∧
     Hour start = 15 ∧ Minute start = 0 ∧ Second start = 0 ∧
     Year end_ = 2023 ∧ Month end_ = 1 ∧ Day end_ = 2 ∧
     Hour end_ = 17 ∧ Minute end_ = 0 ∧ Second end_ = 0 ∧
     Loc start = zone ∧ Loc end_ = zone).
Proof.
  split.
  - intros r left right t1 t2 Hsplit Hleft Hright Htime.
    exists (mergeNotionDateTime t1 t2).
    split; [|split].
    + unfold parseNotionDateRange. rewrite Hsplit, Hleft. cbn.
      destruct (parseNotionDate right zone) as [t| | |] eqn:Hdate;
        [by destruct (Hright t)|..]; by rewrite Htime.
    + unfold mergeNotionDateTime.
      by rewrite (parseNotionTime_Loc _ _ _ Htime).
    + unfold mergeNotionDateTime.
      rewrite (parseNotionTime_Loc _ _ _ Htime). apply Date_keeps.
  - intros Hstart Htime Hend.
    exists (Date 2023 1 2 15 0 0 0 zone),
           (mergeNotionDateTime (Date 2023 1 2 15 0 0 0 zone)
                                (Date 0 1 1 17 0 0 0 zone)).
    split; [reflexivity|].
    destruct (Date_keeps zone 2023 1 2 15 0 0 0 Hstart)
      as (Hy & Hm & Hd & Hh & Hmi & Hs).
    destruct (Date_keeps zone 0 1 1 17 0 0 0 Htime)
      as (_ & _ & _ & Hh' & Hmi' & Hs').
    rewrite Hy, Hm, Hd, Hh, Hmi, Hs. do 6 (split; [reflexivity|]).
    unfold mergeNotionDateTime. rewrite Hy, Hm, Hd, Hh', Hmi', Hs'.
    destruct (Date_keeps zone 2023 1 2 17 0 0 0 Hend)
      as (Ey & Em & Ed & Eh & Emi & Es).
    cbn [Loc Date] in *. rewrite Ey, Em, Ed, Eh, Emi, Es. done.
Qed.

(** The example of C7 in UTC, which has every reading; its right part is no
    date, so it goes through the fall-back. *)
Lemma C7_witness :
  keeps UTC 2023 1 2 15 0 0 ∧ keeps UTC 0 1 1 17 0 0 ∧
  keeps UTC 2023 1 2 17 0 0 ∧
  parseNotionDate " 5:00 PM" UTC = Err (ErrParseDate "5:00 PM") ∧
  ∃ start end_,
    parseNotionDateRange "January 2, 2023 3:00 PM → 5:00 PM" UTC
    = Ok (start, end_) ∧
    Year start = 2023 ∧ Month start = 1 ∧ Day start = 2 ∧
    Hour start = 15 ∧ Minute start = 0 ∧ Second start = 0 ∧
    Year end_ = 2023 ∧ Month end_ = 1 ∧ Day end_ = 2 ∧
    Hour end_ = 17 ∧ Minute end_ = 0 ∧ Second end_ = 0 ∧
    Loc start = UTC ∧ Loc end_ = UTC.
Proof.
  assert (H1 : keeps UTC 2023 1 2 15 0 0) by (repeat split).
  assert (H2 : keeps UTC 0 1 1 17 0 0) by (repeat split).
  assert (H3 : keeps UTC 2023 1 2 17 0 0) by (repeat split).
  split; [exact H1|]. split; [exact H2|]. split; [exact H3|].
  split; [reflexivity|].
  exact (proj2 (C7_time_only_right_part UTC) H1 H2 H3).
Defined.

(** In New York the clocks skip 02:30 on 2023-03-12.  The right part of
    [March 12, 2023 1:00 → 2:30] is no date and is the time 02:30, the left
    part is 01:00 of that day, and the range ends at 01:30: not at the hour
    of its right part. *)
Lemma C7_counterexample :
  SplitN2 "March 12, 2023 1:00 → 2:30" arrow
  = ["March 12, 2023 1:00 "; " 2:30"] ∧
  parseNotionDate " 2:30" example.newYork = Err (ErrParseDate "2:30") ∧
  (t2 ← parseNotionTime " 2:30" example.newYork; Ok (Hour t2, Minute t2))
  = Ok (2, 30) ∧
  (range ← parseNotionDateRange "March 12, 2023 1:00 → 2:30" example.newYork;
   Ok (Day range.1, Hour range.1, Minute range.1,
       (Day range.2, Hour range.2, Minute range.2)))
  = Ok (12, 1, 0, (12, 1, 30)).
Proof. repeat split; reflexivity. Qed.

End parser.

(** ** Rows of the snapshot source *)

Section snapshot_rows.
Import export.


Lemma fillMap_zip headers record i m :
  length (drop i headers) = length record →
  fillMap headers i record m
  = Ok (fold_left insertEntry (zip (drop i headers) record) m).
Proof.
  revert i m. induction record as [|value record IH]; intros i m Hlen.
  - by destruct (drop i headers).
  - cbn [fillMap]. destruct (headers !! i) as [key|] eqn:Hkey.
    + rewrite (drop_S _ _ _ Hkey) in Hlen |- *. cbn in Hlen.
      rewrite IH by lia. done.
    + apply lookup_ge_None in Hkey. rewrite drop_ge in Hlen by done.
      done.
Qed.

Lemma headersAndRecordToMap_Ok headers record m :
  headersAndRecordToMap headers record = Ok m →
  length headers = length record ∧
  m = fold_left insertEntry (zip headers record) ∅.
Proof.
  unfold headersAndRecordToMap.
  destruct (length headers =? length record)%nat eqn:Hlen; [|done].
  apply Nat.eqb_eq in Hlen. cbn [negb].
  rewrite fillMap_zip by (by rewrite drop_0). rewrite drop_0.
  by intros [= <-].
Qed.

Lemma fold_insert_lookup (l : list (string * string)) m k v :
  fold_left insertEntry l m !! k = Some v → (k, v) ∈ l ∨ m !! k = Some v.
Proof.
  revert m. induction l as [|[k' v'] l IH]; intros m; cbn [fold_left]; [auto|].
  intros [Hin|Hm]%IH.
  - left. apply elem_of_cons. by right.
  - unfold insertEntry in Hm. cbn in Hm.
    destruct (decide (k' = k)) as [->|Hne].
    + rewrite lookup_insert_eq in Hm. injection Hm as <-.
      left. apply elem_of_cons. by left.
    + rewrite lookup_insert_ne in Hm by done. by right.
Qed.

Lemma fold_insert_is_Some (l : list (string * string)) m k :
  (k ∈ l.*1 ∨ is_Some (m !! k)) → is_Some (fold_left insertEntry l m !! k).
Proof.
  revert m. induction l as [|[k' v'] l IH]; intros m; cbn [fold_left].
  - intros [Hin|Hm]; [by apply elem_of_nil in Hin|done].
  - intros Hk. apply IH. unfold insertEntry. cbn [fst snd].
    destruct (decide (k' = k)) as [->|Hne].
    + right. rewrite lookup_insert_eq. eauto.
    + rewrite lookup_insert_ne by done.
      destruct Hk as [Hin|Hm]; [|by right].
      cbn in Hin. apply elem_of_cons in Hin as [->|Hin]; [done|by left].
Qed.

(** The cells of the map of a row are cells of the row, and its keys are the
    headers. *)
Lemma row_map_lookup headers record m k v :
  headersAndRecordToMap headers record = Ok m →
  m !! k = Some v → k ∈ headers ∧ v ∈ record.
Proof.
  intros [Hlen ->]%headersAndRecordToMap_Ok Hlook.
  apply fold_insert_lookup in Hlook as [Hin|Hempty]; [|done].
  apply elem_of_zip_l in Hin as Hl. apply elem_of_zip_r in Hin as Hr. done.
Qed.

Lemma row_map_is_Some headers record m k :
  headersAndRecordToMap headers record = Ok m →
  k ∈ headers → is_Some (m !! k).
Proof.
  intros [Hlen ->]%headersAndRecordToMap_Ok Hin.
  apply fold_insert_is_Some. left. by rewrite fst_zip by lia.
Qed.


Lemma propertiesLoop_zip dateKey titleKey i headers record properties :
  length headers = length (drop i record) →
  propertiesLoop dateKey titleKey i headers record properties
  = Ok (properties
        ++ otherColumns dateKey titleKey (zip headers (drop i record))).
Proof.
  revert i properties.
  induction headers as [|key headers IH]; intros i properties Hlen.
  - cbn. by rewrite app_nil_r.
  - cbn [propertiesLoop length] in *.
    destruct (record !! i) as [value|] eqn:Hvalue.
    2:{ apply lookup_ge_None in Hvalue. rewrite drop_ge in Hlen by done.
        done. }
    rewrite (drop_S _ _ _ Hvalue) in Hlen |- *. cbn in Hlen.
    unfold otherColumns. cbn [zip zip_with]. rewrite filter_cons.
    cbn [fst snd].
    destruct (String.eqb key dateKey) eqn:Hd; cbn [orb].
    { apply String.eqb_eq in Hd. rewrite decide_False by tauto.
      apply IH. lia. }
    destruct (String.eqb key titleKey) eqn:Ht.
    { apply String.eqb_eq in Ht. rewrite decide_False by tauto.
      apply IH. lia. }
    apply String.eqb_neq in Hd, Ht. rewrite decide_True by done.
    rewrite IH by lia. cbn [fmap list_fmap]. unfold otherColumns.
    by rewrite <-app_assoc.
Qed.

(** What a successful [eventFromCSVRow] went through. *)
Lemma eventFromCSVRow_Ok o s headers record e :
  eventFromCSVRow o s headers record = Ok e →
  ∃ m dateKey date titleKey,
    headersAndRecordToMap headers record = Ok m ∧
    dateColumn o s m = Ok (dateKey, date) ∧
    parseNotionDateRange date (Zone (config s)) = Ok (Start e, End e) ∧
    findFirstColumn ["name"; "title"] (o TitleExact m) (o TitlePartial m)
    = (titleKey, Title e) ∧
    titleKey ≠ EmptyString ∧
    Properties e = otherColumns dateKey titleKey (zip headers record) ∧
    exportID (Title e) (Start e) = Ok (ID e).
Proof.
  unfold eventFromCSVRow.
  destruct (headersAndRecordToMap headers record) as [m| | |] eqn:Hm;
    try done. cbn.
  destruct (dateColumn o s m) as [[dateKey date]| | |] eqn:Hdate;
    try done. cbn.
  destruct (parseNotionDateRange date _) as [[start end_]| | |] eqn:Hrange;
    try done. cbn.
  destruct (findFirstColumn _ _ _) as [titleKey title] eqn:Htitle.
  destruct (String.eqb titleKey EmptyString) eqn:Hkey; [done|].
  apply String.eqb_neq in Hkey.
  apply headersAndRecordToMap_Ok in Hm as Hlen. destruct Hlen as [Hlen _].
  rewrite propertiesLoop_zip by (by rewrite drop_0). rewrite drop_0. cbn.
  destruct (exportID title start) as [id| | |] eqn:Hid; try done. cbn.
  intros [= <-]. cbn. exists m, dateKey, date, titleKey. done.
Qed.

End snapshot_rows.

(** ** Column resolution *)

Section columns.
Import export.

Lemma firstEntry_head test names entries :
  firstEntry test names entries
  = head (base.filter (λ kv : string * string,
                         Is_true (anyName test (ToLower kv.1) names)) entries).
Proof.
  induction entries as [|[key value] entries IH]; [done|].
  cbn [firstEntry]. rewrite filter_cons. cbn [fst].
  destruct (anyName test (ToLower key) names) eqn:Hany.
  - by rewrite decide_True by exact I.
  - rewrite decide_False by (intros []). exact IH.
Qed.

Lemma firstEntry_Some test names entries kv :
  firstEntry test names entries = Some kv →
  kv ∈ entries ∧ anyName test (ToLower kv.1) names = true.
Proof.
  rewrite firstEntry_head. intros Hhead.
  apply head_Some_elem_of, list_elem_of_filter in Hhead as [Hany Hin].
  split; [done|]. by apply Is_true_true.
Qed.

Lemma firstEntry_None test names entries :
  firstEntry test names entries = None ↔
  ∀ kv, kv ∈ entries → anyName test (ToLower kv.1) names = false.
Proof.
  induction entries as [|[key value] entries IH]; cbn [firstEntry].
  - split; [|done]. intros _ kv Hin. by apply elem_of_nil in Hin.
  - destruct (anyName test (ToLower key) names) eqn:Hany.
    + split; [done|]. intros Hall.
      specialize (Hall (key, value)). cbn in Hall.
      rewrite Hany in Hall. discriminate Hall. apply elem_of_cons. by left.
    + rewrite IH. split.
      * intros Hall kv [->|Hin]%elem_of_cons; [done|by apply Hall].
      * intros Hall kv Hin. apply Hall, elem_of_cons. by right.
Qed.

(** An order that visits the entries of [m]. *)
Lemma visits_lookup (entries : list (string * string)) (m : gmap string string) kv :
  entries ≡ₚ map_to_list m → kv ∈ entries ↔ m !! kv.1 = Some kv.2.
Proof.
  intros Hperm. rewrite Hperm. destruct kv as [k v].
  apply elem_of_map_to_list.
Qed.

(** [findFirstColumn] over fair orders: the first header, in the order of
    the first loop, that equals a synonym; failing that the first header, in
    the order of the second loop, that contains one; failing that the empty
    pair. *)
Lemma findFirstColumn_spec names (m : gmap string string) exact partial :
  exact ≡ₚ map_to_list m → partial ≡ₚ map_to_list m →
  let r := findFirstColumn names exact partial in
  ((∃ k v, m !! k = Some v ∧ matchesExact names k = true) →
   m !! r.1 = Some r.2 ∧ matchesExact names r.1 = true ∧
   firstEntry String.eqb names exact = Some r) ∧
  ((∀ k v, m !! k = Some v → matchesExact names k = false) →
   (∃ k v, m !! k = Some v ∧ matchesPartial names k = true) →
   m !! r.1 = Some r.2 ∧ matchesPartial names r.1 = true ∧
   firstEntry Contains names partial = Some r) ∧
  ((∀ k v, m !! k = Some v →
           matchesExact names k = false ∧ matchesPartial names k = false) →
   r = (EmptyString, EmptyString)).
Proof.
  intros Hexact Hpartial r. subst r. unfold findFirstColumn.
  split; [|split].
  - intros (k & v & Hlook & Hmatch).
    destruct (firstEntry String.eqb names exact) as [kv|] eqn:Hfirst.
    + apply firstEntry_Some in Hfirst as [Hin Hany].
      apply (visits_lookup _ m) in Hin; done.
    + exfalso. rewrite firstEntry_None in Hfirst.
      specialize (Hfirst (k, v)). unfold matchesExact in Hmatch.
      cbn in Hfirst. rewrite Hfirst in Hmatch; [done|].
      by apply (visits_lookup _ m).
  - intros Hnone (k & v & Hlook & Hmatch).
    destruct (firstEntry String.eqb names exact) as [kv|] eqn:Hfirst.
    { exfalso. apply firstEntry_Some in Hfirst as [Hin Hany].
      apply (visits_lookup _ m) in Hin; [|done].
      specialize (Hnone _ _ Hin). unfold matchesExact in Hnone. congruence. }
    destruct (firstEntry Contains names partial) as [kv|] eqn:Hsecond.
    + apply firstEntry_Some in Hsecond as [Hin Hany].
      apply (visits_lookup _ m) in Hin; done.
    + exfalso. rewrite firstEntry_None in Hsecond.
      specialize (Hsecond (k, v)). unfold matchesPartial in Hmatch.
      cbn in Hsecond. rewrite Hsecond in Hmatch; [done|].
      by apply (visits_lookup _ m).
  - intros Hnone.
    destruct (firstEntry String.eqb names exact) as [kv|] eqn:Hfirst.
    { exfalso. apply firstEntry_Some in Hfirst as [Hin Hany].
      apply (visits_lookup _ m) in Hin; [|done].
      destruct (Hnone _ _ Hin) as [Hno _]. unfold matchesExact in Hno.
      congruence. }
    destruct (firstEntry Contains names partial) as [kv|] eqn:Hsecond; [|done].
    exfalso. apply firstEntry_Some in Hsecond as [Hin Hany].
    apply (visits_lookup _ m) in Hin; [|done].
    destruct (Hnone _ _ Hin) as [_ Hno]. unfold matchesPartial in Hno.
    congruence.
Qed.



Lemma resolved_or_not names (m : gmap string string) :
  (∃ k v, m !! k = Some v ∧ resolves names m k) ∨ unresolved names m.
Proof.
  destruct (decide (Exists (λ kv : string * string,
                              matchesExact names kv.1 = true)
                           (map_to_list m))) as [Hex|Hno].
  { left. apply Exists_exists in Hex as ([k v] & Hin & Hmatch).
    apply elem_of_map_to_list in Hin. exists k, v. split; [done|by left]. }
  assert (Hexact : ∀ k v, m !! k = Some v → matchesExact names k = false).
  { intros k v Hlook. destruct (matchesExact names k) eqn:Hmatch; [|done].
    exfalso. apply Hno, Exists_exists. exists (k, v).
    split; [by apply elem_of_map_to_list|done]. }
  destruct (decide (Exists (λ kv : string * string,
                              matchesPartial names kv.1 = true)
                           (map_to_list m))) as [Hex|Hno'].
  { left. apply Exists_exists in Hex as ([k v] & Hin & Hmatch).
    apply elem_of_map_to_list in Hin. exists k, v. split; [done|by right]. }
  right. intros k v Hlook. split; [by eapply Hexact|].
  destruct (matchesPartial names k) eqn:Hmatch; [|done].
  exfalso. apply Hno', Exists_exists. exists (k, v).
  split; [by apply elem_of_map_to_list|done].
Qed.

(** The result of [findFirstColumn], when the empty header matches no
    synonym: a header that resolves, with its cell, or the empty pair when
    the row has none. *)
Lemma findFirstColumn_resolves names (m : gmap string string) exact partial :
  exact ≡ₚ map_to_list m → partial ≡ₚ map_to_list m →
  matchesExact names EmptyString = false →
  matchesPartial names EmptyString = false →
  let r := findFirstColumn names exact partial in
  (r.1 ≠ EmptyString ∧ m !! r.1 = Some r.2 ∧ resolves names m r.1) ∨
  (r = (EmptyString, EmptyString) ∧ unresolved names m).
Proof.
  intros Hexact Hpartial Hempty1 Hempty2 r.
  destruct (findFirstColumn_spec names m exact partial Hexact Hpartial)
    as (Hfirst & Hsecond & Hnone).
  fold r in Hfirst, Hsecond, Hnone.
  destruct (resolved_or_not names m) as [(k & v & Hlook & Hres)|Hunres].
  - left.
    assert (Hr : m !! r.1 = Some r.2 ∧ resolves names m r.1).
    { destruct Hres as [Hmatch|[Hno Hmatch]].
      - destruct Hfirst as (? & ? & _); [by eauto|]. split; [done|by left].
      - destruct Hsecond as (? & ? & _); [done|by eauto|].
        split; [done|by right]. }
    destruct Hr as [Hlook' Hres']. split; [|done].
    intros Heq. rewrite Heq in Hres'.
    destruct Hres' as [Hmatch|[_ Hmatch]]; congruence.
  - right. split; [by apply Hnone|done].
Qed.

End columns.

(** ** The date column of a row *)

Section date_column.
Import export.

Lemma findFirstColumn_entry names exact partial :
  let r := findFirstColumn names exact partial in
  r ∈ exact ∨ r ∈ partial ∨ r = (EmptyString, EmptyString).
Proof.
  unfold findFirstColumn.
  destruct (firstEntry String.eqb names exact) as [kv|] eqn:Hfirst.
  { left. by apply firstEntry_Some in Hfirst as [? _]. }
  destruct (firstEntry Contains names partial) as [kv|] eqn:Hsecond.
  { right; left. by apply firstEntry_Some in Hsecond as [? _]. }
  by right; right.
Qed.

Lemma dateColumn_Ok o s (m : gmap string string) dateKey date :
  fair (o DateExact) → fair (o DatePartial) →
  dateColumn o s m = Ok (dateKey, date) → m !! dateKey = Some date.
Proof.
  intros Hexact Hpartial. unfold dateColumn.
  destruct (String.eqb (DateProperty (config s)) EmptyString).
  - pose proof (findFirstColumn_entry ["date"; "when"; "period"]
                  (o DateExact m) (o DatePartial m)) as Hentry.
    destruct (findFirstColumn _ _ _) as [k v]. cbn in Hentry.
    destruct (String.eqb k EmptyString) eqn:Hk; [done|].
    intros [= -> ->].
    destruct Hentry as [Hin|[Hin|[= -> ->]]]; [..|done].
    + by apply (visits_lookup _ m) in Hin.
    + by apply (visits_lookup _ m) in Hin.
  - destruct (m !! DateProperty (config s)) as [v|] eqn:Hlook; [|done].
    by intros [= <- <-].
Qed.

End date_column.

(** ** Pages of the live source *)

Section pages.
Import notion api.


Lemma pageProperty_dated s all st entry st' :
  entry ∈ all →
  datedFrom all (st_start st) (st_end st) →
  pageProperty s st entry = Ok st' →
  datedFrom all (st_start st') (st_end st').
Proof.
  intros Hin Hdated. destruct entry as [name p]. unfold pageProperty.
  destruct (prop_Type p) eqn:Htype; try (intros [= <-]; exact Hdated);
    try (destruct (String.eqb (prop_Name p) EmptyString);
         intros [= <-]; exact Hdated).
  assert (Hset : ∀ r,
    match prop_Date p with
    | Some date =>
        match date_End date with
        | Some end_ =>
            Ok {| st_title := st_title st;
                  st_start := dt_Time (date_Start date);
                  st_end := dt_Time end_;
                  st_propertiesList := st_propertiesList st |}
        | None => Panic "nil pointer dereference"
        end
    | None => Panic "nil pointer dereference"
    end = (Ok r : result pageState) → datedFrom all (st_start r) (st_end r)).
  { intros r. destruct (prop_Date p) as [d|] eqn:Hd; [|done].
    destruct (date_End d) as [e|] eqn:He; [|done].
    intros [= <-]. right. exists name, p, d, e. done. }
  destruct (String.eqb (DateProperty (config s)) EmptyString);
    [by apply Hset|].
  destruct (String.eqb name (DateProperty (config s))); [by apply Hset|].
  destruct (String.eqb (prop_Name p) EmptyString);
    intros [= <-]; exact Hdated.
Qed.

Lemma pagePropertiesLoop_dated s all st entries st' :
  (∀ entry, entry ∈ entries → entry ∈ all) →
  datedFrom all (st_start st) (st_end st) →
  pagePropertiesLoop s st entries = Ok st' →
  datedFrom all (st_start st') (st_end st').
Proof.
  revert st. induction entries as [|entry entries IH]; intros st Hsub Hdated;
    cbn [pagePropertiesLoop].
  - by intros [= <-].
  - destruct (pageProperty s st entry) as [st1| | |] eqn:Hstep; try done.
    cbn. apply IH.
    + intros e He. apply Hsub, elem_of_cons. by right.
    + eapply pageProperty_dated; [|exact Hdated|exact Hstep].
      apply Hsub, elem_of_cons. by left.
Qed.

(** One field adds itself to the list, under its display name, exactly when
    it is listed. *)
Lemma pageProperty_list s st entry st' :
  pageProperty s st entry = Ok st' →
  st_propertiesList st'
  = st_propertiesList st
    ++ (if isListedField (config s) entry then [named entry] else []).
Proof.
  destruct entry as [name p]. unfold pageProperty, isListedField, named.
  cbn [fst snd].
  destruct (prop_Type p) eqn:Htype;
    try (intros [= <-]; cbn; by rewrite ?app_nil_r).
  destruct (String.eqb (DateProperty (config s)) EmptyString); cbn [orb negb].
  { destruct (prop_Date p) as [d|]; [|done].
    destruct (date_End d); [|done]. intros [= <-]. cbn.
    by rewrite app_nil_r. }
  destruct (String.eqb name (DateProperty (config s))); cbn [negb].
  { destruct (prop_Date p) as [d|]; [|done].
    destruct (date_End d); [|done]. intros [= <-]. cbn.
    by rewrite app_nil_r. }
  by intros [= <-].
Qed.

Lemma pagePropertiesLoop_list s st entries st' :
  pagePropertiesLoop s st entries = Ok st' →
  st_propertiesList st'
  = st_propertiesList st
    ++ (named <$> base.filter (λ e, Is_true (isListedField (config s) e))
                              entries).
Proof.
  revert st. induction entries as [|entry entries IH]; intros st;
    cbn [pagePropertiesLoop].
  - intros [= <-]. cbn. by rewrite app_nil_r.
  - destruct (pageProperty s st entry) as [st1| | |] eqn:Hstep; try done.
    cbn [mbind outcome_bind]. intros Hloop.
    rewrite (IH _ Hloop), (pageProperty_list _ _ _ _ Hstep).
    rewrite filter_cons, <-app_assoc. f_equal.
    destruct (decide _) as [Hl|Hl];
      destruct (isListedField (config s) entry); done.
Qed.

(** What a successful [eventFromPage] went through. *)
Lemma eventFromPage_Ok fuel o s page e :
  eventFromPage fuel o s page = Ok e →
  ∃ m st,
    page_Properties page = DatabasePageProperties m ∧
    pagePropertiesLoop s
      {| st_title := EmptyString; st_start := zeroTime; st_end := zeroTime;
         st_propertiesList := [] |} (o m) = Ok st ∧
    Title e = st_title st ∧ Start e = st_start st ∧ End e = st_end st ∧
    Properties e = sortSlice lessByName (st_propertiesList st) ∧
    getPageContentPlain fuel s (page_ID page) = Ok (Content e) ∧
    ID e = page_ID page +:+ "@notion-ical".
Proof.
  unfold eventFromPage.
  destruct (page_Properties page) as [m|]; [|done].
  destruct (pagePropertiesLoop _ _ _) as [st| | |] eqn:Hloop; try done. cbn.
  destruct (getPageContentPlain _ _ _) as [content| | |] eqn:Hc; try done.
  cbn. intros [= <-]. exists m, st. done.
Qed.

(** *** [sort.Slice] *)

Lemma insertSorted_Permutation {A} (less : A → A → bool) x l :
  insertSorted less x l ≡ₚ x :: l.
Proof.
  induction l as [|y l IH]; cbn [insertSorted]; [done|].
  destruct (less x y); [done|]. rewrite IH. apply Permutation_swap.
Qed.

Lemma sortSlice_from {A} (less : A → A → bool) l sorted :
  fold_left (λ sorted x, insertSorted less x sorted) l sorted ≡ₚ sorted ++ l.
Proof.
  revert sorted. induction l as [|x l IH]; intros sorted; cbn [fold_left].
  - by rewrite app_nil_r.
  - rewrite IH, insertSorted_Permutation.
    by rewrite (Permutation_middle sorted l x).
Qed.

Lemma sortSlice_Permutation {A} (less : A → A → bool) l :
  sortSlice less l ≡ₚ l.
Proof. unfold sortSlice. by rewrite sortSlice_from. Qed.

Lemma Less_asymmetric a b : Less a b = true → Less b a = false.
Proof.
  unfold Less. rewrite (String.compare_antisym a b).
  by destruct (String.compare b a).
Qed.

Lemma insertSorted_Sorted x l :
  Sorted nameLe l → Sorted nameLe (insertSorted lessByName x l).
Proof.
  induction 1 as [|y l Hsorted IH Hhd]; cbn [insertSorted].
  - by repeat constructor.
  - destruct (lessByName x y) eqn:Hless.
    + constructor; [by constructor|]. constructor.
      unfold nameLe. by apply Less_asymmetric.
    + constructor; [exact IH|].
      destruct l as [|z l]; cbn [insertSorted].
      * by constructor.
      * destruct (lessByName x z); constructor; [done|].
        by inversion Hhd.
Qed.

Lemma sortSlice_Sorted l : Sorted nameLe (sortSlice lessByName l).
Proof.
  unfold sortSlice.
  assert (H : ∀ sorted, Sorted nameLe sorted →
    Sorted nameLe (fold_left (λ sorted x, insertSorted lessByName x sorted)
                             l sorted)).
  { induction l as [|x l IH]; intros sorted Hs; cbn [fold_left]; [done|].
    by apply IH, insertSorted_Sorted. }
  apply H. constructor.
Qed.

End pages.

(** ** Start and end of an event *)

Section start_end.
Import notion.

Lemma Before_irreflexive t : Before t t = false.
Proof.
  unfold Before. by rewrite !Z.ltb_irrefl, andb_false_r.
Qed.

(** C1 (the claim as stated fails).  The row
    [2023/01/05 10:00 → 2023/01/02 10:00] gives an event that ends three
    days before it starts: the two parts are parsed on their own and never
    compared. *)
Lemma C1_counterexample :
  (e ← export.eventFromCSVRow (λ _, example.ascending) (example.snapshot [])
         example.backwardsHeaders example.backwardsRecord;
   Ok (Start e, End e, Before (End e) (Start e)))
  = Ok (time.Date 2023 1 5 10 0 0 0 UTC, time.Date 2023 1 2 10 0 0 0 UTC,
        true).
Proof. vm_compute. reflexivity. Qed.

(** C1 (amended).  Without an arrow the parser returns its one time twice,
    so an event of the snapshot source whose row has no arrow ends when it
    starts, and not before.  An event of the live source has the start and
    the end of a date field of its page that carries both, or the zero time
    twice. *)
Theorem C1_end_is_start_without_arrow :
  (∀ r zone t1,
     Contains r arrow = false →
     parseNotionDate r zone = Ok t1 →
     parseNotionDateRange r zone = Ok (t1, t1)) ∧
  (∀ o s headers record e,
     fair (o export.DateExact) → fair (o export.DatePartial) →
     (∀ cell, cell ∈ record → Contains cell arrow = false) →
     export.eventFromCSVRow o s headers record = Ok e →
     End e = Start e ∧ Before (End e) (Start e) = false) ∧
  (∀ fuel o s page m e,
     fair o →
     page_Properties page = DatabasePageProperties m →
     api.eventFromPage fuel o s page = Ok e →
     (Start e = api.zeroTime ∧ End e = api.zeroTime) ∨
     ∃ name p d end_,
       m !! name = Some p ∧ prop_Type p = DBPropTypeDate ∧
       prop_Date p = Some d ∧ date_End d = Some end_ ∧
       Start e = dt_Time (date_Start d) ∧ End e = dt_Time end_).
Proof.
  assert (Hparser : ∀ r zone t1,
     Contains r arrow = false →
     parseNotionDate r zone = Ok t1 →
     parseNotionDateRange r zone = Ok (t1, t1)).
  { intros r zone t1 Hno Hparse. unfold parseNotionDateRange.
    rewrite (SplitN2_no_separator _ _ Hno), Hparse. done. }
  split; [exact Hparser|split].
  - intros o s headers record e Hexact Hpartial Hcells Hevent.
    apply eventFromCSVRow_Ok in Hevent
      as (m & dateKey & date & titleKey & Hm & Hdate & Hrange & _).
    apply dateColumn_Ok in Hdate; [|done..].
    destruct (row_map_lookup _ _ _ _ _ Hm Hdate) as [_ Hcell].
    assert (Hsame : End e = Start e).
    { unfold parseNotionDateRange in Hrange.
      rewrite (SplitN2_no_separator _ _ (Hcells _ Hcell)) in Hrange.
      destruct (parseNotionDate date _) as [t| | |]; try done.
      cbn in Hrange. by injection Hrange as <- <-. }
    split; [done|]. rewrite Hsame. apply Before_irreflexive.
  - intros fuel o s page m e Hfair Hprops Hevent.
    apply eventFromPage_Ok in Hevent
      as (m' & st & Hprops' & Hloop & _ & -> & -> & _).
    rewrite Hprops in Hprops'. injection Hprops' as <-.
    apply (pagePropertiesLoop_dated _ (o m)) in Hloop; [|done|by left].
    destruct Hloop as [?|(name & p & d & end_ & Hin & ?)]; [by left|].
    right. exists name, p, d, end_. split; [|done].
    rewrite (Hfair m) in Hin. by apply elem_of_map_to_list in Hin.
Qed.

(** The row of the specification's example has no arrow. *)
Lemma C1_witness :
  ∃ e,
    export.eventFromCSVRow (λ _, example.ascending) (example.snapshot [])
      example.partyHeaders example.partyRecord = Ok e ∧
    End e = Start e ∧ Before (End e) (Start e) = false.
Proof.
  assert (Hrow : ∀ e,
    export.eventFromCSVRow (λ _, example.ascending) (example.snapshot [])
      example.partyHeaders example.partyRecord = Ok e →
    End e = Start e ∧ Before (End e) (Start e) = false).
  { intros e He.
    refine (proj1 (proj2 C1_end_is_start_without_arrow) _ _ _ _ e _ _ _ He).
    - intros m. reflexivity.
    - intros m. reflexivity.
    - intros cell Hin. apply list_elem_of_In in Hin.
      destruct Hin as [<-|[<-|[<-|[]]]]; reflexivity. }
  destruct (export.eventFromCSVRow (λ _, example.ascending)
              (example.snapshot []) example.partyHeaders example.partyRecord)
    as [e| | |] eqn:Hevent; try (vm_compute in Hevent; discriminate Hevent).
  exists e. split; [reflexivity|]. by apply Hrow.
Defined.

End start_end.

(** ** Date-only inputs *)

Section date_only.


Lemma layout_slash v f :
  parse_loop 11 "2006/01/02" v f = run slashDate (finish EmptyString) v f.
Proof. reflexivity. Qed.
Lemma layout_long v f :
  parse_loop 16 "January 2, 2006" v f = run longDate (finish EmptyString) v f.
Proof. reflexivity. Qed.
Lemma layout_slash24 v f :
  parse_loop 17 "2006/01/02 15:04" v f = run slashDate clock24 v f.
Proof. reflexivity. Qed.
Lemma layout_slash12 v f :
  parse_loop 19 "2006/01/02 3:00 PM" v f = run slashDate clock12 v f.
Proof. reflexivity. Qed.
Lemma layout_long24 v f :
  parse_loop 22 "January 2, 2006 15:04" v f = run longDate clock24 v f.
Proof. reflexivity. Qed.
Lemma layout_long12 v f :
  parse_loop 24 "January 2, 2006 3:00 PM" v f = run longDate clock12 v f.
Proof. reflexivity. Qed.

Lemma skip_empty v : skip v EmptyString = Some v.
Proof. reflexivity. Qed.

Lemma length_zero s : (String.length s =? 0)%nat = true → s = EmptyString.
Proof. by destruct s. Qed.

(** A layout that matched the whole value leaves nothing for what a longer
    layout has after it. *)
Lemma run_finish chunks v f f' :
  run chunks (finish EmptyString) v f = Some f' →
  ∀ k, run chunks k v f = k EmptyString f'.
Proof.
  revert v f. induction chunks as [|[prefix s] chunks IH]; intros v f;
    cbn [run].
  - unfold finish. rewrite skip_empty. cbn [mbind option_bind].
    destruct (String.length v =? 0)%nat eqn:Hlen; [|done].
    apply length_zero in Hlen as ->. by intros [= <-].
  - unfold stage. intros Hrun k.
    destruct (skip v prefix) as [v1|]; [|done].
    cbn [mbind option_bind] in *.
    destruct (parse_std s v1 f) as [[v2 f2]|]; [|done].
    cbn [mbind option_bind] in *. by apply IH.
Qed.

Lemma clock24_empty f : clock24 EmptyString f = None.
Proof. reflexivity. Qed.
Lemma clock12_empty f : clock12 EmptyString f = None.
Proof. reflexivity. Qed.

(** A digit matches no letter, even up to case. *)
Lemma digit_matchByte c1 c2 :
  isDigitByte c1 = true → matchByte c1 c2 = true → c2 = c1.
Proof.
  intros Hdigit. unfold matchByte.
  destruct (Ascii.eqb c1 c2) eqn:Heq; [by apply Ascii.eqb_eq in Heq|].
  cbn [orb]. unfold isDigitByte in Hdigit.
  apply andb_true_iff in Hdigit as [Hlo Hhi].
  apply Z.leb_le in Hlo, Hhi.
  assert (Hlor : Z.lor (code c1) 32 = code c1).
  { assert (Hcases : code c1 = 48 ∨ code c1 = 49 ∨ code c1 = 50 ∨
                     code c1 = 51 ∨ code c1 = 52 ∨ code c1 = 53 ∨
                     code c1 = 54 ∨ code c1 = 55 ∨ code c1 = 56 ∨
                     code c1 = 57) by lia.
    repeat destruct Hcases as [->|Hcases]; try reflexivity.
    by rewrite Hcases. }
  rewrite Hlor. intros [[_ Ha]%andb_true_iff _]%andb_true_iff.
  apply Z.leb_le in Ha. lia.
Qed.

Lemma letter_not_digit c1 c2 :
  matchByte c1 c2 = true → isDigitByte c2 = false → isDigitByte c1 = false.
Proof.
  intros Hmatch Hletter. destruct (isDigitByte c1) eqn:Hdigit; [|done].
  rewrite (digit_matchByte _ _ Hdigit Hmatch) in Hletter. congruence.
Qed.


Lemma lookup_from_first i tab v j rest :
  Forall startsWithLetter tab →
  lookup_from i tab v = Some (j, rest) → isDigit v 0 = false.
Proof.
  intros Hall. revert i.
  induction Hall as [|name tab (c & r & -> & Hletter) _ IH]; intros i;
    cbn [lookup_from]; [done|].
  destruct (_ && _) eqn:Hhere; [|apply IH].
  intros _. apply andb_true_iff in Hhere as [Hlen Hmatch].
  destruct v as [|c1 v]; [done|].
  cbn in Hmatch. apply andb_true_iff in Hmatch as [Hmatch _].
  cbn. by eapply letter_not_digit.
Qed.

Lemma longMonthNames_letters : Forall startsWithLetter longMonthNames.
Proof. repeat constructor; by eexists _, _. Qed.

Lemma long_month_no_digit v f v' f' :
  parse_std stdLongMonth v f = Some (v', f') → isDigit v 0 = false.
Proof.
  unfold parse_std. intros Hparse. option_path Hparse.
  eapply lookup_from_first; [apply longMonthNames_letters|eassumption].
Qed.

Lemma long_year_digit v f v' f' :
  parse_std stdLongYear v f = Some (v', f') → isDigit v 0 = true.
Proof.
  unfold parse_std. intros Hparse. option_path Hparse.
  apply orb_false_iff in Heqb as [_ Hdigit].
  by apply negb_false_iff in Hdigit.
Qed.

Lemma run_slash_no_digit k v f :
  isDigit v 0 = false → run slashDate k v f = None.
Proof.
  intros Hdigit. cbn [run slashDate]. unfold stage at 1.
  rewrite skip_empty. cbn [mbind option_bind].
  destruct (parse_std stdLongYear v f) as [[v' f']|] eqn:Hyear; [|done].
  apply long_year_digit in Hyear. congruence.
Qed.

Lemma run_long_digit k v f :
  isDigit v 0 = true → run longDate k v f = None.
Proof.
  intros Hdigit. cbn [run longDate]. unfold stage at 1.
  rewrite skip_empty. cbn [mbind option_bind].
  destruct (parse_std stdLongMonth v f) as [[v' f']|] eqn:Hmonth; [|done].
  apply long_month_no_digit in Hmonth. congruence.
Qed.

Lemma run_slash_first k v f f' :
  run slashDate k v f = Some f' → isDigit v 0 = true.
Proof.
  destruct (isDigit v 0) eqn:Hdigit; [done|].
  by rewrite run_slash_no_digit.
Qed.

Lemma run_long_first k v f f' :
  run longDate k v f = Some f' → isDigit v 0 = false.
Proof.
  destruct (isDigit v 0) eqn:Hdigit; [|done].
  by rewrite run_long_digit.
Qed.

Lemma ParseInLocation_None layout v zone :
  parse_loop (S (String.length layout)) layout v fields0 = None →
  ParseInLocation layout v zone = None.
Proof. unfold ParseInLocation. by intros ->. Qed.

Lemma ParseInLocation_loop layout v zone t :
  ParseInLocation layout v zone = Some t →
  ∃ f, parse_loop (S (String.length layout)) layout v fields0 = Some f.
Proof.
  unfold ParseInLocation. destruct (parse_loop _ _ _ _) as [f|]; [eauto|done].
Qed.

(** A value that one of the two date formats matches on its own is matched
    by none of the four layouts of [parseNotionDate]. *)
Lemma date_only_rejected fd v zone t :
  fd ∈ notionDateFormats →
  ParseInLocation fd v zone = Some t →
  firstParse notionDateLayouts v zone = None.
Proof.
  intros Hfd Hparse. apply ParseInLocation_loop in Hparse as [f Hloop].
  apply firstParse_None. intros layout Hlayout.
  apply ParseInLocation_None.
  apply list_elem_of_In in Hfd, Hlayout.
  destruct Hfd as [<-|[<-|[]]].
  - (* January 2, 2006 *)
    change (parse_loop 16 "January 2, 2006" v fields0 = Some f) in Hloop.
    rewrite layout_long in Hloop.
    pose proof (run_long_first _ _ _ _ Hloop) as Hletter.
    pose proof (run_finish _ _ _ _ Hloop) as Hrest.
    destruct Hlayout as [<-|[<-|[<-|[<-|[]]]]].
    + change (parse_loop 22 "January 2, 2006 15:04" v fields0 = None).
      by rewrite layout_long24, Hrest, clock24_empty.
    + change (parse_loop 24 "January 2, 2006 3:00 PM" v fields0 = None).
      by rewrite layout_long12, Hrest, clock12_empty.
    + change (parse_loop 17 "2006/01/02 15:04" v fields0 = None).
      rewrite layout_slash24. by apply run_slash_no_digit.
    + change (parse_loop 19 "2006/01/02 3:00 PM" v fields0 = None).
      rewrite layout_slash12. by apply run_slash_no_digit.
  - (* 2006/01/02 *)
    change (parse_loop 11 "2006/01/02" v fields0 = Some f) in Hloop.
    rewrite layout_slash in Hloop.
    pose proof (run_slash_first _ _ _ _ Hloop) as Hdigit.
    pose proof (run_finish _ _ _ _ Hloop) as Hrest.
    destruct Hlayout as [<-|[<-|[<-|[<-|[]]]]].
    + change (parse_loop 22 "January 2, 2006 15:04" v fields0 = None).
      rewrite layout_long24. by apply run_long_digit.
    + change (parse_loop 24 "January 2, 2006 3:00 PM" v fields0 = None).
      rewrite layout_long12. by apply run_long_digit.
    + change (parse_loop 17 "2006/01/02 15:04" v fields0 = None).
      by rewrite layout_slash24, Hrest, clock24_empty.
    + change (parse_loop 19 "2006/01/02 3:00 PM" v fields0 = None).
      by rewrite layout_slash12, Hrest, clock12_empty.
Qed.

End date_only.

Section date_only_claim.

(** C2 (the claim as stated fails).  The date-only input [2023/01/02] is
    rejected: every layout goes on with a space and a time. *)
Lemma C2_counterexample :
  parseNotionDateRange "2023/01/02" UTC = Err (ErrParseDate "2023/01/02").
Proof. vm_compute. reflexivity. Qed.

(** C2 (amended).  The parser accepts no date-only string.  A time it
    returns was read by a layout made of a date format, a space and a time
    format; an input that a date format matches on its own is rejected with
    a parse error naming it.  In particular [2023/01/02] and
    [January 2, 2023] are rejected, and with a time, [2023/01/02 00:00]
    starts and ends at midnight of 2023-01-02 in the zone. *)
Theorem C2_date_needs_time (zone : Location) :
  (∀ d t, parseNotionDate d zone = Ok t →
     ∃ fd ft, fd ∈ notionDateFormats ∧ ft ∈ notionTimeFormats ∧
              ParseInLocation (fd +:+ " " +:+ ft) (TrimSpace d) zone = Some t) ∧
  (∀ fd d t, fd ∈ notionDateFormats →
     ParseInLocation fd (TrimSpace d) zone = Some t →
     parseNotionDate d zone = Err (ErrParseDate (TrimSpace d))) ∧
  parseNotionDateRange "2023/01/02" zone = Err (ErrParseDate "2023/01/02") ∧
  parseNotionDateRange "January 2, 2023" zone
  = Err (ErrParseDate "January 2, 2023") ∧
  parseNotionDateRange "2023/01/02 00:00" zone
  = Ok (Date 2023 1 2 0 0 0 0 zone, Date 2023 1 2 0 0 0 0 zone).
Proof.
  split; [|split; [|repeat split; reflexivity]].
  - intros d t. unfold parseNotionDate.
    destruct (firstParse _ _ _) as [t'|] eqn:Hfirst; [|done].
    intros [= <-]. apply firstParse_Some in Hfirst as (layout & Hin & Hparse).
    apply list_elem_of_In in Hin.
    destruct Hin as [<-|[<-|[<-|[<-|[]]]]].
    + exists "January 2, 2006", "15:04". repeat split; try done;
        apply list_elem_of_In; cbn; tauto.
    + exists "January 2, 2006", "3:00 PM". repeat split; try done;
        apply list_elem_of_In; cbn; tauto.
    + exists "2006/01/02", "15:04". repeat split; try done;
        apply list_elem_of_In; cbn; tauto.
    + exists "2006/01/02", "3:00 PM". repeat split; try done;
        apply list_elem_of_In; cbn; tauto.
  - intros fd d t Hfd Hparse. unfold parseNotionDate.
    by rewrite (date_only_rejected _ _ _ _ Hfd Hparse).
Qed.

(** The date-only input of the specification is matched by the date format
    [2006/01/02] on its own. *)
Lemma C2_witness :
  "2006/01/02" ∈ notionDateFormats ∧
  ParseInLocation "2006/01/02" (TrimSpace "2023/01/02") UTC
  = Some (Date 2023 1 2 0 0 0 0 UTC) ∧
  parseNotionDate "2023/01/02" UTC = Err (ErrParseDate (TrimSpace "2023/01/02")).
Proof.
  assert (Hfd : "2006/01/02" ∈ notionDateFormats)
    by (apply list_elem_of_In; cbn; tauto).
  split; [exact Hfd|]. split; [reflexivity|].
  apply (proj1 (proj2 (C2_date_needs_time UTC))
           "2006/01/02" "2023/01/02" (Date 2023 1 2 0 0 0 0 UTC) Hfd).
  reflexivity.
Defined.

End date_only_claim.

(** ** Column resolution of a row *)

Section column_claim.
Import export.


Lemma findFirstColumn_unresolved names (m : gmap string string) exact partial :
  exact ≡ₚ map_to_list m → partial ≡ₚ map_to_list m →
  unresolved names m →
  findFirstColumn names exact partial = (EmptyString, EmptyString).
Proof.
  intros Hexact Hpartial Hun.
  by apply (findFirstColumn_spec names m exact partial Hexact Hpartial).
Qed.

(** The date column found for a row without a configured one resolves. *)
Lemma dateColumn_resolves o s (m : gmap string string) dateKey date :
  fair (o DateExact) → fair (o DatePartial) →
  DateProperty (config s) = EmptyString →
  dateColumn o s m = Ok (dateKey, date) →
  m !! dateKey = Some date ∧ resolves dateNames m dateKey.
Proof.
  intros Hexact Hpartial Hnone. unfold dateColumn. rewrite Hnone. cbn.
  pose proof (findFirstColumn_resolves dateNames m (o DateExact m)
                (o DatePartial m) (Hexact m) (Hpartial m) eq_refl eq_refl)
    as Hres.
  fold dateNames.
  destruct (findFirstColumn dateNames _ _) as [k v]. cbn in Hres.
  destruct Hres as [(Hk & Hlook & Hres)|[[= -> ->] _]]; [|done].
  apply String.eqb_neq in Hk. rewrite Hk. by intros [= <- <-].
Qed.

(** The title column of a row resolves. *)
Lemma titleColumn_resolves o (m : gmap string string) titleKey title :
  fair (o TitleExact) → fair (o TitlePartial) →
  findFirstColumn titleNames (o TitleExact m) (o TitlePartial m)
  = (titleKey, title) →
  titleKey ≠ EmptyString →
  m !! titleKey = Some title ∧ resolves titleNames m titleKey.
Proof.
  intros Hexact Hpartial Hfind Hkey.
  pose proof (findFirstColumn_resolves titleNames m (o TitleExact m)
                (o TitlePartial m) (Hexact m) (Hpartial m) eq_refl eq_refl)
    as Hres.
  rewrite Hfind in Hres. cbn in Hres.
  by destruct Hres as [(_ & Hlook & Hres)|[[= -> ->] _]].
Qed.

(** C4.  A row with the columns [Name], [Date] and [When] and no
    configured date column: [Date] and [When] both equal a synonym, and the
    specification prefers [Date], the first of the two in the table and in
    the list of synonyms, as the comment of the code does ([Find first date
    column]).  [findFirstColumn] ranges over a Go map, so the column it
    takes depends on the order of that range: of two orders that visit
    every entry once, one gives [When] and the other [Date], and the event
    starts in 2024 or in 2023. *)
Theorem C4_map_order_decides_the_date_column :
  fair (@example.ascending string) ∧ fair (@example.descending string) ∧
  preferredColumn dateNames example.twoDatesHeaders = Some "Date" ∧
  (m ← headersAndRecordToMap example.twoDatesHeaders example.twoDatesRecord;
   dateColumn (λ _, example.ascending) (example.snapshot []) m)
  = Ok ("When", "2024/05/05 12:00") ∧
  (m ← headersAndRecordToMap example.twoDatesHeaders example.twoDatesRecord;
   dateColumn (λ _, example.descending) (example.snapshot []) m)
  = Ok ("Date", "2023/01/02 10:00") ∧
  (e ← eventFromCSVRow (λ _, example.ascending) (example.snapshot [])
         example.twoDatesHeaders example.twoDatesRecord;
   Ok (Year (Start e)))
  = Ok 2024 ∧
  (e ← eventFromCSVRow (λ _, example.descending) (example.snapshot [])
         example.twoDatesHeaders example.twoDatesRecord;
   Ok (Year (Start e)))
  = Ok 2023.
Proof.
  split; [intros m; reflexivity|].
  split; [intros m; apply reverse_Permutation|].
  repeat split; vm_compute; reflexivity.
Qed.

(** X20.  [findFirstColumn], for any orders in which its two loops visit
    every entry of the map of the row once: when a header equals one of
    the synonyms up to case, it returns such a header with its cell, the
    first in the order of the first loop; when none does but a header
    contains a synonym, such a header, the first in the order of the second
    loop; otherwise nothing.  When no header matches, the date resolution
    fails with [ErrNoDateProperty] and the title resolution with
    [ErrNoTitleProperty].  In a row with the headers [Event Name], [When]
    and [Notes], whatever the orders, the title is the cell of
    [Event Name], the date that of [When], and the properties are the
    column [Notes] alone. *)
Theorem columns_resolve_in_two_passes :
  (∀ names (m : gmap string string) exact partial,
     exact ≡ₚ map_to_list m → partial ≡ₚ map_to_list m →
     let r := findFirstColumn names exact partial in
     ((∃ k v, m !! k = Some v ∧ matchesExact names k = true) →
      m !! r.1 = Some r.2 ∧
      head (base.filter (λ kv : string * string,
                           Is_true (matchesExact names kv.1)) exact) = Some r) ∧
     ((∀ k v, m !! k = Some v → matchesExact names k = false) →
      (∃ k v, m !! k = Some v ∧ matchesPartial names k = true) →
      m !! r.1 = Some r.2 ∧
      head (base.filter (λ kv : string * string,
                           Is_true (matchesPartial names kv.1)) partial)
      = Some r) ∧
     (unresolved names m → r = (EmptyString, EmptyString))) ∧
  (∀ o s headers record m,
     fair (o DateExact) → fair (o DatePartial) →
     DateProperty (config s) = EmptyString →
     headersAndRecordToMap headers record = Ok m →
     unresolved dateNames m →
     eventFromCSVRow o s headers record = Err ErrNoDateProperty) ∧
  (∀ o s headers record m dateKey date range,
     fair (o TitleExact) → fair (o TitlePartial) →
     headersAndRecordToMap headers record = Ok m →
     dateColumn o s m = Ok (dateKey, date) →
     parseNotionDateRange date (Zone (config s)) = Ok range →
     unresolved titleNames m →
     eventFromCSVRow o s headers record = Err ErrNoTitleProperty) ∧
  (∀ o s title date notes e,
     (∀ site, fair (o site)) →
     DateProperty (config s) = EmptyString →
     eventFromCSVRow o s ["Event Name"; "When"; "Notes"] [title; date; notes]
     = Ok e →
     Title e = title ∧
     parseNotionDateRange date (Zone (config s)) = Ok (Start e, End e) ∧
     Properties e = [exportProperty "Notes" notes]).
Proof.
  split; [|split; [|split]].
  - intros names m exact partial Hexact Hpartial r.
    destruct (findFirstColumn_spec names m exact partial Hexact Hpartial)
      as (Hfirst & Hsecond & Hnone).
    fold r in Hfirst, Hsecond, Hnone. rewrite firstEntry_head in Hfirst, Hsecond.
    split; [|split].
    + intros Hex. by destruct (Hfirst Hex) as (? & _ & ?).
    + intros Hno Hex. by destruct (Hsecond Hno Hex) as (? & _ & ?).
    + exact Hnone.
  - intros o s headers record m Hexact Hpartial Hnone Hm Hun.
    unfold eventFromCSVRow. rewrite Hm. cbn [mbind outcome_bind].
    unfold dateColumn. rewrite Hnone. cbn [String.eqb].
    fold dateNames.
    by rewrite (findFirstColumn_unresolved dateNames m _ _
                  (Hexact m) (Hpartial m) Hun).
  - intros o s headers record m dateKey date [start end_]
      Hexact Hpartial Hm Hdate Hrange Hun.
    unfold eventFromCSVRow. rewrite Hm. cbn [mbind outcome_bind].
    rewrite Hdate. cbn [mbind outcome_bind]. rewrite Hrange.
    cbn [mbind outcome_bind]. fold titleNames.
    by rewrite (findFirstColumn_unresolved titleNames m _ _
                  (Hexact m) (Hpartial m) Hun).
  - intros o s title date notes e Hfair Hnone Hevent.
    apply eventFromCSVRow_Ok in Hevent
      as (m & dateKey & date' & titleKey & Hm & Hdate & Hrange & Htitle
          & Hkey & Hprops & _).
    assert (Hwhen : m !! "When" = Some date).
    { apply headersAndRecordToMap_Ok in Hm as [_ ->]. cbn.
      unfold insertEntry; cbn.
      rewrite lookup_insert_ne by done. by rewrite lookup_insert_eq. }
    assert (Hname : m !! "Event Name" = Some title).
    { apply headersAndRecordToMap_Ok in Hm as [_ ->]. cbn.
      unfold insertEntry; cbn.
      rewrite !lookup_insert_ne by done. by rewrite lookup_insert_eq. }
    apply dateColumn_resolves in Hdate as [Hdlook Hdres]; [|done..].
    apply titleColumn_resolves in Htitle as [Htlook Htres]; [|done..].
    destruct (row_map_lookup _ _ _ _ _ Hm Hdlook) as [Hdin _].
    destruct (row_map_lookup _ _ _ _ _ Hm Htlook) as [Htin _].
    assert (HdateKey : dateKey = "When").
    { apply list_elem_of_In in Hdin.
      destruct Hdres as [Hmatch|[Hno _]].
      - destruct Hdin as [<-|[<-|[<-|[]]]]; try done;
          vm_compute in Hmatch; discriminate Hmatch.
      - specialize (Hno _ _ Hwhen). vm_compute in Hno. discriminate Hno. }
    assert (HtitleKey : titleKey = "Event Name").
    { apply list_elem_of_In in Htin.
      destruct Htres as [Hmatch|[_ Hmatch]];
        destruct Htin as [<-|[<-|[<-|[]]]]; try done;
        vm_compute in Hmatch; discriminate Hmatch. }
    subst dateKey titleKey.
    rewrite Hwhen in Hdlook. injection Hdlook as <-.
    rewrite Hname in Htlook. injection Htlook as Htitle.
    split; [done|]. split; [done|]. rewrite Hprops. reflexivity.
Qed.

(** The row of the specification's example, visited in the order of
    [map_to_list]. *)
Lemma columns_resolve_in_two_passes_witness :
  ∃ e,
    eventFromCSVRow (λ _, example.ascending) (example.snapshot [])
      example.partyHeaders example.partyRecord = Ok e ∧
    Title e = "Party" ∧
    parseNotionDateRange "2023/01/02 10:00" UTC = Ok (Start e, End e) ∧
    Properties e = [exportProperty "Notes" "bring cake"].
Proof.
  destruct (eventFromCSVRow (λ _, example.ascending) (example.snapshot [])
              example.partyHeaders example.partyRecord)
    as [e| | |] eqn:Hevent; try (vm_compute in Hevent; discriminate Hevent).
  exists e. split; [reflexivity|].
  apply (proj2 (proj2 (proj2 columns_resolve_in_two_passes))
           (λ _, example.ascending) (example.snapshot [])
           "Party" "2023/01/02 10:00" "bring cake" e);
    [intros site m; reflexivity|reflexivity|exact Hevent].
Defined.

End column_claim.

(** ** Identifiers of the snapshot source *)

Section identifiers.
Import export.


Lemma eventFromCSVRow_derivedID o s headers record e :
  eventFromCSVRow o s headers record = Ok e → derivedID e.
Proof.
  intros He. by apply eventFromCSVRow_Ok in He as (?&?&?&?&?&?&?&?&?&?&?).
Qed.

Lemma derivedID_agree e1 e2 :
  derivedID e1 → derivedID e2 →
  Title e1 = Title e2 → Start e1 = Start e2 → ID e1 = ID e2.
Proof.
  unfold derivedID. intros H1 H2 Htitle Hstart.
  rewrite Htitle, Hstart, H2 in H1. by injection H1.
Qed.

(** C5.  An archive whose table has the columns [Name] and [Title] is read
    twice without a change.  Both headers equal a title synonym, and
    [findFirstColumn] ranges over a Go map where its comment says [Find
    first title column]: the two reads visit the map of the row in opposite
    orders, take the title from different columns, and give the same row
    different IDs. *)
Theorem C5_reading_twice_changes_the_id :
  fair (@example.ascending string) ∧ fair (@example.descending string) ∧
  fmap (M:=list) ID
  <$> ReadAll (λ _ _, example.ascending)
        (example.snapshot [example.twoTitlesHeaders; example.twoTitlesRecord])
  = Ok ["f083e0addc9b4da4b9b6e755f72c5712b2992a1f2bb7ea560e5ab43971549ec9@notion-ical-export"] ∧
  fmap (M:=list) ID
  <$> ReadAll (λ _ _, example.descending)
        (example.snapshot [example.twoTitlesHeaders; example.twoTitlesRecord])
  = Ok ["a0eca561c760db79e0278ac7fa68ffb6900f2055fc8232cda77d2b28d9e1c019@notion-ical-export"].
Proof.
  split; [intros m; reflexivity|].
  split; [intros m; apply reverse_Permutation|].
  split; vm_compute; reflexivity.
Qed.

(** X21.  The ID of an event of the snapshot source is the SHA-256 hash, in
    hexadecimal, of its title followed by its serialised start, and the tag
    [@notion-ical-export]: two rows, of any tables, orders and runs, whose
    title and start are equal have equal IDs. *)
Theorem ids_are_derived_from_title_and_start :
  (∀ o s headers record e,
     eventFromCSVRow o s headers record = Ok e →
     ∃ dateBytes,
       rfc3339.MarshalText (Start e) = Some dateBytes ∧
       ID e = hex.EncodeToString (sha256.Sum256 (Title e +:+ dateBytes))
              +:+ "@notion-ical-export") ∧
  (∀ o1 s1 headers1 record1 e1 o2 s2 headers2 record2 e2,
     eventFromCSVRow o1 s1 headers1 record1 = Ok e1 →
     eventFromCSVRow o2 s2 headers2 record2 = Ok e2 →
     Title e1 = Title e2 → Start e1 = Start e2 → ID e1 = ID e2).
Proof.
  split.
  - intros o s headers record e He.
    apply eventFromCSVRow_derivedID in He. unfold derivedID, exportID in He.
    destruct (rfc3339.MarshalText (Start e)) as [dateBytes|]; [|done].
    exists dateBytes. split; [done|]. by injection He.
  - intros o1 s1 headers1 record1 e1 o2 s2 headers2 record2 e2 H1 H2.
    apply derivedID_agree; by eapply eventFromCSVRow_derivedID.
Qed.

(** The event of the example has the same ID in a table with other
    columns, read in another order. *)
Lemma ids_are_derived_from_title_and_start_witness :
  ∃ e1 e2,
    eventFromCSVRow (λ _, example.ascending) (example.snapshot [])
      example.partyHeaders example.partyRecord = Ok e1 ∧
    eventFromCSVRow (λ _, example.descending) (example.snapshot [])
      example.movedHeaders example.movedRecord = Ok e2 ∧
    Title e1 = Title e2 ∧ Start e1 = Start e2 ∧ ID e1 = ID e2.
Proof.
  destruct (eventFromCSVRow (λ _, example.ascending) (example.snapshot [])
              example.partyHeaders example.partyRecord)
    as [e1| | |] eqn:H1; try (vm_compute in H1; discriminate H1).
  destruct (eventFromCSVRow (λ _, example.descending) (example.snapshot [])
              example.movedHeaders example.movedRecord)
    as [e2| | |] eqn:H2; try (vm_compute in H2; discriminate H2).
  assert (Htitle : Title e1 = Title e2).
  { vm_compute in H1, H2. injection H1 as <-. injection H2 as <-.
    reflexivity. }
  assert (Hstart : Start e1 = Start e2).
  { vm_compute in H1, H2. injection H1 as <-. injection H2 as <-.
    reflexivity. }
  exists e1, e2.
  split; [reflexivity|]. split; [reflexivity|].
  split; [exact Htitle|]. split; [exact Hstart|].
  exact (proj2 ids_are_derived_from_title_and_start
           _ _ _ _ e1 _ _ _ _ e2 H1 H2 Htitle Hstart).
Defined.

End identifiers.

(** ** The properties of an event *)

Section properties_claim.
Import notion.

(** C8.  The properties of an event of the live source are the fields of
    the page other than its title fields, the date fields used for the start
    and the end (all of them without a configured name, else the one of that
    name) and its relation fields, each under its display name, in the order
    of [strings.Compare] on the display names.  Those of an event of the
    snapshot source are the columns of the row other than the resolved date
    column and the resolved title column, in the order of the columns. *)
Theorem C8_properties_of_an_event :
  (∀ fuel o s page m e,
     fair o →
     page_Properties page = DatabasePageProperties m →
     api.eventFromPage fuel o s page = Ok e →
     Sorted nameLe (Properties e) ∧
     Properties e
     ≡ₚ named <$> base.filter (λ f, Is_true (isListedField (api.config s) f))
                              (map_to_list m)) ∧
  (∀ o s headers record e,
     export.eventFromCSVRow o s headers record = Ok e →
     ∃ m dateKey date titleKey,
       export.headersAndRecordToMap headers record = Ok m ∧
       export.dateColumn o s m = Ok (dateKey, date) ∧
       export.findFirstColumn ["name"; "title"]
         (o export.TitleExact m) (o export.TitlePartial m)
       = (titleKey, Title e) ∧
       Properties e
       = (λ kv : string * string, exportProperty kv.1 kv.2)
         <$> base.filter (λ kv : string * string,
                            kv.1 ≠ dateKey ∧ kv.1 ≠ titleKey)
                         (zip headers record)).
Proof.
  split.
  - intros fuel o s page m e Hfair Hprops Hevent.
    apply eventFromPage_Ok in Hevent
      as (m' & st & Hprops' & Hloop & _ & _ & _ & -> & _).
    rewrite Hprops in Hprops'. injection Hprops' as <-.
    split; [apply sortSlice_Sorted|].
    rewrite sortSlice_Permutation.
    rewrite (pagePropertiesLoop_list _ _ _ _ Hloop). cbn [app].
    by rewrite (Hfair m).
  - intros o s headers record e Hevent.
    apply eventFromCSVRow_Ok in Hevent
      as (m & dateKey & date & titleKey & Hm & Hdate & _ & Htitle & _
          & Hprops & _).
    exists m, dateKey, date, titleKey. done.
Qed.

(** A page with the fields [Zebra] and [Alpha] lists [Alpha] first. *)
Lemma C8_witness :
  ∃ e,
    api.eventFromPage 1 example.ascending example.meetingSource
      example.meetingPage = Ok e ∧
    NameString <$> Properties e = ["Alpha"; "Zebra"] ∧
    Sorted nameLe (Properties e).
Proof.
  destruct (api.eventFromPage 1 example.ascending example.meetingSource
              example.meetingPage) as [e| | |] eqn:Hevent;
    try (vm_compute in Hevent; discriminate Hevent).
  exists e. split; [reflexivity|].
  split.
  - vm_compute in Hevent. injection Hevent as <-. reflexivity.
  - refine (proj1 (proj1 C8_properties_of_an_event 1%nat example.ascending
                     example.meetingSource example.meetingPage
                     example.meetingFields e _ eq_refl Hevent)).
    intros m. reflexivity.
Defined.

End properties_claim.

Section new_source_api_witness.
Import notion api.

(** A schema with one date field is accepted. *)
Lemma C9_witness :
  fair (@example.ascending DatabaseProperty) ∧
  FindDatabaseByID example.meetingClient
    (DatabaseID example.meetingConfig) = inr example.meetingDatabase ∧
  dateFieldCount example.meetingConfig example.meetingSchema = 1%nat.
Proof.
  assert (Hfair : fair (@example.ascending DatabaseProperty))
    by (intros m; reflexivity).
  split; [exact Hfair|]. split; [reflexivity|].
  destruct (NewSourceAPI example.meetingClient example.ascending
              example.meetingConfig) as [s| | |] eqn:Hnew;
    try (vm_compute in Hnew; discriminate Hnew).
  exact (proj1 (C9_date_field_resolution example.meetingClient
                  example.ascending example.meetingConfig
                  example.meetingDatabase Hfair eq_refl) s Hnew).
Defined.

End new_source_api_witness.

(** ** The content of a page *)

Section content.
Import notion api.

(** The lines of a block are its own line and the lines of its pages. *)
Lemma blockLines_unfold b pages :
  blockLines (Node b pages)
  = (line ← convertBlockContentPlain b;
     below ← pagesLines pages;
     Ok (line :: below)).
Proof.
  cbn [blockLines].
  destruct (convertBlockContentPlain b) as [line| | |]; reflexivity.
Qed.




Lemma served_gives (s : SourceAPI) :
  (∀ id cursor pages,
     servesChildren (client s) id cursor pages → childrenGive s id cursor pages) ∧
  (∀ ts, servesBlocks (client s) ts → blocksGive s ts) ∧
  (∀ t, servesTree (client s) t → treeGives s t).
Proof.
  apply serves_mutind.
  - (* the last page *)
    intros id cursor ts next Hfind _ [n Hblocks].
    exists (S n). intros [|fuel] content Hfuel; [lia|].
    cbn [childrenLoop]. rewrite Hfind. cbn [Results HasMore].
    rewrite (Hblocks fuel content) by lia. cbn [pagesLines].
    destruct (listLines ts) as [here| | |]; try reflexivity.
    cbn. by rewrite app_nil_r.
  - (* a page and the next ones *)
    intros id cursor ts next pages Hfind _ [n Hblocks] _ [n' Hnext].
    exists (S (n + n')). intros [|fuel] content Hfuel; [lia|].
    cbn [childrenLoop]. rewrite Hfind. cbn [Results HasMore NextCursor PageSize].
    rewrite (Hblocks fuel content) by lia. cbn [pagesLines].
    destruct (listLines ts) as [here| | |]; try reflexivity.
    cbn [mbind outcome_bind]. rewrite (Hnext fuel) by lia.
    destruct (pagesLines pages) as [after| | |]; try reflexivity.
    cbn. by rewrite app_assoc.
  - (* no block *)
    exists 0%nat. intros fuel content _. cbn. by rewrite app_nil_r.
  - (* a block and the next ones *)
    intros [b pages] ts _ [n Htree] _ [n' Hblocks].
    exists (n + n')%nat. intros fuel content Hfuel.
    cbn [fmap list_fmap treeBlock blocksLoop listLines].
    rewrite blockLines_unfold.
    specialize (Htree fuel ltac:(lia)). cbn [treeBlock treePages] in Htree.
    specialize (Hblocks fuel).
    destruct (convertBlockContentPlain b) as [line| | |]; try reflexivity.
    cbn [mbind outcome_bind].
    destruct (HasChildren b).
    + rewrite Htree.
      destruct (pagesLines pages) as [below| | |]; try reflexivity.
      cbn [mbind outcome_bind]. rewrite Hblocks by lia.
      destruct (listLines ts) as [rest| | |]; try reflexivity.
      cbn. by rewrite <-!app_assoc.
    + rewrite Htree. cbn [pagesLines mbind outcome_bind].
      rewrite Hblocks by lia.
      destruct (listLines ts) as [rest| | |]; try reflexivity.
      cbn. by rewrite <-!app_assoc.
  - (* a block without children *)
    intros b Hnone. exists 0%nat. intros fuel _. cbn. by rewrite Hnone.
  - (* a block with children *)
    intros b pages Hsome _ [n Hchildren].
    exists n. intros fuel Hfuel. cbn. rewrite Hsome.
    rewrite (Hchildren fuel []) by lia.
    by destruct (pagesLines pages).
Qed.

Lemma getPageContentPlain_served (s : SourceAPI) id t :
  servesPage (client s) id t →
  ∃ n, ∀ fuel, (n ≤ fuel)%nat → getPageContentPlain fuel s id = pageLines t.
Proof.
  intros [Hfind Hbelow]. unfold getPageContentPlain, pageLines.
  destruct (HasChildren (treeBlock t)) eqn:Hhas.
  - destruct (proj1 (served_gives s) _ _ _ Hbelow) as [n Hchildren].
    exists n. intros fuel Hfuel. rewrite Hfind, Hhas.
    unfold getBlockChildrenContentPlain.
    rewrite (Hchildren fuel []) by lia.
    destruct (match kind (treeBlock t) with
              | ChildPageValue _ => Ok []
              | _ => line ← convertBlockContentPlain (treeBlock t); Ok [line]
              end) as [own| | |]; try reflexivity.
    cbn [mbind outcome_bind].
    by destruct (pagesLines (treePages t)).
  - exists 0%nat. intros fuel _. rewrite Hfind, Hhas, Hbelow.
    destruct (match kind (treeBlock t) with
              | ChildPageValue _ => Ok []
              | _ => line ← convertBlockContentPlain (treeBlock t); Ok [line]
              end) as [own| | |]; try reflexivity.
    cbn. by rewrite app_nil_r.
Qed.

Lemma serves_leaves (c : Client) (bs : list Block) :
  Forall (λ b, HasChildren b = false) bs →
  servesBlocks c ((λ b, Node b []) <$> bs).
Proof.
  induction 1 as [|b bs Hb _ IH]; cbn; constructor; [|exact IH].
  by apply serves_leaf.
Qed.

Lemma introTree_served :
  servesPage (client example.introSource) "intro" example.introTree.
Proof.
  split; [reflexivity|]. cbn [example.introTree treeBlock treePages HasChildren example.introBlock].
  apply (serves_more _ "intro" EmptyString
           [Node example.hiBlock []; Node example.aBlock []] "+"
           [[Node example.bBlock []]]).
  - reflexivity.
  - apply (serves_leaves _ [example.hiBlock; example.aBlock]).
    by repeat constructor.
  - apply (serves_last _ "intro" "+" [Node example.bBlock []] None).
    + reflexivity.
    + apply (serves_leaves _ [example.bBlock]). by repeat constructor.
Qed.

Lemma nestedTree_served :
  servesPage (client example.nestedSource) "top" example.nestedTree.
Proof.
  split; [reflexivity|]. cbn [example.nestedTree treeBlock treePages HasChildren example.topBlock].
  apply (serves_last _ "top" EmptyString
           [Node example.subBlock [[Node example.innerBlock []]]] None).
  - reflexivity.
  - constructor; [|constructor]. apply serves_node; [reflexivity|].
    apply (serves_last _ "sub" EmptyString [Node example.innerBlock []] None).
    + reflexivity.
    + apply (serves_leaves _ [example.innerBlock]). by repeat constructor.
Qed.

(** C6 (the claim as stated fails).  A page with a child page below it: the
    child page gives an empty line and the paragraph below it is inlined,
    where the specification skips the child page. *)
Lemma C6_counterexample :
  servesPage (client example.nestedSource) "top" example.nestedTree ∧
  getPageContentPlain 3 example.nestedSource "top"
  = Ok ["top"; EmptyString; "inner"] ∧
  skippingLines example.nestedTree = Ok ["top"].
Proof.
  split; [exact nestedTree_served|]. split; vm_compute; reflexivity.
Qed.

(** C6 (amended).  When the service holds the tree [t] under the block [id],
    the content of the page is, with enough fuel for the calls, the lines of
    the tree depth first: the line of the root (left out only when the root
    is a [notion.ChildPageBlock] value), then for each child, page after
    page and in the order of the page, its line followed by the lines of its
    own children.  A child page among the children is a block like any
    other: it gives the empty line and its children follow.  In particular
    the heading [Intro] above a paragraph [hi] and the bullets [a] and [b]
    gives the lines [# Intro], [hi], [- a], [- b]. *)
Theorem C6_content_is_depth_first :
  (∀ s id t,
     servesPage (client s) id t →
     ∃ n, ∀ fuel, (n ≤ fuel)%nat →
       getPageContentPlain fuel s id = pageLines t) ∧
  (∀ b pages,
     blockLines (Node b pages)
     = (line ← convertBlockContentPlain b;
        below ← pagesLines pages;
        Ok (line :: below))) ∧
  (∀ id children title,
     convertBlockContentPlain (mkBlock id children (ChildPageBlock title))
     = Ok EmptyString) ∧
  pageLines example.introTree = Ok ["# Intro"; "hi"; "- a"; "- b"].
Proof.
  split; [|split; [|split]].
  - exact getPageContentPlain_served.
  - exact blockLines_unfold.
  - reflexivity.
  - reflexivity.
Qed.

(** The service of the example holds the tree of the example, the children
    in two pages. *)
Lemma C6_witness :
  servesPage (client example.introSource) "intro" example.introTree ∧
  ∃ n, ∀ fuel, (n ≤ fuel)%nat →
    getPageContentPlain fuel example.introSource "intro"
    = Ok ["# Intro"; "hi"; "- a"; "- b"].
Proof.
  split; [exact introTree_served|].
  exact (proj1 C6_content_is_depth_first example.introSource "intro"
           example.introTree introTree_served).
Defined.

End content.

(** * Further properties of the code *)

Import bounds.

(** ** The date-range parser *)

Section parser_outcomes.

Lemma parseNotionDate_outcome d zone :
  (∃ t, parseNotionDate d zone = Ok t) ∨
  ((∀ t, parseNotionDate d zone ≠ Ok t) ∧
   parseNotionDate d zone = Err (ErrParseDate (TrimSpace d))).
Proof.
  unfold parseNotionDate. destruct (firstParse _ _ _) as [t|].
  - left. by exists t.
  - right. split; [intros t; discriminate|reflexivity].
Qed.

Lemma parseNotionTime_outcome d zone :
  (∃ t, parseNotionTime d zone = Ok t) ∨
  parseNotionTime d zone = Err (ErrParseDate (TrimSpace d)).
Proof.
  unfold parseNotionTime. destruct (firstParse _ _ _) as [t|].
  - left. by exists t.
  - by right.
Qed.

Lemma SplitN2_parts s sep :
  SplitN2 s sep = [s] ∨ ∃ before after, SplitN2 s sep = [before; after].
Proof.
  unfold SplitN2. destruct (cut s sep) as [[before after]|].
  - right. by exists before, after.
  - by left.
Qed.

Lemma parseNotionDateRange_outcome r zone :
  (∃ t1 t2, parseNotionDateRange r zone = Ok (t1, t2)) ∨
  (∃ part, part ∈ SplitN2 r arrow ∧
           (∀ t, parseNotionDate part zone ≠ Ok t) ∧
           parseNotionDateRange r zone = Err (ErrParseDate (TrimSpace part))).
Proof.
  unfold parseNotionDateRange.
  destruct (SplitN2_parts r arrow) as [->|(left & right & ->)].
  - destruct (parseNotionDate_outcome r zone) as [[t1 ->]|[Hno ->]]; cbn.
    + left. by exists t1, t1.
    + right. exists r. split; [apply list_elem_of_singleton; reflexivity|done].
  - destruct (parseNotionDate_outcome left zone) as [[t1 ->]|[Hno ->]]; cbn.
    + destruct (parseNotionDate_outcome right zone) as [[t2 ->]|[Hno ->]].
      * left. by exists t1, t2.
      * destruct (parseNotionTime_outcome right zone) as [[t2 ->]| ->]; cbn.
        -- left. by exists t1, (mergeNotionDateTime t1 t2).
        -- right. exists right. split; [|done].
           apply elem_of_cons; right. apply list_elem_of_singleton; reflexivity.
    + right. exists left. split; [apply elem_of_cons; by left|done].
Qed.

(** X1.  [parseNotionDateRange] returns a range or the error
    [ErrParseDate]; the error names, trimmed, a part of the input (the text
    before or after the arrow) that is no date with a time.  It never
    panics: [parts[0]] always exists. *)
Theorem parseNotionDateRange_fails_on_a_part (r : string) (zone : Location) :
  (∃ t1 t2, parseNotionDateRange r zone = Ok (t1, t2)) ∨
  (∃ part, part ∈ SplitN2 r arrow ∧
           (∀ t, parseNotionDate part zone ≠ Ok t) ∧
           parseNotionDateRange r zone = Err (ErrParseDate (TrimSpace part))).
Proof. apply parseNotionDateRange_outcome. Qed.

End parser_outcomes.

Section parser_bounds.

Lemma atoi4_range value n rest : atoi4 value = Some (n, rest) → 0 <= n <= 9999.
Proof.
  unfold atoi4.
  destruct value as [|a [|b [|c [|d value]]]]; try discriminate.
  destruct (isDigitByte a) eqn:Ha; [|discriminate].
  destruct (isDigitByte b) eqn:Hb; [|discriminate].
  destruct (isDigitByte c) eqn:Hc; [|discriminate].
  destruct (isDigitByte d) eqn:Hd; [|discriminate].
  cbn. intros [= <- <-].
  apply digit_range in Ha, Hb, Hc, Hd. lia.
Qed.

Lemma parse_std_year s value f value' f' :
  parse_std s value f = Some (value', f') → year_ok f → year_ok f'.
Proof.
  unfold year_ok. intros Hparse Hyear.
  destruct s; unfold parse_std in Hparse; try discriminate Hparse;
    cbv zeta in Hparse; option_path Hparse;
    try discriminate Hparse;
    injection Hparse as <- <-; cbn; try exact Hyear.
  by eapply atoi4_range.
Qed.

Lemma parse_loop_year fuel layout value f f' :
  parse_loop fuel layout value f = Some f' → year_ok f → year_ok f'.
Proof.
  revert layout value f. induction fuel as [|fuel IH]; intros layout value f;
    cbn [parse_loop]; [done|].
  destruct (nextStdChunk layout) as [[prefix s] suffix].
  destruct (skip value prefix) as [value1|]; [|done]. cbn.
  destruct s as [s|].
  - destruct (parse_std s value1 f) as [[value2 f2]|] eqn:Hstd; [|done]. cbn.
    intros Hloop Hok. eapply IH; [exact Hloop|].
    eapply parse_std_year; eauto.
  - destruct (_ =? _)%nat; [|done]. by intros [= <-].
Qed.

(** The fields [parse] hands to [time.Date]: in range, the year of four
    digits, no seconds. *)
Lemma ParseInLocation_year layout value loc t :
  ParseInLocation layout value loc = Some t →
  ∃ year month day hour min,
    t = Date year month day hour min 0 0 loc ∧ 0 <= year <= 9999 ∧
    inRange year month day hour min 0.
Proof.
  unfold ParseInLocation.
  destruct (parse_loop _ layout value fields0) as [f|] eqn:Hloop; [|done].
  apply parse_loop_year in Hloop as Hyear; [|unfold year_ok; cbn; lia].
  apply parse_loop_ok in Hloop as (Hmonth & Hhour & Hmin); [|apply fields0_ok].
  cbn. destruct (_ || _) eqn:Hday; [done|].
  apply orb_false_iff in Hday as [H1 H2].
  apply Z.ltb_ge in H1, H2.
  intros [= <-]. eexists _, _, _, _, _. split; [reflexivity|].
  split; [exact Hyear|]. unfold inRange.
  repeat split; try lia.
  - destruct (f_month f <? 0) eqn:E; [lia|]. apply Z.ltb_ge in E. lia.
  - destruct (f_month f <? 0) eqn:E; [lia|]. apply Z.ltb_ge in E. lia.
  - destruct (f_pmSet f && (f_hour f <? 12)); [lia|].
    destruct (f_amSet f && (f_hour f =? 12)); lia.
  - destruct (f_pmSet f && (f_hour f <? 12)) eqn:E.
    + apply andb_true_iff in E as [_ E]. apply Z.ltb_lt in E. lia.
    + destruct (f_amSet f && (f_hour f =? 12)); lia.
Qed.

Lemma noGaps_sound zone : noGaps zone → sound zone.
Proof.
  intros Hzone year month day hour min sec Hrange. cbv zeta.
  destruct (Hzone year month day hour min sec)
    as (-> & -> & -> & -> & -> & ->). exact Hrange.
Qed.

Lemma Date_inZone zone year month day hour min sec :
  sound zone → inRange year month day hour min sec →
  inZone zone (Date year month day hour min sec 0 zone).
Proof.
  intros Hzone Hrange. apply Hzone in Hrange. cbv zeta in Hrange.
  unfold inZone, valid, inRange, Date in *. cbn. repeat split; tauto || lia.
Qed.

Lemma Date_wellFormed zone year month day hour min :
  noGaps zone → 0 <= year <= 9999 → inRange year month day hour min 0 →
  wellFormed zone (Date year month day hour min 0 0 zone).
Proof.
  intros Hzone Hyear Hrange.
  destruct (Date_inZone zone year month day hour min 0
              (noGaps_sound _ Hzone) Hrange) as (Hvalid & Hnsec & Hloc).
  destruct (Date_keeps zone year month day hour min 0 0 (Hzone _ _ _ _ _ _))
    as (Hy & _ & _ & _ & _ & Hs).
  unfold wellFormed. rewrite Hy, Hs. done.
Qed.

Lemma firstParse_year layouts d zone t :
  firstParse layouts d zone = Some t →
  ∃ year month day hour min,
    t = Date year month day hour min 0 0 zone ∧ 0 <= year <= 9999 ∧
    inRange year month day hour min 0.
Proof.
  intros (layout & _ & Hp)%firstParse_Some. by eapply ParseInLocation_year.
Qed.

Lemma parseNotionDate_year d zone t :
  parseNotionDate d zone = Ok t →
  ∃ year month day hour min,
    t = Date year month day hour min 0 0 zone ∧ 0 <= year <= 9999 ∧
    inRange year month day hour min 0.
Proof.
  unfold parseNotionDate.
  destruct (firstParse _ _ _) as [t'|] eqn:Hf; [|done].
  intros [= <-]. by eapply firstParse_year.
Qed.

Lemma parseNotionTime_year d zone t :
  parseNotionTime d zone = Ok t →
  ∃ year month day hour min,
    t = Date year month day hour min 0 0 zone ∧ 0 <= year <= 9999 ∧
    inRange year month day hour min 0.
Proof.
  unfold parseNotionTime.
  destruct (firstParse _ _ _) as [t'|] eqn:Hf; [|done].
  intros [= <-]. by eapply firstParse_year.
Qed.

Lemma mergeNotionDateTime_inZone zone date t :
  sound zone → inZone zone date → inZone zone t →
  inZone zone (mergeNotionDateTime date t).
Proof.
  intros Hzone (Hdate & _ & _) (Ht & _ & Hloc). unfold mergeNotionDateTime.
  rewrite Hloc. apply Date_inZone; [done|].
  unfold valid, inRange in *. tauto.
Qed.

Lemma mergeNotionDateTime_wellFormed zone date t :
  noGaps zone → wellFormed zone date → wellFormed zone t →
  wellFormed zone (mergeNotionDateTime date t).
Proof.
  intros Hzone (Hdate & Hyear & _) (Ht & _ & Hsec & _ & Hloc).
  unfold mergeNotionDateTime. rewrite Hloc, Hsec.
  apply Date_wellFormed; [done|done|].
  unfold valid, inRange in *. rewrite Hsec in Ht. tauto.
Qed.

Lemma parseNotionDateRange_Ok r zone t1 t2 :
  parseNotionDateRange r zone = Ok (t1, t2) →
  ∃ left rest,
    SplitN2 r arrow = left :: rest ∧ parseNotionDate left zone = Ok t1 ∧
    ((rest = [] ∧ t2 = t1) ∨
     (∃ right, rest = [right] ∧ parseNotionDate right zone = Ok t2) ∨
     (∃ right t, rest = [right] ∧ (∀ t', parseNotionDate right zone ≠ Ok t') ∧
                 parseNotionTime right zone = Ok t ∧
                 t2 = mergeNotionDateTime t1 t)).
Proof.
  unfold parseNotionDateRange.
  destruct (SplitN2_parts r arrow) as [->|(left & right & ->)].
  - destruct (parseNotionDate r zone) as [t| | |] eqn:Hleft; try discriminate.
    cbn. intros [= <- <-]. exists r, []. auto.
  - destruct (parseNotionDate left zone) as [t| | |] eqn:Hleft;
      try discriminate.
    cbn. intros Hright. exists left, [right]. split; [done|].
    destruct (parseNotionDate right zone) as [t'| | |] eqn:Hdate.
    + injection Hright as <- <-. split; [done|]. right. left. by exists right.
    + destruct (parseNotionTime right zone) as [t'| | |] eqn:Htime;
        try discriminate.
      cbn in Hright. injection Hright as <- <-. split; [done|].
      right. right. exists right, t'.
      repeat split; try done. intros t''. by rewrite Hdate.
    + unfold parseNotionDate in Hdate. by destruct (firstParse _ _ _).
    + unfold parseNotionDate in Hdate. by destruct (firstParse _ _ _).
Qed.

Lemma parseNotionDateRange_inZone r zone t1 t2 :
  sound zone → parseNotionDateRange r zone = Ok (t1, t2) →
  inZone zone t1 ∧ inZone zone t2.
Proof.
  intros Hzone (left & rest & _ & Hleft & Hrest)%parseNotionDateRange_Ok.
  assert (Hdate : ∀ d t, parseNotionDate d zone = Ok t → inZone zone t).
  { intros d t (year & month & day & hour & min & -> & _ & Hrange)
      %parseNotionDate_year. by apply Date_inZone. }
  apply Hdate in Hleft. split; [done|].
  destruct Hrest as [[_ ->]|[(right & _ & Hright)|(right & t & _ & _ & Ht & ->)]].
  - done.
  - by eapply Hdate.
  - apply mergeNotionDateTime_inZone; [done|done|].
    apply parseNotionTime_year in Ht
      as (year & month & day & hour & min & -> & _ & Hrange).
    by apply Date_inZone.
Qed.

Lemma parseNotionDateRange_wellFormed r zone t1 t2 :
  noGaps zone → parseNotionDateRange r zone = Ok (t1, t2) →
  wellFormed zone t1 ∧ wellFormed zone t2.
Proof.
  intros Hzone (left & rest & _ & Hleft & Hrest)%parseNotionDateRange_Ok.
  assert (Hdate : ∀ d t, parseNotionDate d zone = Ok t → wellFormed zone t).
  { intros d t (year & month & day & hour & min & -> & Hyear & Hrange)
      %parseNotionDate_year. by apply Date_wellFormed. }
  apply Hdate in Hleft. split; [done|].
  destruct Hrest as [[_ ->]|[(right & _ & Hright)|(right & t & _ & _ & Ht & ->)]].
  - done.
  - by eapply Hdate.
  - apply mergeNotionDateTime_wellFormed; [done|done|].
    apply parseNotionTime_year in Ht
      as (year & month & day & hour & min & -> & Hyear & Hrange).
    by apply Date_wellFormed.
Qed.

(** X2.  The parser hands [time.Date] fields in range only, so no overflow
    is normalised and a parsed time can differ from the text only where the
    zone skips the wall-clock time read.  In every zone both ends of a
    parsed range are times with a reading in range, no fraction of a second
    and the zone of the caller; in a zone that skips no reading (UTC, a
    fixed offset) they have the fields read: a year of four digits and no
    seconds. *)
Theorem parsed_range_is_well_formed (r : string) (zone : Location)
    (t1 t2 : Time) :
  parseNotionDateRange r zone = Ok (t1, t2) →
  (sound zone → inZone zone t1 ∧ inZone zone t2) ∧
  (noGaps zone → wellFormed zone t1 ∧ wellFormed zone t2).
Proof.
  intros Hrange. split; intros Hzone.
  - by eapply parseNotionDateRange_inZone.
  - by eapply parseNotionDateRange_wellFormed.
Qed.

Lemma noGaps_UTC : noGaps UTC.
Proof. intros year month day hour min sec. repeat split. Qed.

Lemma sound_newYork : sound example.newYork.
Proof.
  intros year month day hour min sec Hrange. cbv zeta.
  unfold inRange in *. cbn.
  destruct (_ && _); [lia|tauto].
Qed.

Lemma parsed_range_is_well_formed_witness :
  noGaps UTC ∧ sound example.newYork ∧
  (∃ t1 t2,
     parseNotionDateRange "2023/01/02 10:00 → 11:30" UTC = Ok (t1, t2) ∧
     wellFormed UTC t1 ∧ wellFormed UTC t2) ∧
  (∃ t1 t2,
     parseNotionDateRange "March 12, 2023 1:00 → 2:30" example.newYork
     = Ok (t1, t2) ∧
     inZone example.newYork t1 ∧ inZone example.newYork t2).
Proof.
  split; [exact noGaps_UTC|]. split; [exact sound_newYork|]. split.
  - eexists _, _. split; [reflexivity|].
    exact (proj2 (parsed_range_is_well_formed
                    "2023/01/02 10:00 → 11:30" UTC _ _ eq_refl) noGaps_UTC).
  - eexists _, _. split; [reflexivity|].
    exact (proj1 (parsed_range_is_well_formed
                    "March 12, 2023 1:00 → 2:30" example.newYork _ _ eq_refl)
             sound_newYork).
Defined.

End parser_bounds.

Section twelve_hour_clock.

Lemma parse_std_min s value f value' f' :
  parse_std s value f = Some (value', f') → isMinute s = false →
  f_min f' = f_min f.
Proof.
  intros Hparse Hs.
  destruct s; try discriminate Hs; unfold parse_std in Hparse;
    try discriminate Hparse;
    cbv zeta in Hparse; option_path Hparse;
    try discriminate Hparse;
    injection Hparse as <- <-; reflexivity.
Qed.

Lemma finish_same prefix value f f' : finish prefix value f = Some f' → f' = f.
Proof.
  unfold finish. destruct (skip value prefix) as [v|]; [|done]. cbn.
  destruct (_ =? _)%nat; [|done]. by intros [= <-].
Qed.

Lemma run_min chunks prefix value f f' :
  Forall (λ c : string * std, isMinute c.2 = false) chunks →
  run chunks (finish prefix) value f = Some f' → f_min f' = f_min f.
Proof.
  intros Hall. revert value f.
  induction Hall as [|[p s] chunks Hs _ IH]; intros value f; cbn [run].
  - by intros ->%finish_same.
  - unfold stage. destruct (skip value p) as [v1|]; [|done]. cbn.
    destruct (parse_std s v1 f) as [[v2 f2]|] eqn:Hstd; [|done]. cbn.
    intros ->%IH. by eapply parse_std_min.
Qed.

Lemma ParseInLocation_minute layout value zone t :
  ParseInLocation layout value zone = Some t →
  ∃ f year month day hour,
    parse_loop (S (String.length layout)) layout value fields0 = Some f ∧
    t = Date year month day hour (f_min f) 0 0 zone.
Proof.
  unfold ParseInLocation.
  destruct (parse_loop _ layout value fields0) as [f|]; [|done]. cbn.
  destruct (_ || _); [done|]. intros [= <-]. by eexists f, _, _, _, _.
Qed.

Lemma layout_hour12 v f :
  parse_loop 8 "3:00 PM" v f = run hour12 (finish EmptyString) v f.
Proof. reflexivity. Qed.

Lemma hour12_on_the_hour layout value zone t :
  wholeHours zone →
  layout ∈ ["3:00 PM"; "January 2, 2006 3:00 PM"; "2006/01/02 3:00 PM"] →
  ParseInLocation layout value zone = Some t → Minute t = 0.
Proof.
  intros Hzone Hin (f & year & month & day & hour & Hloop & ->)
    %ParseInLocation_minute.
  assert (f_min f = 0) as ->; [|apply Hzone].
  apply list_elem_of_In in Hin. destruct Hin as [<-|[<-|[<-|[]]]].
  - change (parse_loop 8 "3:00 PM" value fields0 = Some f) in Hloop.
    rewrite layout_hour12 in Hloop.
    apply run_min in Hloop; [done|]. by repeat constructor.
  - change (parse_loop 24 "January 2, 2006 3:00 PM" value fields0 = Some f)
      in Hloop.
    rewrite layout_long12 in Hloop.
    change (run (longDate ++ [(" ", stdHour12); (":00 ", stdPM)])
                (finish EmptyString) value fields0 = Some f) in Hloop.
    apply run_min in Hloop; [done|]. by repeat constructor.
  - change (parse_loop 19 "2006/01/02 3:00 PM" value fields0 = Some f)
      in Hloop.
    rewrite layout_slash12 in Hloop.
    change (run (slashDate ++ [(" ", stdHour12); (":00 ", stdPM)])
                (finish EmptyString) value fields0 = Some f) in Hloop.
    apply run_min in Hloop; [done|]. by repeat constructor.
Qed.

(** X3.  The 12-hour layout [3:00 PM] spells its minutes [00] literally, so
    it reads times on the hour only.  In a zone whose transitions move the
    clock by whole hours, a time with minutes other than zero comes from
    the 24-hour layout, alone or after one of the two date layouts. *)
Theorem minutes_need_the_24_hour_clock (zone : Location) (d : string)
    (t : Time) :
  wholeHours zone →
  Minute t ≠ 0 →
  (parseNotionTime d zone = Ok t →
   ParseInLocation "15:04" (TrimSpace d) zone = Some t) ∧
  (parseNotionDate d zone = Ok t →
   ∃ fd, fd ∈ notionDateFormats ∧
         ParseInLocation (fd +:+ " 15:04") (TrimSpace d) zone = Some t).
Proof.
  intros Hzone Hmin. split.
  - unfold parseNotionTime, notionTimeFormats. cbn [firstParse].
    destruct (ParseInLocation "15:04" _ _) as [t'|]; [by intros [= <-]|].
    destruct (ParseInLocation "3:00 PM" _ _) as [t'|] eqn:H12; [|done].
    intros [= <-]. destruct Hmin.
    eapply hour12_on_the_hour; [done| |exact H12]. apply elem_of_cons; by left.
  - unfold parseNotionDate.
    destruct (firstParse _ _ _) as [t'|] eqn:Hf; [|done].
    intros [= <-]. apply firstParse_Some in Hf as (layout & Hin & Hp).
    apply list_elem_of_In in Hin. destruct Hin as [<-|[<-|[<-|[<-|[]]]]].
    + exists "January 2, 2006". split; [apply elem_of_cons; by left|done].
    + destruct Hmin. eapply hour12_on_the_hour; [done| |exact Hp].
      apply elem_of_cons; right. apply elem_of_cons; by left.
    + exists "2006/01/02".
      split; [apply elem_of_cons; right; apply elem_of_cons; by left|done].
    + destruct Hmin. eapply hour12_on_the_hour; [done| |exact Hp].
      do 2 (apply elem_of_cons; right). apply elem_of_cons; by left.
Qed.

Lemma minutes_need_the_24_hour_clock_witness :
  wholeHours UTC ∧
  Minute (Date 0 1 1 17 30 0 0 UTC) ≠ 0 ∧
  parseNotionTime "17:30" UTC = Ok (Date 0 1 1 17 30 0 0 UTC) ∧
  ParseInLocation "15:04" (TrimSpace "17:30") UTC
  = Some (Date 0 1 1 17 30 0 0 UTC) ∧
  parseNotionTime "5:30 PM" UTC = Err (ErrParseDate "5:30 PM").
Proof.
  assert (Hzone : wholeHours UTC) by (intros year month day hour; reflexivity).
  assert (Hmin : Minute (Date 0 1 1 17 30 0 0 UTC) ≠ 0) by (cbn; lia).
  split; [exact Hzone|].
  split; [exact Hmin|]. split; [reflexivity|]. split; [|reflexivity].
  apply (proj1 (minutes_need_the_24_hour_clock UTC "17:30" _ Hzone Hmin)).
  reflexivity.
Defined.

(** Where a transition moves the clock by half an hour the 12-hour layout
    can give minutes: on Lord Howe Island [2:00 AM] of 2023-10-01 is
    skipped, [time.Date] builds 02:30, and no 24-hour layout reads the
    text. *)
Lemma half_hour_gap_moves_a_time_on_the_hour :
  (t ← parseNotionDate "2023/10/01 2:00 AM" lordHowe; Ok (Hour t, Minute t))
  = Ok (2, 30) ∧
  ParseInLocation "2006/01/02 15:04" "2023/10/01 2:00 AM" lordHowe = None ∧
  ParseInLocation "January 2, 2006 15:04" "2023/10/01 2:00 AM" lordHowe = None.
Proof. repeat split; reflexivity. Qed.

End twelve_hour_clock.

(** ** The snapshot source *)

Section row_maps.
Import export.

Lemma fold_insert_last (l : list (string * string)) m key :
  fold_left insertEntry l m !! key
  = match last (base.filter (λ kv : string * string, kv.1 = key) l) with
    | Some kv => Some kv.2
    | None => m !! key
    end.
Proof.
  revert m. induction l as [|[k v] l IH]; intros m; cbn [fold_left]; [done|].
  rewrite IH, filter_cons. unfold insertEntry. cbn [fst snd].
  destruct (decide (k = key)) as [->|Hne].
  - rewrite last_cons. destruct (last _); [done|].
    by rewrite lookup_insert_eq.
  - destruct (last _); [done|]. by rewrite lookup_insert_ne.
Qed.

Lemma headersAndRecordToMap_total headers record :
  length headers = length record →
  headersAndRecordToMap headers record
  = Ok (fold_left insertEntry (zip headers record) ∅).
Proof.
  intros Hlen. unfold headersAndRecordToMap.
  apply Nat.eqb_eq in Hlen as Heqb. rewrite Heqb. cbn [negb].
  rewrite fillMap_zip by (by rewrite drop_0). by rewrite drop_0.
Qed.

(** X4.  When a row has as many cells as there are headers, its map holds,
    for every header, the cell of the last column with that header: of two
    columns with the same name, the right one wins. *)
Theorem last_duplicate_header_wins (headers record : list string) :
  length headers = length record →
  ∃ m, headersAndRecordToMap headers record = Ok m ∧
       ∀ key, m !! key
              = snd <$> last (base.filter (λ kv : string * string, kv.1 = key)
                                          (zip headers record)).
Proof.
  intros Hlen. rewrite headersAndRecordToMap_total by done.
  eexists. split; [reflexivity|]. intros key.
  rewrite fold_insert_last. by destruct (last _).
Qed.

Lemma last_duplicate_header_wins_witness :
  length ["Name"; "Date"; "Name"] = length ["a"; "2023/01/02 10:00"; "b"] ∧
  ∃ m, headersAndRecordToMap ["Name"; "Date"; "Name"]
                             ["a"; "2023/01/02 10:00"; "b"] = Ok m ∧
       m !! "Name" = Some "b".
Proof.
  split; [reflexivity|].
  destruct (last_duplicate_header_wins ["Name"; "Date"; "Name"]
              ["a"; "2023/01/02 10:00"; "b"] eq_refl) as (m & Hm & Hlast).
  exists m. split; [exact Hm|]. rewrite Hlast. reflexivity.
Defined.

End row_maps.

Section row_outcomes.
Import export.

Lemma dateColumn_outcome o s (m : gmap string string) :
  (∃ dateKey date, dateColumn o s m = Ok (dateKey, date)) ∨
  dateColumn o s m = Err ErrNoDateProperty.
Proof.
  unfold dateColumn. destruct (String.eqb (DateProperty (config s)) _).
  - destruct (findFirstColumn _ _ _) as [dateKey date].
    destruct (String.eqb dateKey _); [by right|left; eauto].
  - destruct (m !! _) as [date|]; [left; eauto|by right].
Qed.

Lemma exportID_Ok title start :
  0 <= Year start <= 9999 → -86400 < Offset start < 86400 →
  ∃ id, exportID title start = Ok id.
Proof.
  intros Hyear Hzone. unfold exportID, rfc3339.MarshalText.
  destruct (_ || _) eqn:Hy.
  { apply orb_true_iff in Hy as [Hy|Hy]; apply Z.ltb_lt in Hy; lia. }
  destruct (24 <=? _) eqn:Hz; [|eauto].
  apply Z.leb_le in Hz.
  assert (Z.abs (Offset start ÷ 60) < 1440); [|
    pose proof (Z.div_lt_upper_bound (Z.abs (Offset start ÷ 60)) 60 24); lia].
  pose proof (Z.quot_lt_upper_bound (Z.abs (Offset start)) 60 1440).
  rewrite <-Z.quot_abs by lia. change (Z.abs 60) with 60. lia.
Qed.

Lemma parseNotionDateRange_marshals r zone t1 t2 :
  marshals zone → parseNotionDateRange r zone = Ok (t1, t2) →
  0 <= Year t1 <= 9999 ∧ -86400 < Offset t1 < 86400.
Proof.
  intros Hzone (left & rest & _ & Hleft & _)%parseNotionDateRange_Ok.
  apply parseNotionDate_year in Hleft
    as (year & month & day & hour & min & -> & Hyear & _).
  exact (Hzone year month day hour min 0 Hyear).
Qed.

Lemma eventFromCSVRow_cases o s headers record :
  marshals (Zone (config s)) →
  (length headers ≠ length record →
   eventFromCSVRow o s headers record = Err ErrCSVReadLength) ∧
  (length headers = length record →
   ∃ m,
     headersAndRecordToMap headers record = Ok m ∧
     ((dateColumn o s m = Err ErrNoDateProperty ∧
       eventFromCSVRow o s headers record = Err ErrNoDateProperty) ∨
      ∃ dateKey date,
        dateColumn o s m = Ok (dateKey, date) ∧
        ((∃ part,
            part ∈ SplitN2 date arrow ∧
            (∀ t, parseNotionDate part (Zone (config s)) ≠ Ok t) ∧
            eventFromCSVRow o s headers record
            = Err (ErrParseDate (TrimSpace part))) ∨
         (∃ range,
            parseNotionDateRange date (Zone (config s)) = Ok range ∧
            (((findFirstColumn ["name"; "title"]
                 (o TitleExact m) (o TitlePartial m)).1 = EmptyString ∧
              eventFromCSVRow o s headers record = Err ErrNoTitleProperty) ∨
             ((findFirstColumn ["name"; "title"]
                 (o TitleExact m) (o TitlePartial m)).1 ≠ EmptyString ∧
              ∃ e, eventFromCSVRow o s headers record = Ok e)))))).
Proof.
  intros Hzone. unfold eventFromCSVRow. split; intros Hlen.
  { unfold headersAndRecordToMap.
    apply Nat.eqb_neq in Hlen. by rewrite Hlen. }
  rewrite headersAndRecordToMap_total by done. cbn.
  eexists. split; [reflexivity|].
  set (m := fold_left insertEntry _ _).
  destruct (dateColumn_outcome o s m) as [(dateKey & date & ->)| ->]; cbn;
    [|by left].
  right. exists dateKey, date. split; [reflexivity|].
  destruct (parseNotionDateRange_outcome date (Zone (config s)))
    as [(t1 & t2 & Hrange)|(part & Hpart & Hno & ->)]; cbn.
  2:{ left. by exists part. }
  right. exists (t1, t2). split; [exact Hrange|].
  rewrite Hrange. cbn.
  destruct (findFirstColumn _ _ _) as [titleKey title]. cbn [fst].
  destruct (String.eqb titleKey _) eqn:Hkey.
  { apply String.eqb_eq in Hkey. by left. }
  apply String.eqb_neq in Hkey. right. split; [done|].
  rewrite propertiesLoop_zip by (by rewrite drop_0). cbn.
  apply (parseNotionDateRange_marshals _ _ _ _ Hzone) in Hrange
    as [Hyear Hoffset].
  destruct (exportID_Ok title t1 Hyear Hoffset) as [id ->]. cbn.
  eauto.
Qed.

(** X5.  The answers of [eventFromCSVRow], case by case, in a zone whose
    times can be serialised.  When the row and the headers differ in length
    it returns the error of the unmatching lengths, and only then.
    Otherwise it returns [ErrNoDateProperty] when the date column does not
    resolve; [ErrParseDate] with the trimmed text of a part of the date
    cell that is no date with a time; [ErrNoTitleProperty] when the date
    cell is a range and the title column does not resolve; and an event in
    the remaining case.  It never panics (the indices [headers[i]] and
    [record[i]] are in range), and the serialisation of the start for the
    ID never fails. *)
Theorem eventFromCSVRow_outcome (o : site → range_order string)
    (s : SourceExport) (headers record : list string) :
  marshals (Zone (config s)) →
  (length headers ≠ length record →
   eventFromCSVRow o s headers record = Err ErrCSVReadLength) ∧
  (length headers = length record →
   ∃ m,
     headersAndRecordToMap headers record = Ok m ∧
     ((dateColumn o s m = Err ErrNoDateProperty ∧
       eventFromCSVRow o s headers record = Err ErrNoDateProperty) ∨
      ∃ dateKey date,
        dateColumn o s m = Ok (dateKey, date) ∧
        ((∃ part,
            part ∈ SplitN2 date arrow ∧
            (∀ t, parseNotionDate part (Zone (config s)) ≠ Ok t) ∧
            eventFromCSVRow o s headers record
            = Err (ErrParseDate (TrimSpace part))) ∨
         (∃ range,
            parseNotionDateRange date (Zone (config s)) = Ok range ∧
            (((findFirstColumn ["name"; "title"]
                 (o TitleExact m) (o TitlePartial m)).1 = EmptyString ∧
              eventFromCSVRow o s headers record = Err ErrNoTitleProperty) ∨
             ((findFirstColumn ["name"; "title"]
                 (o TitleExact m) (o TitlePartial m)).1 ≠ EmptyString ∧
              ∃ e, eventFromCSVRow o s headers record = Ok e)))))).
Proof. apply eventFromCSVRow_cases. Qed.

Lemma marshals_UTC : marshals UTC.
Proof. intros year month day hour min sec Hyear. cbn. lia. Qed.

Lemma eventFromCSVRow_outcome_witness :
  marshals (Zone (config (example.snapshot []))) ∧
  eventFromCSVRow (λ _, example.ascending) (example.snapshot [])
    ["Name"; "Date"] ["Launch"] = Err ErrCSVReadLength ∧
  ∃ e, eventFromCSVRow (λ _, example.ascending) (example.snapshot [])
         example.partyHeaders example.partyRecord = Ok e.
Proof.
  split; [exact marshals_UTC|]. split.
  - apply (proj1 (eventFromCSVRow_outcome (λ _, example.ascending)
                    (example.snapshot []) ["Name"; "Date"] ["Launch"]
                    marshals_UTC)).
    cbn. lia.
  - destruct (proj2 (eventFromCSVRow_outcome (λ _, example.ascending)
                       (example.snapshot []) example.partyHeaders
                       example.partyRecord marshals_UTC) eq_refl)
      as (m & Hm & [[_ He]|(dateKey & date & _ & [(part & _ & _ & He)|
            (range & _ & [[_ He]|[_ He]])])]);
      first [exact He | vm_compute in He; discriminate He].
Defined.

End row_outcomes.

Section all_rows.
Import export.

Lemma readRows_Ok o s headers i rows failure events events' :
  readRows o s headers i rows failure events = Ok events' →
  failure = None ∧
  ∃ new, events' = events ++ new ∧ length new = length rows ∧
    ∀ j row, rows !! j = Some row →
      ∃ e, new !! j = Some e ∧
           eventFromCSVRow (o (i + j)%nat) s headers row = Ok e.
Proof.
  revert i events. induction rows as [|record rows IH]; intros i events;
    cbn [readRows].
  - destruct failure; [done|]. intros [= <-]. split; [done|].
    exists []. rewrite app_nil_r. repeat split. intros j row Hj.
    by rewrite lookup_nil in Hj.
  - destruct (eventFromCSVRow (o i) s headers record) as [e| | |] eqn:He;
      try done. cbn.
    intros (Hfail & new & -> & Hlen & Hrows)%IH. split; [done|].
    exists (e :: new). rewrite <-app_assoc. repeat split; [cbn; lia|].
    intros [|j] row Hj; cbn in Hj.
    + injection Hj as <-. exists e. by rewrite Nat.add_0_r.
    + destruct (Hrows j row Hj) as (e' & Hnew & He').
      exists e'. split; [done|]. by rewrite Nat.add_succ_r.
Qed.

Lemma ReadAll_Ok o s events :
  ReadAll o s = Ok events →
  ∃ f headers rows,
    Open (archive s) (name s) = inr f ∧ records f = headers :: rows ∧
    failure f = None ∧ length events = length rows ∧
    ∀ i row, rows !! i = Some row →
      ∃ e, events !! i = Some e ∧
           eventFromCSVRow (o i) s headers row = Ok e.
Proof.
  unfold ReadAll. destruct (Open _ _) as [err|f]; [done|].
  destruct (records f) as [|headers rows] eqn:Hrecords; [done|].
  intros (Hfail & new & -> & Hlen & Hrows)%readRows_Ok.
  exists f, headers, rows. by repeat split.
Qed.

(** X6.  When [ReadAll] of the snapshot source returns events, the table
    was opened and read to its end without a read error, and the events are
    those of the rows after the header row, one for each row and in the
    order of the rows. *)
Theorem ReadAll_gives_one_event_for_each_row (o : nat → site → range_order string)
    (s : SourceExport) (events : list Event) :
  ReadAll o s = Ok events →
  ∃ f headers rows,
    Open (archive s) (name s) = inr f ∧ records f = headers :: rows ∧
    failure f = None ∧ length events = length rows ∧
    ∀ i row, rows !! i = Some row →
      ∃ e, events !! i = Some e ∧
           eventFromCSVRow (o i) s headers row = Ok e.
Proof. apply ReadAll_Ok. Qed.

Lemma ReadAll_gives_one_event_for_each_row_witness :
  ∃ events,
    ReadAll (λ _ _, example.ascending)
      (example.snapshot [example.partyHeaders; example.partyRecord;
                         example.partyRecord]) = Ok events ∧
    length events = 2%nat.
Proof.
  destruct (ReadAll (λ _ _, example.ascending)
              (example.snapshot [example.partyHeaders; example.partyRecord;
                                 example.partyRecord]))
    as [events| | |] eqn:Hread; try (vm_compute in Hread; discriminate Hread).
  exists events. split; [reflexivity|].
  destruct (ReadAll_gives_one_event_for_each_row _ _ _ Hread)
    as (f & headers & rows & Hopen & Hrecords & _ & Hlen & _).
  injection Hopen as <-. injection Hrecords as <- <-. exact Hlen.
Defined.

Lemma readRows_first_error o s headers i rows failure events k row err :
  rows !! k = Some row →
  (∀ j row', (j < k)%nat → rows !! j = Some row' →
     ∃ e, eventFromCSVRow (o (i + j)%nat) s headers row' = Ok e) →
  eventFromCSVRow (o (i + k)%nat) s headers row = Err err →
  readRows o s headers i rows failure events = Err err.
Proof.
  revert i k events. induction rows as [|record rows IH]; intros i k events.
  { by rewrite lookup_nil. }
  cbn [readRows]. destruct k as [|k]; cbn [lookup list_lookup].
  - intros [= ->] _. rewrite Nat.add_0_r. by intros ->.
  - intros Hrow Hbefore Herr.
    destruct (Hbefore 0%nat record) as [e He]; [lia|done|].
    rewrite Nat.add_0_r in He. rewrite He. cbn.
    apply (IH (S i) k); [done| |by rewrite Nat.add_succ_comm].
    intros j row' Hj Hrow'. rewrite Nat.add_succ_comm.
    apply Hbefore; [lia|done].
Qed.

(** X7.  The first row that [eventFromCSVRow] rejects decides the answer of
    [ReadAll]: it is the error of that row, whatever the rows before it gave
    and whatever follows it in the table, a read error included.  No event
    is returned. *)
Theorem ReadAll_fails_with_the_first_bad_row (o : nat → site → range_order string)
    (s : SourceExport) (f : csvFile) (headers : list string)
    (rows : list (list string)) (k : nat) (row : list string) (err : error) :
  Open (archive s) (name s) = inr f →
  records f = headers :: rows →
  rows !! k = Some row →
  (∀ j row', (j < k)%nat → rows !! j = Some row' →
     ∃ e, eventFromCSVRow (o j) s headers row' = Ok e) →
  eventFromCSVRow (o k) s headers row = Err err →
  ReadAll o s = Err err.
Proof.
  intros Hopen Hrecords Hrow Hbefore Herr. unfold ReadAll.
  rewrite Hopen, Hrecords. by eapply readRows_first_error.
Qed.

Lemma ReadAll_fails_with_the_first_bad_row_witness :
  ReadAll (λ _ _, example.ascending)
    (example.snapshot [example.partyHeaders; example.partyRecord;
                       ["Picnic"; "2023/01/02"; "no time of day"];
                       ["Broken"]])
  = Err (ErrParseDate "2023/01/02").
Proof.
  apply (ReadAll_fails_with_the_first_bad_row _ _
           {| records := [example.partyHeaders; example.partyRecord;
                          ["Picnic"; "2023/01/02"; "no time of day"];
                          ["Broken"]];
              failure := None |}
           example.partyHeaders
           [example.partyRecord; ["Picnic"; "2023/01/02"; "no time of day"];
            ["Broken"]]
           1%nat ["Picnic"; "2023/01/02"; "no time of day"]);
    [reflexivity|reflexivity|reflexivity| |reflexivity].
  intros [|j] row' Hj Hrow'; [|lia].
  injection Hrow' as <-.
  destruct (eventFromCSVRow (λ _, example.ascending)
              (example.snapshot [example.partyHeaders; example.partyRecord;
                                 ["Picnic"; "2023/01/02"; "no time of day"];
                                 ["Broken"]])
              example.partyHeaders example.partyRecord)
    as [e| | |] eqn:He; try (vm_compute in He; discriminate He).
  by exists e.
Defined.

End all_rows.

Section unambiguous_rows.
Import export.

Lemma findFirstColumn_unique names (m : gmap string string)
    exact1 partial1 exact2 partial2 :
  exact1 ≡ₚ map_to_list m → partial1 ≡ₚ map_to_list m →
  exact2 ≡ₚ map_to_list m → partial2 ≡ₚ map_to_list m →
  matchesExact names EmptyString = false →
  matchesPartial names EmptyString = false →
  uniquelyResolved names m →
  findFirstColumn names exact1 partial1 = findFirstColumn names exact2 partial2.
Proof.
  intros He1 Hp1 He2 Hp2 Hexact Hpartial Hunique.
  pose proof (findFirstColumn_resolves names m _ _ He1 Hp1 Hexact Hpartial)
    as H1.
  pose proof (findFirstColumn_resolves names m _ _ He2 Hp2 Hexact Hpartial)
    as H2.
  cbv zeta in H1, H2.
  destruct (findFirstColumn names exact1 partial1) as [k1 v1].
  destruct (findFirstColumn names exact2 partial2) as [k2 v2].
  cbn [fst snd] in *.
  assert (Hno : ∀ k v, unresolved names m → m !! k = Some v →
                       resolves names m k → False).
  { intros k v Hun Hk [Hr|[_ Hr]]; destruct (Hun k v Hk); congruence. }
  destruct H1 as [(Hne1 & Hl1 & Hr1)|[Heq1 Hun1]],
           H2 as [(Hne2 & Hl2 & Hr2)|[Heq2 Hun2]].
  - assert (k1 = k2) as -> by (apply Hunique; eauto). congruence.
  - destruct (Hno _ _ Hun2 Hl1 Hr1).
  - destruct (Hno _ _ Hun1 Hl2 Hr2).
  - congruence.
Qed.

Lemma eventFromCSVRow_unambiguous o1 o2 s headers record m :
  (∀ site, fair (o1 site)) → (∀ site, fair (o2 site)) →
  headersAndRecordToMap headers record = Ok m →
  (DateProperty (config s) = EmptyString → uniquelyResolved dateNames m) →
  uniquelyResolved titleNames m →
  eventFromCSVRow o1 s headers record = eventFromCSVRow o2 s headers record.
Proof.
  intros Hfair1 Hfair2 Hm Hdate Htitle. unfold eventFromCSVRow.
  rewrite Hm. cbn.
  assert (dateColumn o1 s m = dateColumn o2 s m) as ->.
  { unfold dateColumn.
    destruct (String.eqb (DateProperty (config s)) EmptyString) eqn:Hcfg;
      [|done].
    apply String.eqb_eq in Hcfg.
    change ["date"; "when"; "period"] with dateNames.
    by rewrite (findFirstColumn_unique dateNames m
                  (o1 DateExact m) (o1 DatePartial m)
                  (o2 DateExact m) (o2 DatePartial m)
                  (Hfair1 _ m) (Hfair1 _ m) (Hfair2 _ m) (Hfair2 _ m)
                  eq_refl eq_refl (Hdate Hcfg)). }
  destruct (dateColumn o2 s m) as [[dateKey date]| | |]; try done. cbn.
  destruct (parseNotionDateRange _ _) as [[start end_]| | |]; try done. cbn.
  change ["name"; "title"] with titleNames.
  by rewrite (findFirstColumn_unique titleNames m
                (o1 TitleExact m) (o1 TitlePartial m)
                (o2 TitleExact m) (o2 TitlePartial m)
                (Hfair1 _ m) (Hfair1 _ m) (Hfair2 _ m) (Hfair2 _ m)
                eq_refl eq_refl Htitle).
Qed.

(** X8.  The order in which Go ranges over the map of a row does not show
    in the event when at most one header resolves the date synonyms (or the
    date column is configured) and at most one resolves the title synonyms:
    then any two fair orders give the same answer, event or error. *)
Theorem unambiguous_rows_do_not_depend_on_the_order
    (o1 o2 : site → range_order string) (s : SourceExport)
    (headers record : list string) (m : gmap string string) :
  (∀ site, fair (o1 site)) → (∀ site, fair (o2 site)) →
  headersAndRecordToMap headers record = Ok m →
  (DateProperty (config s) = EmptyString → uniquelyResolved dateNames m) →
  uniquelyResolved titleNames m →
  eventFromCSVRow o1 s headers record = eventFromCSVRow o2 s headers record.
Proof. apply eventFromCSVRow_unambiguous. Qed.

Lemma fair_ascending {V} : fair (@example.ascending V).
Proof. intros m. reflexivity. Qed.

Lemma fair_descending {V} : fair (@example.descending V).
Proof. intros m. apply reverse_Permutation. Qed.

Lemma party_uniquelyResolved names m :
  headersAndRecordToMap example.partyHeaders example.partyRecord = Ok m →
  (matchesExact names "Event Name" || matchesPartial names "Event Name")
  && (matchesExact names "When" || matchesPartial names "When") = false →
  matchesExact names "Notes" || matchesPartial names "Notes" = false →
  uniquelyResolved names m.
Proof.
  intros Hm Htwo Hnotes k1 k2 [v1 H1] [v2 H2] R1 R2.
  apply (row_map_lookup _ _ _ _ _ Hm) in H1 as [H1 _], H2 as [H2 _].
  assert (Hr : ∀ k, resolves names m k →
                    matchesExact names k || matchesPartial names k = true).
  { intros k [->|[_ ->]]; [done|apply orb_true_r]. }
  apply Hr in R1, R2.
  apply list_elem_of_In in H1, H2.
  destruct H1 as [<-|[<-|[<-|[]]]], H2 as [<-|[<-|[<-|[]]]];
    try reflexivity; try congruence;
    rewrite R1, R2 in Htwo; discriminate Htwo.
Qed.

Lemma unambiguous_rows_do_not_depend_on_the_order_witness :
  eventFromCSVRow (λ _, example.ascending) (example.snapshot [])
    example.partyHeaders example.partyRecord
  = eventFromCSVRow (λ _, example.descending) (example.snapshot [])
      example.partyHeaders example.partyRecord.
Proof.
  apply (unambiguous_rows_do_not_depend_on_the_order _ _ _ _ _
           (fold_left insertEntry
              (zip example.partyHeaders example.partyRecord) ∅)).
  - intros _. apply fair_ascending.
  - intros _. apply fair_descending.
  - by apply headersAndRecordToMap_total.
  - intros _. apply party_uniquelyResolved;
      [by apply headersAndRecordToMap_total|reflexivity|reflexivity].
  - apply party_uniquelyResolved;
      [by apply headersAndRecordToMap_total|reflexivity|reflexivity].
Defined.

End unambiguous_rows.

Section identifier_shape.
Import export.

Lemma round_length st kw : length (sha256.round st kw) = length st.
Proof.
  unfold sha256.round.
  by destruct st as [|a [|b [|c [|d [|e [|f [|g [|h [|]]]]]]]]].
Qed.

Lemma rounds_length kws st :
  length (fold_left sha256.round kws st) = length st.
Proof.
  revert st. induction kws as [|kw kws IH]; intros st; cbn [fold_left];
    [done|]. by rewrite IH, round_length.
Qed.

Lemma compress_length h block : length (sha256.compress h block) = length h.
Proof.
  unfold sha256.compress. rewrite length_zip_with, rounds_length. lia.
Qed.

Lemma blocks_length n h bs : length (sha256.blocks n h bs) = length h.
Proof.
  revert h bs. induction n as [|n IH]; intros h bs; cbn [sha256.blocks];
    [done|]. by rewrite IH, compress_length.
Qed.

Lemma be_bytes_length width n : length (sha256.be_bytes width n) = width.
Proof.
  revert n. induction width as [|w IH]; intros n; cbn [sha256.be_bytes];
    [done|]. rewrite length_app, IH. cbn. lia.
Qed.

Lemma be_bytes_isByte width n : Forall isByte (sha256.be_bytes width n).
Proof.
  revert n. induction width as [|w IH]; intros n; cbn [sha256.be_bytes];
    [constructor|].
  apply Forall_app. split; [apply IH|].
  apply Forall_cons. split; [|constructor].
  unfold isByte. apply Z.mod_pos_bound. lia.
Qed.

Lemma Sum256_length data : length (sha256.Sum256 data) = 32%nat.
Proof.
  unfold sha256.Sum256. cbv zeta.
  pose proof (blocks_length
                (length (sha256.bytes_of data
                         ++ sha256.padding (String.length data)) / 64)
                sha256.H0
                (sha256.bytes_of data ++ sha256.padding (String.length data)))
    as Hlen.
  change (length sha256.H0) with 8%nat in Hlen.
  destruct (sha256.blocks _ _ _) as [|a [|b [|c [|d [|e [|f [|g [|h [|]]]]]]]]];
    try discriminate Hlen.
  cbn [fmap list_fmap mjoin list_join].
  by rewrite !length_app, !be_bytes_length.
Qed.

Lemma Sum256_isByte data : Forall isByte (sha256.Sum256 data).
Proof.
  unfold sha256.Sum256. cbv zeta.
  induction (sha256.blocks _ _ _) as [|w ws IH];
    cbn [fmap list_fmap mjoin list_join]; [constructor|].
  apply Forall_app. split; [apply be_bytes_isByte|exact IH].
Qed.

Lemma hexdigit_isLowerHex n : 0 <= n < 16 → isLowerHex (hex.hexdigit n) = true.
Proof.
  intros Hn.
  assert (n = 0 ∨ n = 1 ∨ n = 2 ∨ n = 3 ∨ n = 4 ∨ n = 5 ∨ n = 6 ∨ n = 7 ∨
          n = 8 ∨ n = 9 ∨ n = 10 ∨ n = 11 ∨ n = 12 ∨ n = 13 ∨ n = 14 ∨
          n = 15) as Hcases by lia.
  repeat (destruct Hcases as [->|Hcases]; [reflexivity|]).
  by subst n.
Qed.

Lemma EncodeToString_isDigest src :
  Forall isByte src →
  String.length (hex.EncodeToString src) = (2 * length src)%nat ∧
  Forall (λ c, isLowerHex c = true)
         (String.list_ascii_of_string (hex.EncodeToString src)).
Proof.
  induction 1 as [|b src Hb _ [IHlen IHhex]]; cbn [hex.EncodeToString].
  - by split; [|constructor].
  - split; [cbn [String.length length]; lia|].
    cbn [String.list_ascii_of_string]. unfold isByte in Hb.
    apply Forall_cons. split.
    { apply hexdigit_isLowerHex.
      split; [apply Z.div_pos; lia|apply Z.div_lt_upper_bound; lia]. }
    apply Forall_cons. split; [|exact IHhex].
    apply hexdigit_isLowerHex, Z.mod_pos_bound. lia.
Qed.

Lemma exportID_isDigest title start id :
  exportID title start = Ok id →
  ∃ digest, id = digest +:+ "@notion-ical-export" ∧ isDigest digest.
Proof.
  unfold exportID. destruct (rfc3339.MarshalText start) as [dateBytes|];
    [|done].
  intros [= <-]. eexists. split; [reflexivity|].
  destruct (EncodeToString_isDigest _ (Sum256_isByte (title +:+ dateBytes)))
    as [Hlen Hhex].
  split; [|exact Hhex]. by rewrite Hlen, Sum256_length.
Qed.

(** X9.  The ID of an event of the snapshot source is a SHA-256 digest in
    hexadecimal, 64 digits in lower case, followed by the tag
    [@notion-ical-export]. *)
Theorem export_ids_are_tagged_digests (o : site → range_order string)
    (s : SourceExport) (headers record : list string) (e : Event) :
  eventFromCSVRow o s headers record = Ok e →
  ∃ digest, ID e = digest +:+ "@notion-ical-export" ∧ isDigest digest.
Proof.
  intros (m & dateKey & date & titleKey & _ & _ & _ & _ & _ & _ & Hid)
    %eventFromCSVRow_Ok.
  by eapply exportID_isDigest.
Qed.

Lemma export_ids_are_tagged_digests_witness :
  ∃ e digest,
    eventFromCSVRow (λ _, example.ascending) (example.snapshot [])
      example.partyHeaders example.partyRecord = Ok e ∧
    ID e = digest +:+ "@notion-ical-export" ∧ isDigest digest.
Proof.
  destruct (eventFromCSVRow (λ _, example.ascending) (example.snapshot [])
              example.partyHeaders example.partyRecord)
    as [e| | |] eqn:He; try (vm_compute in He; discriminate He).
  destruct (export_ids_are_tagged_digests _ _ _ _ _ He) as (digest & Hid & Hd).
  exists e, digest. split; [reflexivity|]. split; [exact Hid|exact Hd].
Defined.

End identifier_shape.

(** ** The live source *)

Section hide_field.
Import notion api.

Lemma countProperty_both config d h names entry :
  countProperty config (d, h, names) entry
  = (d + (if isDateField config entry then 1 else 0),
     h + (if isHideField config entry then 1 else 0),
     names ++ [entry.1]).
Proof.
  destruct entry as [name property].
  unfold countProperty, isDateField, isHideField. cbn [fst snd].
  destruct (schema_Type property);
    try (by rewrite !Z.add_0_r).
  - destruct (String.eqb (DateProperty config) EmptyString); cbn [orb];
      [|destruct (String.eqb name (DateProperty config))];
      by rewrite ?Z.add_0_r.
  - destruct (String.eqb (HideProperty config) EmptyString); cbn [negb andb];
      [|destruct (String.eqb name (HideProperty config))];
      by rewrite ?Z.add_0_r.
Qed.

Lemma countProperty_all config entries d h names :
  fold_left (countProperty config) entries (d, h, names)
  = (d + Z.of_nat (length (base.filter (λ e, Is_true (isDateField config e))
                                       entries)),
     h + Z.of_nat (length (base.filter (λ e, Is_true (isHideField config e))
                                       entries)),
     names ++ entries.*1).
Proof.
  revert d h names. induction entries as [|entry entries IH];
    intros d h names; cbn [fold_left].
  - cbn. by rewrite app_nil_r, !Z.add_0_r.
  - rewrite countProperty_both, IH, !filter_cons, <-app_assoc.
    cbn [fmap list_fmap app].
    assert (Hpair : ∀ (a a' b b' : Z) (c : list string),
              a = a' → b = b' → (a, b, c) = (a', b', c)) by congruence.
    destruct (decide (isDateField config entry)) as [Hd|Hd],
             (decide (isHideField config entry)) as [Hh|Hh];
      destruct (isDateField config entry), (isHideField config entry);
      try done; cbn [length]; apply Hpair; lia.
Qed.

Lemma hide_count config (schema : gmap string DatabaseProperty) :
  HideProperty config ≠ EmptyString →
  length (base.filter (λ e, Is_true (isHideField config e))
                      (map_to_list schema)) = 1%nat
  ↔ hasHideField config schema.
Proof.
  intros Hname. unfold hasHideField.
  assert (Hin : ∀ e, e ∈ base.filter (λ e, Is_true (isHideField config e))
                                      (map_to_list schema)
                 ↔ schema !! e.1 = Some e.2 ∧ e.1 = HideProperty config
                    ∧ schema_Type e.2 = DBPropTypeCheckbox).
  { intros [k p]. rewrite list_elem_of_filter, elem_of_map_to_list.
    unfold isHideField. cbn [fst snd].
    apply String.eqb_neq in Hname. rewrite Hname. cbn [negb andb].
    rewrite <-(String.eqb_eq k).
    destruct (schema_Type p), (String.eqb k _); cbn; intuition congruence. }
  split.
  - intros Hlen.
    destruct (base.filter _ (map_to_list schema)) as [|[k p] [|]] eqn:Hf;
      try done.
    destruct (proj1 (Hin (k, p))) as (Hlook & Hk & Hty);
      [by apply list_elem_of_singleton|].
    cbn in *. subst k. eauto.
  - intros (p & Hlook & Hty).
    assert (Hkp : (HideProperty config, p)
                  ∈ base.filter (λ e, Is_true (isHideField config e))
                                (map_to_list schema))
      by (apply Hin; done).
    assert (length (base.filter (λ e, Is_true (isHideField config e))
                                (map_to_list schema)) ≤ 1)%nat.
    { apply (at_most_one _ (HideProperty config, p)).
      - apply NoDup_filter, NoDup_map_to_list.
      - intros [k q] (Hq & Hk & _)%Hin. cbn in *. subst k. congruence. }
    apply list_elem_of_split in Hkp as (l1 & l2 & Hsplit).
    rewrite Hsplit in *. rewrite length_app in *. cbn in *. lia.
Qed.

Lemma fair_hide_count config (o : range_order DatabaseProperty) schema :
  fair o →
  length (base.filter (λ e, Is_true (isHideField config e)) (o schema))
  = length (base.filter (λ e, Is_true (isHideField config e))
                        (map_to_list schema)).
Proof. intros Hfair. by rewrite (Hfair schema). Qed.

Lemma NewSourceAPI_hide client (o : range_order DatabaseProperty) config
    database :
  fair o →
  FindDatabaseByID client (DatabaseID config) = inr database →
  dateFieldCount config (db_Properties database) = 1%nat →
  HideProperty config ≠ EmptyString →
  (hasHideField config (db_Properties database) →
   NewSourceAPI client o config
   = Ok {| config := config; client := client; database := database |}) ∧
  (¬ hasHideField config (db_Properties database) →
   ∃ names,
     NewSourceAPI client o config
     = Err (ErrNoHidePropertyIn (DateProperty config) names) ∧
     names ≡ₚ (map_to_list (db_Properties database)).*1).
Proof.
  intros Hfair Hfind Hdate Hname.
  unfold NewSourceAPI. rewrite Hfind, countProperty_all.
  rewrite (fair_count _ _ _ Hfair), Hdate.
  change (negb (0 + Z.of_nat 1 =? 1)) with false. cbv iota.
  apply String.eqb_neq in Hname as Hneq. rewrite Hneq. cbn [negb andb].
  rewrite (fair_hide_count _ _ _ Hfair).
  pose proof (hide_count config (db_Properties database) Hname) as Hcount.
  destruct (0 + Z.of_nat _ =? 1) eqn:Hone; cbn [negb].
  - apply Z.eqb_eq in Hone. split; [done|]. intros Hnot.
    destruct Hnot. apply Hcount. lia.
  - apply Z.eqb_neq in Hone. split.
    + intros Hyes%Hcount. lia.
    + intros _. eexists. split; [reflexivity|]. cbn [app].
      by rewrite (Hfair (db_Properties database)).
Qed.

(** X10.  For a schema that resolves the date field, a configured hide
    field is checked too: [NewSourceAPI] succeeds when the schema has a
    checkbox of that name, and otherwise fails with [ErrNoHideProperty] and
    the list of the fields of the schema; the message of this error names
    the configured date field, [config.DateProperty], not the hide field. *)
Theorem hide_field_must_be_a_checkbox (client : Client)
    (o : range_order DatabaseProperty) (config : ConfigSourceAPI)
    (database : Database) :
  fair o →
  FindDatabaseByID client (DatabaseID config) = inr database →
  dateFieldCount config (db_Properties database) = 1%nat →
  HideProperty config ≠ EmptyString →
  (hasHideField config (db_Properties database) →
   NewSourceAPI client o config
   = Ok {| config := config; client := client; database := database |}) ∧
  (¬ hasHideField config (db_Properties database) →
   ∃ names,
     NewSourceAPI client o config
     = Err (ErrNoHidePropertyIn (DateProperty config) names) ∧
     names ≡ₚ (map_to_list (db_Properties database)).*1).
Proof. apply NewSourceAPI_hide. Qed.

Lemma hide_field_must_be_a_checkbox_witness :
  dateFieldCount hidingConfig example.meetingSchema = 1%nat ∧
  HideProperty hidingConfig ≠ EmptyString ∧
  hasHideField hidingConfig example.meetingSchema ∧
  NewSourceAPI example.meetingClient example.ascending hidingConfig
  = Ok {| config := hidingConfig; client := example.meetingClient;
          database := example.meetingDatabase |}.
Proof.
  assert (Hdate : dateFieldCount hidingConfig example.meetingSchema = 1%nat)
    by (vm_compute; reflexivity).
  assert (Hname : HideProperty hidingConfig ≠ EmptyString)
    by (cbn; discriminate).
  assert (Hhide : hasHideField hidingConfig example.meetingSchema).
  { eexists. split; [vm_compute; reflexivity|reflexivity]. }
  split; [exact Hdate|]. split; [exact Hname|]. split; [exact Hhide|].
  exact (proj1 (hide_field_must_be_a_checkbox example.meetingClient
                  example.ascending hidingConfig example.meetingDatabase
                  fair_ascending eq_refl Hdate Hname) Hhide).
Defined.

End hide_field.

Section single_day.
Import notion api.

Lemma pageProperty_outcome s st entry :
  (∃ st', pageProperty s st entry = Ok st') ∨
  pageProperty s st entry = Panic "nil pointer dereference".
Proof.
  destruct entry as [name p]. unfold pageProperty. cbv zeta.
  destruct (prop_Type p); try (left; eauto; fail).
  destruct (String.eqb (DateProperty (config s)) EmptyString),
           (String.eqb name (DateProperty (config s))),
           (prop_Date p) as [[start [end_|]]|];
    (by right) || (left; eauto).
Qed.

Lemma pageProperty_panics s st name p :
  usedAsDate (config s) (name, p) = true →
  (∀ d, prop_Date p = Some d → date_End d = None) →
  pageProperty s st (name, p) = Panic "nil pointer dereference".
Proof.
  unfold usedAsDate, pageProperty. cbn [fst snd]. cbv zeta.
  intros Hused Hopen.
  destruct (prop_Type p); try discriminate Hused.
  destruct (prop_Date p) as [d|] eqn:Hd.
  - rewrite (Hopen d eq_refl).
    destruct (String.eqb (DateProperty (config s)) EmptyString); [done|].
    cbn [orb] in Hused. by rewrite Hused.
  - destruct (String.eqb (DateProperty (config s)) EmptyString); [done|].
    cbn [orb] in Hused. by rewrite Hused.
Qed.

Lemma pagePropertiesLoop_panics s st entries name p :
  (name, p) ∈ entries →
  usedAsDate (config s) (name, p) = true →
  (∀ d, prop_Date p = Some d → date_End d = None) →
  pagePropertiesLoop s st entries = Panic "nil pointer dereference".
Proof.
  intros Hin Hused Hopen. revert st.
  induction entries as [|entry entries IH]; intros st.
  { by apply elem_of_nil in Hin. }
  cbn [pagePropertiesLoop].
  destruct (pageProperty_outcome s st entry) as [[st' Hst]|Hst]; rewrite Hst;
    [|done]. cbn.
  apply elem_of_cons in Hin as [<-|Hin]; [|by apply IH].
  by rewrite pageProperty_panics in Hst.
Qed.

Lemma eventFromPage_panics fuel (o : range_order DatabasePageProperty) s page
    m name p :
  fair o →
  page_Properties page = DatabasePageProperties m →
  m !! name = Some p →
  usedAsDate (config s) (name, p) = true →
  (∀ d, prop_Date p = Some d → date_End d = None) →
  eventFromPage fuel o s page = Panic "nil pointer dereference".
Proof.
  intros Hfair Hm Hp Hused Hopen. unfold eventFromPage. rewrite Hm.
  rewrite (pagePropertiesLoop_panics _ _ _ name p); [done| |done|done].
  rewrite (Hfair m). by apply elem_of_map_to_list.
Qed.

(** X11.  A page whose date field (the configured one, or any date field
    when none is configured) holds no date, or a date with a start and no
    end, makes [eventFromPage] panic: [property.Date.End.Time] dereferences
    a nil pointer.  No event and no error is returned, in whatever order the
    fields are visited. *)
Theorem a_date_without_an_end_panics (fuel : nat)
    (o : range_order DatabasePageProperty) (s : SourceAPI) (page : Page)
    (m : gmap string DatabasePageProperty) (name : string)
    (p : DatabasePageProperty) :
  fair o →
  page_Properties page = DatabasePageProperties m →
  m !! name = Some p →
  usedAsDate (config s) (name, p) = true →
  (∀ d, prop_Date p = Some d → date_End d = None) →
  eventFromPage fuel o s page = Panic "nil pointer dereference".
Proof. apply eventFromPage_panics. Qed.

Lemma a_date_without_an_end_panics_witness :
  eventFromPage 1 example.ascending example.meetingSource singleDayPage
  = Panic "nil pointer dereference".
Proof.
  eapply (a_date_without_an_end_panics 1 example.ascending
            example.meetingSource singleDayPage singleDayFields "When").
  - apply fair_ascending.
  - reflexivity.
  - vm_compute. reflexivity.
  - reflexivity.
  - intros d [= <-]. reflexivity.
Defined.

End single_day.

Section page_fields.
Import notion api.

Lemma pageProperty_keeps_dates s st entry st' :
  usedAsDate (config s) entry = false →
  pageProperty s st entry = Ok st' →
  st_start st' = st_start st ∧ st_end st' = st_end st.
Proof.
  destruct entry as [name p]. unfold usedAsDate, pageProperty.
  cbn [fst snd]. cbv zeta. intros Hused.
  destruct (prop_Type p); try (by intros [= <-]).
  apply orb_false_iff in Hused as [-> ->]. by intros [= <-].
Qed.

Lemma pageProperty_sets_dates s st name p st' :
  usedAsDate (config s) (name, p) = true →
  pageProperty s st (name, p) = Ok st' → datedBy p st'.
Proof.
  unfold usedAsDate, pageProperty, datedBy. cbn [fst snd]. cbv zeta.
  intros Hused.
  destruct (prop_Type p); try discriminate Hused.
  destruct (String.eqb (DateProperty (config s)) EmptyString);
    [|cbn [orb] in Hused; rewrite Hused];
    (destruct (prop_Date p) as [d|]; [|done]);
    (destruct (date_End d) as [end_|] eqn:Hend; [|done]);
    intros [= <-]; exists d, end_; repeat split; done.
Qed.

Lemma pagePropertiesLoop_dates s st entries name p st' :
  usedAsDate (config s) (name, p) = true →
  (∀ entry, entry ∈ entries → usedAsDate (config s) entry = true →
            entry = (name, p)) →
  pagePropertiesLoop s st entries = Ok st' →
  datedBy p st ∨ (name, p) ∈ entries → datedBy p st'.
Proof.
  intros Hused. revert st.
  induction entries as [|entry entries IH]; intros st Hall;
    cbn [pagePropertiesLoop].
  - intros [= <-] [Hst|Hin]; [done|by apply elem_of_nil in Hin].
  - destruct (pageProperty s st entry) as [st1| | |] eqn:Hentry; try done.
    cbn. intros Hloop Hst. apply (IH st1); [|done|].
    { intros entry' Hin. apply Hall, elem_of_cons. by right. }
    destruct (usedAsDate (config s) entry) eqn:Hentry_used.
    + left. rewrite (Hall entry) in Hentry; [|apply elem_of_cons; by left|done].
      by eapply pageProperty_sets_dates.
    + apply pageProperty_keeps_dates in Hentry as [Hs He]; [|done].
      destruct Hst as [(d & end_ & Hd & Hend & Hstart & Hfinish)|Hin].
      * left. exists d, end_. by rewrite Hs, He.
      * right. apply elem_of_cons in Hin as [<-|Hin]; [congruence|done].
Qed.

Lemma eventFromPage_dates fuel (o : range_order DatabasePageProperty) s page
    m name p e :
  fair o →
  page_Properties page = DatabasePageProperties m →
  m !! name = Some p →
  usedAsDate (config s) (name, p) = true →
  (∀ name' p', m !! name' = Some p' →
               usedAsDate (config s) (name', p') = true → name' = name) →
  eventFromPage fuel o s page = Ok e →
  ∃ d end_, prop_Date p = Some d ∧ date_End d = Some end_ ∧
            Start e = dt_Time (date_Start d) ∧ End e = dt_Time end_.
Proof.
  intros Hfair Hm Hp Hused Hunique He.
  apply eventFromPage_Ok in He
    as (m' & st & Hm' & Hloop & _ & -> & -> & _).
  rewrite Hm in Hm'. injection Hm' as <-.
  eapply (pagePropertiesLoop_dates _ _ _ name p); [done| |exact Hloop|].
  - intros [name' p'] Hin Hused'. rewrite (Hfair m) in Hin.
    apply elem_of_map_to_list in Hin.
    assert (name' = name) as -> by eauto. congruence.
  - right. rewrite (Hfair m). by apply elem_of_map_to_list.
Qed.

(** X12.  When one field of the page is the date field (the date field of
    the configured name, or the only date field when no name is
    configured), the event starts and ends where the date of that field
    does, in whatever order the fields are visited; the field then has a
    date with an end. *)
Theorem times_come_from_the_date_field (fuel : nat)
    (o : range_order DatabasePageProperty) (s : SourceAPI) (page : Page)
    (m : gmap string DatabasePageProperty) (name : string)
    (p : DatabasePageProperty) (e : Event) :
  fair o →
  page_Properties page = DatabasePageProperties m →
  m !! name = Some p →
  usedAsDate (config s) (name, p) = true →
  (∀ name' p', m !! name' = Some p' →
               usedAsDate (config s) (name', p') = true → name' = name) →
  eventFromPage fuel o s page = Ok e →
  ∃ d end_, prop_Date p = Some d ∧ date_End d = Some end_ ∧
            Start e = dt_Time (date_Start d) ∧ End e = dt_Time end_.
Proof. apply eventFromPage_dates. Qed.

Lemma meetingFields_entries name p :
  example.meetingFields !! name = Some p →
  (name, p) ∈ [("Name", {| prop_ID := EmptyString; prop_Type := DBPropTypeTitle;
                           prop_Name := EmptyString;
                           prop_Title := example.text "Meeting";
                           prop_Date := None |});
               ("When", {| prop_ID := EmptyString; prop_Type := DBPropTypeDate;
                           prop_Name := EmptyString; prop_Title := [];
                           prop_Date := Some example.meetingDate |});
               ("Zebra", example.field DBPropTypeRichText);
               ("Alpha", example.field DBPropTypeRichText);
               ("Project", example.field DBPropTypeRelation)].
Proof. apply elem_of_list_to_map_2. Qed.

Lemma times_come_from_the_date_field_witness :
  ∃ e,
    eventFromPage 1 example.ascending example.meetingSource
      example.meetingPage = Ok e ∧
    Start e = time.Date 2023 1 2 15 0 0 0 UTC ∧
    End e = time.Date 2023 1 2 17 0 0 0 UTC.
Proof.
  destruct (eventFromPage 1 example.ascending example.meetingSource
              example.meetingPage) as [e| | |] eqn:He;
    try (vm_compute in He; discriminate He).
  exists e. split; [reflexivity|].
  destruct (times_come_from_the_date_field 1 example.ascending
              example.meetingSource example.meetingPage example.meetingFields
              "When"
              {| prop_ID := EmptyString; prop_Type := DBPropTypeDate;
                 prop_Name := EmptyString; prop_Title := [];
                 prop_Date := Some example.meetingDate |} e)
    as (d & end_ & Hd & Hend & Hstart & Hfinish).
  - apply fair_ascending.
  - reflexivity.
  - vm_compute. reflexivity.
  - reflexivity.
  - intros name' p' Hin%meetingFields_entries Hused.
    apply list_elem_of_In in Hin.
    destruct Hin as [Hin|[Hin|[Hin|[Hin|[Hin|[]]]]]];
      injection Hin as <- <-; first [reflexivity|discriminate Hused].
  - exact He.
  - injection Hd as <-. injection Hend as <-. split; [exact Hstart|exact Hfinish].
Defined.

Lemma pageProperty_keeps_title s st entry st' :
  isTitle entry = false →
  pageProperty s st entry = Ok st' → st_title st' = st_title st.
Proof.
  destruct entry as [name p]. unfold isTitle, pageProperty.
  cbn [fst snd]. cbv zeta. intros Htitle.
  destruct (prop_Type p); try discriminate Htitle; try (by intros [= <-]).
  destruct (String.eqb (DateProperty (config s)) EmptyString),
           (String.eqb name (DateProperty (config s))),
           (prop_Date p) as [[start [end_|]]|];
    try discriminate; by intros [= <-].
Qed.

Lemma pageProperty_sets_title s st name p st' :
  isTitle (name, p) = true →
  pageProperty s st (name, p) = Ok st' →
  st_title st' = richTextToString (prop_Title p).
Proof.
  unfold isTitle, pageProperty. cbn [fst snd]. cbv zeta. intros Htitle.
  destruct (prop_Type p); try discriminate Htitle. by intros [= <-].
Qed.

Lemma pagePropertiesLoop_title s st entries name p st' :
  isTitle (name, p) = true →
  (∀ entry, entry ∈ entries → isTitle entry = true → entry = (name, p)) →
  pagePropertiesLoop s st entries = Ok st' →
  st_title st = richTextToString (prop_Title p) ∨ (name, p) ∈ entries →
  st_title st' = richTextToString (prop_Title p).
Proof.
  intros Htitle. revert st.
  induction entries as [|entry entries IH]; intros st Hall;
    cbn [pagePropertiesLoop].
  - intros [= <-] [Hst|Hin]; [done|by apply elem_of_nil in Hin].
  - destruct (pageProperty s st entry) as [st1| | |] eqn:Hentry; try done.
    cbn. intros Hloop Hst. apply (IH st1); [|done|].
    { intros entry' Hin. apply Hall, elem_of_cons. by right. }
    destruct (isTitle entry) eqn:Hentry_title.
    + left. rewrite (Hall entry) in Hentry; [|apply elem_of_cons; by left|done].
      by eapply pageProperty_sets_title.
    + apply pageProperty_keeps_title in Hentry; [|done].
      destruct Hst as [Hst|Hin]; [left; congruence|].
      right. apply elem_of_cons in Hin as [<-|Hin]; [congruence|done].
Qed.

Lemma pagePropertiesLoop_no_title s st entries st' :
  (∀ entry, entry ∈ entries → isTitle entry = false) →
  pagePropertiesLoop s st entries = Ok st' → st_title st' = st_title st.
Proof.
  revert st. induction entries as [|entry entries IH]; intros st Hall;
    cbn [pagePropertiesLoop].
  - by intros [= <-].
  - destruct (pageProperty s st entry) as [st1| | |] eqn:Hentry; try done.
    cbn. intros Hloop.
    apply pageProperty_keeps_title in Hentry;
      [|apply Hall, elem_of_cons; by left].
    rewrite <-Hentry. apply IH; [|done].
    intros entry' Hin. apply Hall, elem_of_cons. by right.
Qed.

Lemma eventFromPage_title fuel (o : range_order DatabasePageProperty) s page
    m e :
  fair o →
  page_Properties page = DatabasePageProperties m →
  eventFromPage fuel o s page = Ok e →
  (∀ name p,
     m !! name = Some p → isTitle (name, p) = true →
     (∀ name' p', m !! name' = Some p' → isTitle (name', p') = true →
                  name' = name) →
     Title e = richTextToString (prop_Title p)) ∧
  ((∀ name p, m !! name = Some p → isTitle (name, p) = false) →
   Title e = EmptyString).
Proof.
  intros Hfair Hm He.
  apply eventFromPage_Ok in He as (m' & st & Hm' & Hloop & -> & _).
  rewrite Hm in Hm'. injection Hm' as <-. split.
  - intros name p Hp Htitle Hunique.
    eapply (pagePropertiesLoop_title _ _ _ name p); [done| |exact Hloop|].
    + intros [name' p'] Hin Htitle'. rewrite (Hfair m) in Hin.
      apply elem_of_map_to_list in Hin.
      assert (name' = name) as -> by eauto. congruence.
    + right. rewrite (Hfair m). by apply elem_of_map_to_list.
  - intros Hnone. apply pagePropertiesLoop_no_title in Hloop; [done|].
    intros [name p] Hin. rewrite (Hfair m) in Hin.
    apply elem_of_map_to_list in Hin. eauto.
Qed.

(** X13.  The title of an event of the live source is the plain text of the
    page's field of type title when the page has one such field, and empty
    when it has none; fields of other types never set it. *)
Theorem title_comes_from_the_title_field (fuel : nat)
    (o : range_order DatabasePageProperty) (s : SourceAPI) (page : Page)
    (m : gmap string DatabasePageProperty) (e : Event) :
  fair o →
  page_Properties page = DatabasePageProperties m →
  eventFromPage fuel o s page = Ok e →
  (∀ name p,
     m !! name = Some p → isTitle (name, p) = true →
     (∀ name' p', m !! name' = Some p' → isTitle (name', p') = true →
                  name' = name) →
     Title e = richTextToString (prop_Title p)) ∧
  ((∀ name p, m !! name = Some p → isTitle (name, p) = false) →
   Title e = EmptyString).
Proof. apply eventFromPage_title. Qed.

Lemma title_comes_from_the_title_field_witness :
  ∃ e,
    eventFromPage 1 example.ascending example.meetingSource
      example.meetingPage = Ok e ∧
    Title e = "Meeting".
Proof.
  destruct (eventFromPage 1 example.ascending example.meetingSource
              example.meetingPage) as [e| | |] eqn:He;
    try (vm_compute in He; discriminate He).
  exists e. split; [reflexivity|].
  refine (proj1 (title_comes_from_the_title_field 1 example.ascending
                   example.meetingSource example.meetingPage
                   example.meetingFields e fair_ascending eq_refl He)
            "Name"
            {| prop_ID := EmptyString; prop_Type := DBPropTypeTitle;
               prop_Name := EmptyString; prop_Title := example.text "Meeting";
               prop_Date := None |} _ eq_refl _).
  - vm_compute. reflexivity.
  - intros name' p' Hin%meetingFields_entries Htitle.
    apply list_elem_of_In in Hin.
    destruct Hin as [Hin|[Hin|[Hin|[Hin|[Hin|[]]]]]];
      injection Hin as <- <-; first [reflexivity|discriminate Htitle].
Defined.

End page_fields.

Section all_pages.
Import notion api.

Lemma pagesLoop_Ok fuel o s pages events events' :
  pagesLoop fuel o s pages events = Ok events' →
  ∃ new, events' = events ++ new ∧
         ID <$> new = pageEventID <$> pages ∧
         URL <$> new = page_URL <$> pages.
Proof.
  revert events. induction pages as [|page pages IH]; intros events;
    cbn [pagesLoop].
  - intros [= <-]. exists []. by rewrite app_nil_r.
  - destruct (eventFromPage fuel _ s page) as [e| | |] eqn:He; try done.
    cbn. intros (new & -> & Hids & Hurls)%IH.
    exists (e :: new). rewrite <-app_assoc. split; [done|].
    cbn [fmap list_fmap]. rewrite <-Hids, <-Hurls.
    assert (URL e = page_URL page) as ->.
    { unfold eventFromPage in He.
      destruct (page_Properties page); [|done].
      destruct (pagePropertiesLoop _ _ _); try done. cbn in He.
      destruct (getPageContentPlain _ _ _); try done. cbn in He.
      by injection He as <-. }
    apply eventFromPage_Ok in He as (_ & _ & _ & _ & _ & _ & _ & _ & _ & ->).
    done.
Qed.

Lemma queryLoop_Ok fuel o s query events events' :
  queryLoop fuel o s query events = Ok events' →
  ∃ pages new,
    answers s query pages ∧ events' = events ++ new ∧
    ID <$> new = pageEventID <$> pages ∧ URL <$> new = page_URL <$> pages.
Proof.
  revert query events. induction fuel as [|fuel IH]; intros query events;
    cbn [queryLoop]; [done|].
  destruct (QueryDatabase _ _ _) as [err|response] eqn:Hquery; [done|].
  destruct (pagesLoop fuel o s _ events) as [events1| | |] eqn:Hpages;
    try done. cbn.
  apply pagesLoop_Ok in Hpages as (new1 & -> & Hids1 & Hurls1).
  destruct (query_HasMore response) eqn:Hmore.
  - destruct (query_NextCursor response) as [cursor|] eqn:Hcursor; [|done].
    intros (pages & new & Hanswers & -> & Hids & Hurls)%IH.
    exists (query_Results response ++ pages), (new1 ++ new).
    split; [by eapply answers_more|].
    rewrite <-app_assoc, !fmap_app. by rewrite Hids1, Hurls1, Hids, Hurls.
  - intros [= <-]. exists (query_Results response), new1.
    split; [by apply answers_last|done].
Qed.

(** X14.  When [ReadAll] of the live source returns events, they are the
    events of the pages the service answers the initial query with, response
    after response and page after page: one event for each page, in that
    order, with the ID and the URL of its page.  Every query after the first
    differs from it in the cursor only. *)
Theorem ReadAll_gives_one_event_for_each_page (fuel : nat)
    (o : nat → range_order DatabasePageProperty) (s : SourceAPI)
    (events : list Event) :
  ReadAll fuel o s = Ok events →
  ∃ pages,
    answers s (initialQuery s) pages ∧
    ID <$> events = pageEventID <$> pages ∧
    URL <$> events = page_URL <$> pages.
Proof.
  unfold ReadAll.
  intros (pages & new & Hanswers & -> & Hids & Hurls)%queryLoop_Ok.
  by exists pages.
Qed.

Lemma ReadAll_gives_one_event_for_each_page_witness :
  ∃ events pages,
    ReadAll 3 (λ _, example.ascending) listingSource = Ok events ∧
    answers listingSource (initialQuery listingSource) pages ∧
    ID <$> events = pageEventID <$> pages ∧
    length events = 2%nat.
Proof.
  destruct (ReadAll 3 (λ _, example.ascending) listingSource)
    as [events| | |] eqn:Hread; try (vm_compute in Hread; discriminate Hread).
  destruct (ReadAll_gives_one_event_for_each_page _ _ _ _ Hread)
    as (pages & Hanswers & Hids & _).
  exists events, pages. split; [reflexivity|].
  split; [exact Hanswers|]. split; [exact Hids|].
  vm_compute in Hread. injection Hread as <-. reflexivity.
Defined.

End all_pages.


(** ** The description of an event *)

Section descriptions.
Import export.

Lemma append_empty s : s +:+ EmptyString = s.
Proof.
  induction s as [|c s IH]; [done|].
  change (String c (s +:+ EmptyString) = String c s). by rewrite IH.
Qed.

Lemma append_assoc a b c : (a +:+ b) +:+ c = a +:+ b +:+ c.
Proof.
  induction a as [|x a IH]; [done|].
  change (String x ((a +:+ b) +:+ c) = String x (a +:+ b +:+ c)).
  by rewrite IH.
Qed.

Lemma Join_empty l : Join l EmptyString = concatAll l.
Proof.
  induction l as [|e l IH]; [done|]. destruct l as [|e' l].
  - symmetry. apply append_empty.
  - change (e +:+ EmptyString +:+ Join (e' :: l) EmptyString
            = e +:+ concatAll (e' :: l)).
    by rewrite IH.
Qed.

Lemma concatAll_app l k : concatAll (l ++ k) = concatAll l +:+ concatAll k.
Proof.
  induction l as [|e l IH]; [done|].
  change (e +:+ concatAll (l ++ k) = (e +:+ concatAll l) +:+ concatAll k).
  by rewrite IH, append_assoc.
Qed.

Lemma fold_left_pairs {A} (f g : A → string) l acc :
  fold_left (λ s x, s ++ [f x; g x]) l acc
  = acc ++ (x ← l; [f x; g x]).
Proof.
  revert acc. induction l as [|x l IH]; intros acc; cbn [fold_left].
  - by rewrite app_nil_r.
  - rewrite IH, <-app_assoc. done.
Qed.

Lemma Description_unfold v e :
  Description v e
  = concatAll (p ← Properties e; [propertyLine v p; api.newline])
    +:+ concatAll (c ← Content e; [c; api.newline +:+ api.newline]).
Proof.
  unfold Description. cbv zeta.
  rewrite Join_empty, !fold_left_pairs. cbn [app].
  apply concatAll_app.
Qed.

Lemma otherColumns_text v dateKey titleKey columns :
  concatAll (p ← otherColumns dateKey titleKey columns;
             [propertyLine v p; api.newline])
  = concatAll (columnText
               <$> base.filter (λ kv : string * string,
                                  kv.1 ≠ dateKey ∧ kv.1 ≠ titleKey) columns).
Proof.
  unfold otherColumns.
  induction (base.filter _ columns) as [|[key value] l IH]; [done|].
  change (propertyLine v (exportProperty key value) +:+ api.newline
          +:+ concatAll (p ← (λ kv : string * string, exportProperty kv.1 kv.2)
                               <$> l;
                         [propertyLine v p; api.newline])
          = columnText (key, value) +:+ concatAll (columnText <$> l)).
  rewrite IH. unfold propertyLine, columnText.
  cbn [NameString ValueString fst snd].
  destruct (Contains value api.newline); by rewrite !append_assoc.
Qed.

Lemma eventFromCSVRow_Description v o s headers record e :
  eventFromCSVRow o s headers record = Ok e →
  ∃ m dateKey date titleKey,
    headersAndRecordToMap headers record = Ok m ∧
    dateColumn o s m = Ok (dateKey, date) ∧
    findFirstColumn ["name"; "title"] (o TitleExact m) (o TitlePartial m)
    = (titleKey, Title e) ∧
    Description v e
    = concatAll (columnText
                 <$> base.filter (λ kv : string * string,
                                    kv.1 ≠ dateKey ∧ kv.1 ≠ titleKey)
                                 (zip headers record)).
Proof.
  intros He.
  assert (Content e = []) as Hcontent.
  { unfold eventFromCSVRow in He.
    destruct (headersAndRecordToMap _ _); try done. cbn in He.
    destruct (dateColumn _ _ _) as [[? ?]| | |]; try done. cbn in He.
    destruct (parseNotionDateRange _ _) as [[? ?]| | |]; try done. cbn in He.
    destruct (findFirstColumn _ _ _).
    destruct (String.eqb _ _); [done|].
    destruct (propertiesLoop _ _ _ _ _ _); try done. cbn in He.
    destruct (exportID _ _); try done. cbn in He. by injection He as <-. }
  apply eventFromCSVRow_Ok in He
    as (m & dateKey & date & titleKey & Hm & Hdate & _ & Htitle & _ & Hprops & _).
  exists m, dateKey, date, titleKey. do 3 (split; [done|]).
  rewrite Description_unfold, Hcontent, Hprops, otherColumns_text.
  apply append_empty.
Qed.

(** X16.  The description of an event of the snapshot source is its
    remaining columns, those that are neither the date column nor the title
    column, in the order of the table: each as header, colon, cell and line
    feed, the cell after a space or, when it has several lines, on a line of
    its own.  It has no content part, and it does not depend on how fields
    of the live source are printed. *)
Theorem description_of_a_row (apiValueString : notion.DatabasePageProperty → string)
    (o : site → range_order string) (s : SourceExport)
    (headers record : list string) (e : Event) :
  eventFromCSVRow o s headers record = Ok e →
  ∃ m dateKey date titleKey,
    headersAndRecordToMap headers record = Ok m ∧
    dateColumn o s m = Ok (dateKey, date) ∧
    findFirstColumn ["name"; "title"] (o TitleExact m) (o TitlePartial m)
    = (titleKey, Title e) ∧
    Description apiValueString e
    = concatAll (columnText
                 <$> base.filter (λ kv : string * string,
                                    kv.1 ≠ dateKey ∧ kv.1 ≠ titleKey)
                                 (zip headers record)).
Proof. apply eventFromCSVRow_Description. Qed.

Lemma description_of_a_row_witness :
  ∃ e dateKey titleKey,
    eventFromCSVRow (λ _, example.ascending) (example.snapshot [])
      example.partyHeaders example.partyRecord = Ok e ∧
    Description (λ _, EmptyString) e
    = concatAll (columnText
                 <$> base.filter (λ kv : string * string,
                                    kv.1 ≠ dateKey ∧ kv.1 ≠ titleKey)
                                 (zip example.partyHeaders
                                      example.partyRecord)).
Proof.
  destruct (eventFromCSVRow (λ _, example.ascending) (example.snapshot [])
              example.partyHeaders example.partyRecord)
    as [e| | |] eqn:He; try (vm_compute in He; discriminate He).
  destruct (description_of_a_row (λ _, EmptyString) _ _ _ _ _ He)
    as (m & dateKey & date & titleKey & _ & _ & _ & Hdescription).
  exists e, dateKey, titleKey. split; [reflexivity|exact Hdescription].
Defined.

End descriptions.

(** ** The content of a page *)

Section content_outcomes.
Import notion api.

Lemma fileToString_outcome f :
  (∃ url, fileToString f = Ok url) ∨
  fileToString f = Panic "nil pointer dereference".
Proof.
  unfold fileToString.
  destruct (file_Type f), (file_File f), (file_External f); eauto.
Qed.

Lemma each_outcome (children : list Block) :
  Forall (λ b, (∃ line, convertBlockContentPlain b = Ok line) ∨
               convertBlockContentPlain b = Panic "nil pointer dereference")
         children →
  let r := (fix each (bs : list Block) : result (list string) :=
              match bs with
              | [] => Ok []
              | b :: bs' =>
                  x ← convertBlockContentPlain b; xs ← each bs'; Ok (x :: xs)
              end) children in
  (∃ lines, r = Ok lines) ∨ r = Panic "nil pointer dereference".
Proof.
  induction 1 as [|b bs [[line Hb]|Hb] _ IH]; cbv zeta in *.
  - left. by eexists.
  - rewrite Hb. cbn.
    destruct IH as [[lines ->]| ->]; cbn; [left; eauto|by right].
  - rewrite Hb. by right.
Qed.

Lemma blockSize_children (children : list Block) c :
  c ∈ children →
  (blockSize c ≤ foldr (λ c n, (blockSize c + n)%nat) 0%nat children)%nat.
Proof.
  induction children as [|c' children IH]; intros Hin.
  { by apply elem_of_nil in Hin. }
  cbn [foldr]. apply elem_of_cons in Hin as [->|Hin]; [lia|].
  apply IH in Hin. lia.
Qed.

Lemma convertBlockContentPlain_outcome b :
  (∃ line, convertBlockContentPlain b = Ok line) ∨
  convertBlockContentPlain b = Panic "nil pointer dereference".
Proof.
  remember (blockSize b) as n eqn:Hn.
  assert (Hle : (blockSize b ≤ n)%nat) by lia. clear Hn.
  revert b Hle. induction n as [|n IH]; intros [id h k] Hle.
  { destruct k; cbn in Hle; lia. }
  assert (Hnested : ∀ children : list Block,
            (foldr (λ c n, (blockSize c + n)%nat) 0%nat children ≤ n)%nat →
            Forall (λ b, (∃ line, convertBlockContentPlain b = Ok line) ∨
                         convertBlockContentPlain b
                         = Panic "nil pointer dereference") children).
  { intros children Hsize. apply Forall_forall. intros c Hin. apply IH.
    apply blockSize_children in Hin. lia. }
  destruct k; cbn [convertBlockContentPlain];
    try (left; eauto; fail);
    try (destruct (fileToString_outcome f) as [[url ->]| ->]; cbn;
         [left; eauto|by right]).
  - cbn in Hle.
    destruct (each_outcome children) as [[lines ->]| ->]; cbn;
      [apply Hnested; lia|left; eauto|by right].
  - destruct t; left; eauto.
  - cbn in Hle.
    destruct (each_outcome children) as [[lines ->]| ->]; cbn;
      [apply Hnested; lia|left; eauto|by right].
Qed.

Lemma blocksLoop_outcome s id (f : string → result (list string)) blocks
    content :
  (∀ id', contentOutcome s id (f id')) →
  contentOutcome s id (blocksLoop f blocks content).
Proof.
  intros Hf. revert content.
  induction blocks as [|block blocks IH]; intros content; cbn [blocksLoop];
    [done|].
  destruct (convertBlockContentPlain_outcome block) as [[line ->]| ->]; cbn;
    [|done].
  destruct (HasChildren block); [|apply IH].
  pose proof (Hf (BlockID block)) as Hchildren.
  destruct (f (BlockID block)) as [childrenContent| | |]; cbn;
    [apply IH|done..].
Qed.

Lemma childrenLoop_outcome fuel s id0 id query content :
  PageSize query = 100 →
  contentOutcome s id0 (childrenLoop fuel s id query content).
Proof.
  revert id query content.
  induction fuel as [|fuel IH]; intros id query content Hsize; [done|].
  cbn [childrenLoop].
  destruct (FindBlockChildrenByID _ _ _) as [err|response] eqn:Hfind.
  { right. exists id, (StartCursor query), err. split; [|done].
    destruct query as [cursor size]. cbn in *. by subst size. }
  pose proof (blocksLoop_outcome s id0
                (λ id', childrenLoop fuel s id'
                          {| StartCursor := EmptyString; PageSize := 100 |} [])
                (Results response) content) as Hblocks.
  destruct (blocksLoop _ _ content) as [content'| | |]; cbn;
    try (apply Hblocks; intros id'; by apply IH).
  destruct (HasMore response); [|done].
  destruct (NextCursor response) as [cursor|]; [|done].
  by apply IH.
Qed.

Lemma getPageContentPlain_outcome fuel s id :
  contentOutcome s id (getPageContentPlain fuel s id).
Proof.
  unfold getPageContentPlain, getBlockChildrenContentPlain.
  destruct (FindBlockByID _ _) as [err|block] eqn:Hfind.
  { left. by exists err. }
  assert (Hown : contentOutcome s id
            (match kind block with
             | ChildPageValue _ => Ok []
             | _ => line ← convertBlockContentPlain block; Ok [line]
             end : result (list string))).
  { destruct (convertBlockContentPlain_outcome block) as [[line Hl]|Hl];
      destruct (kind block); rewrite ?Hl; done. }
  destruct (match kind block with ChildPageValue _ => _ | _ => _ end)
    as [content| | |]; try done. cbn.
  destruct (HasChildren block); [|done].
  pose proof (childrenLoop_outcome fuel s id id
                {| StartCursor := EmptyString; PageSize := 100 |} [] eq_refl)
    as Hchildren.
  by destruct (childrenLoop _ _ _ _ _).
Qed.

(** X17.  [getPageContentPlain] gives the lines of the page unless a call to
    the service fails or a nil pointer is met (a media block without its
    file, a response that announces more without a cursor).  Its errors are
    those of the service: [ErrFetchBlock] for the page itself, or
    [ErrFetchChildren] with the block and the cursor of the call that
    failed, wherever in the page that call was made; children are always
    asked for in pages of 100. *)
Theorem content_fails_only_when_the_service_does (fuel : nat) (s : SourceAPI)
    (id : string) :
  match getPageContentPlain fuel s id with
  | Ok _ | Diverge => True
  | Err e => fetchFailure s id e
  | Panic msg => msg = "nil pointer dereference"
  end.
Proof. apply getPageContentPlain_outcome. Qed.

End content_outcomes.

Section live_outcomes.
Import notion api.

Lemma pagePropertiesLoop_outcome s st entries :
  (∃ st', pagePropertiesLoop s st entries = Ok st') ∨
  pagePropertiesLoop s st entries = Panic "nil pointer dereference".
Proof.
  revert st. induction entries as [|entry entries IH]; intros st;
    cbn [pagePropertiesLoop]; [left; eauto|].
  destruct (pageProperty_outcome s st entry) as [[st' ->]| ->]; cbn;
    [apply IH|by right].
Qed.

Lemma eventFromPage_Err fuel o s page e :
  eventFromPage fuel o s page = Err e → fetchFailure s (page_ID page) e.
Proof.
  unfold eventFromPage. destruct (page_Properties page); [|done].
  destruct (pagePropertiesLoop_outcome s
              {| st_title := EmptyString; st_start := zeroTime;
                 st_end := zeroTime; st_propertiesList := [] |} (o m))
    as [[st ->]| ->]; cbn; [|done].
  pose proof (getPageContentPlain_outcome fuel s (page_ID page)) as Hcontent.
  destruct (getPageContentPlain _ _ _); cbn; try done.
  by intros [= <-].
Qed.

Lemma pagesLoop_Err fuel o s pages events e :
  pagesLoop fuel o s pages events = Err e →
  ∃ page, page ∈ pages ∧ fetchFailure s (page_ID page) e.
Proof.
  revert events. induction pages as [|page pages IH]; intros events;
    cbn [pagesLoop]; [done|].
  destruct (eventFromPage fuel _ s page) as [event| | |] eqn:He; cbn;
    try done.
  - intros (page' & Hin & Hfail)%IH. exists page'.
    split; [apply elem_of_cons; by right|done].
  - intros [= <-]. exists page. split; [apply elem_of_cons; by left|].
    by eapply eventFromPage_Err.
Qed.

Lemma queryLoop_Err fuel o s query events e :
  query_Filter query = filter s → query_PageSize query = 100 →
  queryLoop fuel o s query events = Err e →
  queryFailure s e ∨ ∃ id, fetchFailure s id e.
Proof.
  revert query events. induction fuel as [|fuel IH];
    intros query events Hfilter Hsize; cbn [queryLoop]; [done|].
  destruct (QueryDatabase _ _ _) as [err|response] eqn:Hquery.
  { intros [= <-]. left. by exists query, err. }
  destruct (pagesLoop fuel o s _ events) as [events'| | |] eqn:Hpages; cbn;
    try done.
  - destruct (query_HasMore response); [|done].
    destruct (query_NextCursor response) as [cursor|]; [|done].
    by apply IH.
  - intros [= <-]. right.
    apply pagesLoop_Err in Hpages as (page & _ & Hfail). eauto.
Qed.

(** X18.  When [ReadAll] of the live source returns an error, a call to the
    service failed and the error reports it: a query of the database, made
    with the filter of the source and for pages of 100, or the fetch of a
    block or of the children of a block of some page.  The fields of a page
    never give an error. *)
Theorem ReadAll_fails_only_when_the_service_does (fuel : nat)
    (o : nat → range_order DatabasePageProperty) (s : SourceAPI) (e : error) :
  ReadAll fuel o s = Err e →
  queryFailure s e ∨ ∃ id, fetchFailure s id e.
Proof. by apply queryLoop_Err. Qed.

Lemma ReadAll_fails_only_when_the_service_does_witness :
  ReadAll 1 (λ _, example.ascending) example.meetingSource
  = Err (ErrClient "not found") ∧
  (queryFailure example.meetingSource (ErrClient "not found") ∨
   ∃ id, fetchFailure example.meetingSource id (ErrClient "not found")).
Proof.
  split; [reflexivity|].
  apply (ReadAll_fails_only_when_the_service_does 1 (λ _, example.ascending)).
  reflexivity.
Defined.

End live_outcomes.

(** ** A configured date column *)

Section configured_date.
Import export.

Lemma dateColumn_configured o s headers record :
  DateProperty (config s) ≠ EmptyString →
  length headers = length record →
  dateColumn o s (fold_left insertEntry (zip headers record) ∅)
  = match last (base.filter (λ kv : string * string,
                               kv.1 = DateProperty (config s))
                            (zip headers record)) with
    | Some kv => Ok (DateProperty (config s), kv.2)
    | None => Err ErrNoDateProperty
    end.
Proof.
  intros Hname%String.eqb_neq Hlen. unfold dateColumn. rewrite Hname.
  rewrite fold_insert_last. by destruct (last _).
Qed.

Lemma eventFromCSVRow_configured o s headers record :
  DateProperty (config s) ≠ EmptyString →
  length headers = length record →
  DateProperty (config s) ∉ headers →
  eventFromCSVRow o s headers record = Err ErrNoDateProperty.
Proof.
  intros Hname Hlen Hnotin. unfold eventFromCSVRow.
  rewrite headersAndRecordToMap_total by done. cbn.
  rewrite dateColumn_configured by done.
  destruct (last _) as [[key value]|] eqn:Hlast; [|done].
  apply last_Some_elem_of, list_elem_of_filter in Hlast as [Hkey Hin].
  cbn in Hkey. subst key. apply elem_of_zip_l in Hin. done.
Qed.

(** X19.  A configured date column is looked up by its exact name: the
    synonyms are not tried and the case of the letters counts.  When no
    header of the table is that name, every row fails with
    [ErrNoDateProperty], in whatever order the map is visited. *)
Theorem configured_date_column_is_matched_exactly
    (o : site → range_order string) (s : SourceExport)
    (headers record : list string) :
  DateProperty (config s) ≠ EmptyString →
  length headers = length record →
  DateProperty (config s) ∉ headers →
  eventFromCSVRow o s headers record = Err ErrNoDateProperty.
Proof. apply eventFromCSVRow_configured. Qed.

Lemma configured_date_column_is_matched_exactly_witness :
  eventFromCSVRow (λ _, example.ascending) datedSnapshot
    example.partyHeaders example.partyRecord = Err ErrNoDateProperty.
Proof.
  apply configured_date_column_is_matched_exactly.
  - cbn. discriminate.
  - reflexivity.
  - cbn. intros Hin%list_elem_of_In.
    destruct Hin as [Hin|[Hin|[Hin|[]]]]; discriminate Hin.
Defined.

End configured_date.
